(** * G1 post-evacuation cleanup: a shallow embedding of
      src/hotspot/share/gc/g1/g1YoungGCPostEvacuateTasks.cpp

    The classes of the file are embedded one module each, with the
    source's names.  C++ objects are records; a [HeapRegion*] is the
    region's index in the heap's region table; member functions that
    mutate the heap are computations in a state-and-abort monad over
    [G1CollectedHeap]; [size_t] and [uint] arithmetic wraps.  Timing,
    logging and JFR events (Ticks, log_debug, hr_printer, the phase-time
    records of the freeing and humongous subtasks) carry no heap state and
    are left out.

    The natives of the attach library on macOS,
      src/jdk.attach/macosx/native/libattach/VirtualMachineImpl.c,
    are embedded in the same monad, over the calls they make on the
    outside world. *)

From Stdlib Require Import ZArith Lia List Bool Permutation.
From Stdlib.Strings Require Import Byte.
From stdpp Require Import base numbers option list gmap sets sorting.
Import ListNotations.

Local Open Scope Z_scope.

(** ** Machine integers *)

(** [size_t] on the 64-bit VM and [uint]: unsigned, wrapping. *)
Definition size_t_bits : Z := 64.
Definition uint_bits : Z := 32.
Definition wrap_size_t (z : Z) : Z := z mod 2 ^ size_t_bits.
Definition wrap_uint (z : Z) : Z := z mod 2 ^ uint_bits.

(** ** Build and platform constants that the file only uses *)

Class VMConfig := {
  (** [#ifdef ASSERT]: whether [assert(...)] is compiled in. *)
  ASSERT : bool;
  COMPILER2_OR_JVMCI : bool;
  UseTLAB : bool;
  ResizeTLAB : bool;
  HeapWordSize : Z;
  (** [HeapRegion::GrainWords], [HeapRegion::GrainBytes]. *)
  GrainWords : Z;
  GrainBytes : Z;
  (** [G1CardTable::dirty_card_val()]. *)
  dirty_card_val : Z;
  (** [G1CardTable::addr_for]: the heap address a card stands for, and
      [G1CollectedHeap::heap_region_containing]: the index of the region
      an address lies in.  Both follow from the heap's fixed geometry. *)
  addr_for : nat -> Z;
  heap_region_containing : Z -> nat;
}.

(** ** Computations that may abort the VM *)

Inductive Abort : Type :=
| AssertFailed      (** a debug-only [assert] fired *)
| GuaranteeFailed   (** a [guarantee] fired (all builds) *)
| InvalidAccess.    (** a pointer or index outside its table *)

(** The state is returned in both cases: on [Fatal] it is the state at the
    moment the process aborts. *)
Inductive outcome (St A : Type) : Type :=
| Ok (a : A) (s : St)
| Fatal (why : Abort) (s : St).
Arguments Ok {St A} a s.
Arguments Fatal {St A} why s.

Definition M (St A : Type) : Type := St -> outcome St A.

#[global] Instance M_ret {St} : MRet (M St) := fun A (a : A) s => Ok a s.

#[global] Instance M_bind {St} : MBind (M St) :=
  fun A B (k : A -> M St B) (c : M St A) s =>
    match c s with
    | Ok a s' => k a s'
    | Fatal why s' => Fatal why s'
    end.

Definition gets {St A} (f : St -> A) : M St A := fun s => Ok (f s) s.
Definition modify {St} (f : St -> St) : M St unit := fun s => Ok tt (f s).
Definition fatal {St A} (why : Abort) : M St A := fun s => Fatal why s.

Definition guarantee {St} (b : bool) : M St unit :=
  if b then mret tt else fatal GuaranteeFailed.

Definition assert_ `{VMConfig} {St} (b : bool) : M St unit :=
  if ASSERT && negb b then fatal AssertFailed else mret tt.

(** A pointer dereference or array read: the value when it is there. *)
Definition deref {St A} (o : option A) : M St A :=
  match o with
  | Some a => mret a
  | None => fatal InvalidAccess
  end.

(** A loop over a list, threading an accumulator ([for] over a container). *)
Fixpoint foldM {St A B} (f : B -> A -> M St B) (l : list A) (b : B) : M St B :=
  match l with
  | [] => mret b
  | x :: l' => b' ← f b x; foldM f l' b'
  end.

Definition final_state {St A} (o : outcome St A) : St :=
  match o with Ok _ s => s | Fatal _ s => s end.

Definition is_Ok {St A} (o : outcome St A) : bool :=
  match o with Ok _ _ => true | Fatal _ _ => false end.

(** ** Regions and the heap *)

Inductive HeapRegionType : Type :=
| FreeTag | EdenTag | SurvTag | StartsHumongousTag | ContinuesHumongousTag | OldTag.

(** What the object at a region's [bottom()] is. *)
Inductive ObjKind : Type := TypeArray | ObjArray | Instance.

Inductive RegionSetName : Type := OldSetName | HumongousSetName | FreeListName.

Record HeapRegion := {
  hr_type : HeapRegionType;
  hr_used : Z;                    (** [used()], bytes *)
  hr_live_bytes : Z;              (** [live_bytes()] *)
  hr_rem_set_occupied : Z;        (** [rem_set()->occupied()] *)
  hr_young_index_in_cset : nat;   (** [young_index_in_cset()] *)
  hr_bottom_obj : ObjKind;        (** [cast_to_oop(bottom())] *)
  hr_containing_set : option RegionSetName;
}.

Definition is_young (r : HeapRegion) : bool :=
  match hr_type r with EdenTag | SurvTag => true | _ => false end.

Definition is_empty (r : HeapRegion) : bool := hr_used r =? 0.

Definition is_typeArray (k : ObjKind) : bool :=
  match k with TypeArray => true | _ => false end.

(** [G1EvacFailureRegions]: the regions that failed evacuation in this pause. *)
Record G1EvacFailureRegions := {
  regions_failed_evacuation : gset nat;
}.

(** [G1EvacInfo] *)
Record G1EvacInfo := {
  ei_regions_freed : Z;
  ei_collection_set_used_before : Z;
  ei_collection_set_used_after : Z;
}.

(** The parts of [G1Policy] the file reports to. *)
Record G1Policy := {
  old_gen_allocated_bytes_since_last_gc : Z;
  recorded_rs_length : Z;
  cset_regions_freed_calls : nat;
  surviving_words_recorded : list (nat * Z);
}.

(** [BufferNode]: the card addresses (card-table indices) logged in one
    buffer. *)
Record BufferNode := {
  logged_cards : list nat;
}.

Record G1CollectedHeap := {
  regions : gmap nat HeapRegion;          (** the region table, by [hrm_index] *)
  collection_set : list nat;              (** [collection_set()] *)
  cset_young_region_length : nat;         (** [collection_set()->young_region_length()] *)
  eden : gset nat;                        (** the Eden region set *)
  old_set : gset nat;
  master_free_list : gset nat;
  OldSets_lock_held : bool;
  humongous_reclaim_candidates : gset nat;
  in_concurrent_start_gc : bool;          (** [collector_state()->in_concurrent_start_gc()] *)
  should_sample_collection_set_candidates : bool;
  cm_mark_bitmap : gset nat;              (** start regions whose object is marked *)
  cm_eagerly_reclaimed : list nat;        (** notifications given to concurrent mark *)
  summary_bytes_used : Z;
  old_failure_used_words : Z;             (** [alloc_buffer_stats(Old)] *)
  old_failure_waste_words : Z;
  humongous_set_length : Z;               (** length of the humongous region set *)
  policy : G1Policy;
  evacuation_info : G1EvacInfo;
  card_table : gmap nat Z;                (** card values, by card index *)
  dirty_card_queue_set : list BufferNode; (** [G1BarrierSet::dirty_card_queue_set()] *)
}.

(** Field updates of [G1CollectedHeap]; every other field is kept. *)
Definition upd_regions (f : gmap nat HeapRegion -> gmap nat HeapRegion) (h : G1CollectedHeap)
    : G1CollectedHeap :=
  Build_G1CollectedHeap (f (regions h)) (collection_set h) (cset_young_region_length h)
    (eden h) (old_set h) (master_free_list h) (OldSets_lock_held h)
    (humongous_reclaim_candidates h) (in_concurrent_start_gc h)
    (should_sample_collection_set_candidates h) (cm_mark_bitmap h)
    (cm_eagerly_reclaimed h) (summary_bytes_used h) (old_failure_used_words h)
    (old_failure_waste_words h) (humongous_set_length h) (policy h) (evacuation_info h)
    (card_table h) (dirty_card_queue_set h).

Definition upd_collection_set (f : list nat -> list nat) (h : G1CollectedHeap)
    : G1CollectedHeap :=
  Build_G1CollectedHeap (regions h) (f (collection_set h)) (cset_young_region_length h)
    (eden h) (old_set h) (master_free_list h) (OldSets_lock_held h)
    (humongous_reclaim_candidates h) (in_concurrent_start_gc h)
    (should_sample_collection_set_candidates h) (cm_mark_bitmap h)
    (cm_eagerly_reclaimed h) (summary_bytes_used h) (old_failure_used_words h)
    (old_failure_waste_words h) (humongous_set_length h) (policy h) (evacuation_info h)
    (card_table h) (dirty_card_queue_set h).

Definition upd_eden (f : gset nat -> gset nat) (h : G1CollectedHeap)
    : G1CollectedHeap :=
  Build_G1CollectedHeap (regions h) (collection_set h) (cset_young_region_length h)
    (f (eden h)) (old_set h) (master_free_list h) (OldSets_lock_held h)
    (humongous_reclaim_candidates h) (in_concurrent_start_gc h)
    (should_sample_collection_set_candidates h) (cm_mark_bitmap h)
    (cm_eagerly_reclaimed h) (summary_bytes_used h) (old_failure_used_words h)
    (old_failure_waste_words h) (humongous_set_length h) (policy h) (evacuation_info h)
    (card_table h) (dirty_card_queue_set h).

Definition upd_old_set (f : gset nat -> gset nat) (h : G1CollectedHeap)
    : G1CollectedHeap :=
  Build_G1CollectedHeap (regions h) (collection_set h) (cset_young_region_length h)
    (eden h) (f (old_set h)) (master_free_list h) (OldSets_lock_held h)
    (humongous_reclaim_candidates h) (in_concurrent_start_gc h)
    (should_sample_collection_set_candidates h) (cm_mark_bitmap h)
    (cm_eagerly_reclaimed h) (summary_bytes_used h) (old_failure_used_words h)
    (old_failure_waste_words h) (humongous_set_length h) (policy h) (evacuation_info h)
    (card_table h) (dirty_card_queue_set h).

Definition upd_OldSets_lock_held (f : bool -> bool) (h : G1CollectedHeap)
    : G1CollectedHeap :=
  Build_G1CollectedHeap (regions h) (collection_set h) (cset_young_region_length h)
    (eden h) (old_set h) (master_free_list h) (f (OldSets_lock_held h))
    (humongous_reclaim_candidates h) (in_concurrent_start_gc h)
    (should_sample_collection_set_candidates h) (cm_mark_bitmap h)
    (cm_eagerly_reclaimed h) (summary_bytes_used h) (old_failure_used_words h)
    (old_failure_waste_words h) (humongous_set_length h) (policy h) (evacuation_info h)
    (card_table h) (dirty_card_queue_set h).

Definition upd_cm_eagerly_reclaimed (f : list nat -> list nat) (h : G1CollectedHeap)
    : G1CollectedHeap :=
  Build_G1CollectedHeap (regions h) (collection_set h) (cset_young_region_length h)
    (eden h) (old_set h) (master_free_list h) (OldSets_lock_held h)
    (humongous_reclaim_candidates h) (in_concurrent_start_gc h)
    (should_sample_collection_set_candidates h) (cm_mark_bitmap h)
    (f (cm_eagerly_reclaimed h)) (summary_bytes_used h) (old_failure_used_words h)
    (old_failure_waste_words h) (humongous_set_length h) (policy h) (evacuation_info h)
    (card_table h) (dirty_card_queue_set h).

Definition upd_summary_bytes_used (f : Z -> Z) (h : G1CollectedHeap)
    : G1CollectedHeap :=
  Build_G1CollectedHeap (regions h) (collection_set h) (cset_young_region_length h)
    (eden h) (old_set h) (master_free_list h) (OldSets_lock_held h)
    (humongous_reclaim_candidates h) (in_concurrent_start_gc h)
    (should_sample_collection_set_candidates h) (cm_mark_bitmap h)
    (cm_eagerly_reclaimed h) (f (summary_bytes_used h)) (old_failure_used_words h)
    (old_failure_waste_words h) (humongous_set_length h) (policy h) (evacuation_info h)
    (card_table h) (dirty_card_queue_set h).

Definition upd_old_failure_used_words (f : Z -> Z) (h : G1CollectedHeap)
    : G1CollectedHeap :=
  Build_G1CollectedHeap (regions h) (collection_set h) (cset_young_region_length h)
    (eden h) (old_set h) (master_free_list h) (OldSets_lock_held h)
    (humongous_reclaim_candidates h) (in_concurrent_start_gc h)
    (should_sample_collection_set_candidates h) (cm_mark_bitmap h)
    (cm_eagerly_reclaimed h) (summary_bytes_used h) (f (old_failure_used_words h))
    (old_failure_waste_words h) (humongous_set_length h) (policy h) (evacuation_info h)
    (card_table h) (dirty_card_queue_set h).

Definition upd_old_failure_waste_words (f : Z -> Z) (h : G1CollectedHeap)
    : G1CollectedHeap :=
  Build_G1CollectedHeap (regions h) (collection_set h) (cset_young_region_length h)
    (eden h) (old_set h) (master_free_list h) (OldSets_lock_held h)
    (humongous_reclaim_candidates h) (in_concurrent_start_gc h)
    (should_sample_collection_set_candidates h) (cm_mark_bitmap h)
    (cm_eagerly_reclaimed h) (summary_bytes_used h) (old_failure_used_words h)
    (f (old_failure_waste_words h)) (humongous_set_length h) (policy h)
    (evacuation_info h) (card_table h) (dirty_card_queue_set h).

Definition upd_humongous_set_length (f : Z -> Z) (h : G1CollectedHeap)
    : G1CollectedHeap :=
  Build_G1CollectedHeap (regions h) (collection_set h) (cset_young_region_length h)
    (eden h) (old_set h) (master_free_list h) (OldSets_lock_held h)
    (humongous_reclaim_candidates h) (in_concurrent_start_gc h)
    (should_sample_collection_set_candidates h) (cm_mark_bitmap h)
    (cm_eagerly_reclaimed h) (summary_bytes_used h) (old_failure_used_words h)
    (old_failure_waste_words h) (f (humongous_set_length h)) (policy h)
    (evacuation_info h) (card_table h) (dirty_card_queue_set h).

Definition upd_policy (f : G1Policy -> G1Policy) (h : G1CollectedHeap)
    : G1CollectedHeap :=
  Build_G1CollectedHeap (regions h) (collection_set h) (cset_young_region_length h)
    (eden h) (old_set h) (master_free_list h) (OldSets_lock_held h)
    (humongous_reclaim_candidates h) (in_concurrent_start_gc h)
    (should_sample_collection_set_candidates h) (cm_mark_bitmap h)
    (cm_eagerly_reclaimed h) (summary_bytes_used h) (old_failure_used_words h)
    (old_failure_waste_words h) (humongous_set_length h) (f (policy h))
    (evacuation_info h) (card_table h) (dirty_card_queue_set h).

Definition upd_evacuation_info (f : G1EvacInfo -> G1EvacInfo) (h : G1CollectedHeap)
    : G1CollectedHeap :=
  Build_G1CollectedHeap (regions h) (collection_set h) (cset_young_region_length h)
    (eden h) (old_set h) (master_free_list h) (OldSets_lock_held h)
    (humongous_reclaim_candidates h) (in_concurrent_start_gc h)
    (should_sample_collection_set_candidates h) (cm_mark_bitmap h)
    (cm_eagerly_reclaimed h) (summary_bytes_used h) (old_failure_used_words h)
    (old_failure_waste_words h) (humongous_set_length h) (policy h)
    (f (evacuation_info h)) (card_table h) (dirty_card_queue_set h).

Definition upd_card_table (f : gmap nat Z -> gmap nat Z) (h : G1CollectedHeap)
    : G1CollectedHeap :=
  Build_G1CollectedHeap (regions h) (collection_set h) (cset_young_region_length h)
    (eden h) (old_set h) (master_free_list h) (OldSets_lock_held h)
    (humongous_reclaim_candidates h) (in_concurrent_start_gc h)
    (should_sample_collection_set_candidates h) (cm_mark_bitmap h)
    (cm_eagerly_reclaimed h) (summary_bytes_used h) (old_failure_used_words h)
    (old_failure_waste_words h) (humongous_set_length h) (policy h) (evacuation_info h)
    (f (card_table h)) (dirty_card_queue_set h).

Definition upd_dirty_card_queue_set (f : list BufferNode -> list BufferNode) (h : G1CollectedHeap)
    : G1CollectedHeap :=
  Build_G1CollectedHeap (regions h) (collection_set h) (cset_young_region_length h)
    (eden h) (old_set h) (master_free_list h) (OldSets_lock_held h)
    (humongous_reclaim_candidates h) (in_concurrent_start_gc h)
    (should_sample_collection_set_candidates h) (cm_mark_bitmap h)
    (cm_eagerly_reclaimed h) (summary_bytes_used h) (old_failure_used_words h)
    (old_failure_waste_words h) (humongous_set_length h) (policy h) (evacuation_info h)
    (card_table h) (f (dirty_card_queue_set h)).

Definition upd_master_free_list (f : gset nat -> gset nat) (h : G1CollectedHeap)
    : G1CollectedHeap :=
  Build_G1CollectedHeap (regions h) (collection_set h) (cset_young_region_length h)
    (eden h) (old_set h) (f (master_free_list h)) (OldSets_lock_held h)
    (humongous_reclaim_candidates h) (in_concurrent_start_gc h)
    (should_sample_collection_set_candidates h) (cm_mark_bitmap h)
    (cm_eagerly_reclaimed h) (summary_bytes_used h) (old_failure_used_words h)
    (old_failure_waste_words h) (humongous_set_length h) (policy h) (evacuation_info h)
    (card_table h) (dirty_card_queue_set h).

Definition upd_region (f : HeapRegion -> HeapRegion) (r : nat)
    : G1CollectedHeap -> G1CollectedHeap :=
  upd_regions (alter f r).

(** ** Heap operations the file calls

    [G1CollectedHeap], [HeapRegion], [G1Policy] and the queue sets are
    declared outside this file; their operations are modelled here. *)

Abbreviation G1 := (M G1CollectedHeap).

(** Modelled from the spec: region lookup by index ([region_at], and
    dereferencing a [HeapRegion*]); a region that is not in the table is an
    invalid pointer. *)
Definition region_at (r : nat) : G1 HeapRegion :=
  fun h => deref (regions h !! r) h.

(** Modelled from the spec: membership in the current collection set
    ([is_in_cset], [HeapRegion::in_collection_set]). *)
Definition is_in_cset (h : G1CollectedHeap) (r : nat) : bool :=
  bool_decide (r ∈ collection_set h).

(** Modelled from the spec: membership in the global free list. *)
Definition is_on_master_free_list (h : G1CollectedHeap) (r : nat) : bool :=
  bool_decide (r ∈ master_free_list h).

(** Modelled from the spec: whether a humongous start region is still
    flagged as a reclaim candidate, and whether any region is. *)
Definition is_humongous_reclaim_candidate (h : G1CollectedHeap) (r : nat) : bool :=
  bool_decide (r ∈ humongous_reclaim_candidates h).

Definition has_humongous_reclaim_candidates (h : G1CollectedHeap) : bool :=
  negb (bool_decide (humongous_reclaim_candidates h = ∅)).

(** Modelled from the spec: the failure-subset membership test, and the
    number of failed regions. *)
Definition contains (efr : G1EvacFailureRegions) (r : nat) : bool :=
  bool_decide (r ∈ regions_failed_evacuation efr).

Definition num_regions_failed_evacuation (efr : G1EvacFailureRegions) : nat :=
  size (regions_failed_evacuation efr).

(** Modelled from the spec: G1EvacFailureRegions::evacuation_failed is not
    under src/; the recovery subtasks are scheduled when at least one
    region failed evacuation. *)
Definition evacuation_failed (efr : G1EvacFailureRegions) : bool :=
  (0 <? num_regions_failed_evacuation efr)%nat.

(** The destination a caller hands to [free_region]; the file always hands
    [nullptr]. *)
Inductive FreeRegionList : Type := MasterFreeList.

(** Modelled from the spec: a freed region's metadata is reset for reuse,
    its remembered set cleared. *)
Definition hr_clear (r : HeapRegion) : HeapRegion :=
  {| hr_type := FreeTag; hr_used := 0; hr_live_bytes := 0;
     hr_rem_set_occupied := 0; hr_young_index_in_cset := 0%nat;
     hr_bottom_obj := hr_bottom_obj r;
     hr_containing_set := hr_containing_set r |}.

(** Modelled from the spec: G1CollectedHeap::free_region is not under src/.
    The region is freed and its remembered set cleared; it is returned to
    the free list the caller passes.  With [nullptr] (what both callers in
    this file pass, followed by [assert(!is_on_master_free_list(r))]) the
    region is put on no list. *)
Definition free_region (r : nat) (free_list : option FreeRegionList) : G1 unit :=
  _ ← region_at r;
  modify (upd_region hr_clear r);;
  match free_list with
  | Some MasterFreeList => modify (upd_master_free_list (fun s => {[r]} ∪ s))
  | None => mret tt
  end.

(** Modelled from the spec: G1CollectedHeap::free_humongous_region is not
    under src/; a humongous region is freed like any other. *)
Definition free_humongous_region (r : nat) (free_list : option FreeRegionList) : G1 unit :=
  free_region r free_list.

(** Modelled from the spec: HeapRegion::handle_evacuation_failure is not
    under src/; a region that failed evacuation is retained as an old
    region. *)
Definition handle_evacuation_failure (r : nat) : G1 unit :=
  _ ← region_at r;
  modify (upd_region (fun hr =>
    {| hr_type := OldTag; hr_used := hr_used hr; hr_live_bytes := hr_live_bytes hr;
       hr_rem_set_occupied := hr_rem_set_occupied hr;
       hr_young_index_in_cset := 0%nat;
       hr_bottom_obj := hr_bottom_obj hr;
       hr_containing_set := hr_containing_set hr |}) r).

(** Modelled from the spec: the region's containment pointer is set. *)
Definition set_containing_set (r : nat) (s : option RegionSetName) : G1 unit :=
  _ ← region_at r;
  modify (upd_region (fun hr =>
    {| hr_type := hr_type hr; hr_used := hr_used hr; hr_live_bytes := hr_live_bytes hr;
       hr_rem_set_occupied := hr_rem_set_occupied hr;
       hr_young_index_in_cset := hr_young_index_in_cset hr;
       hr_bottom_obj := hr_bottom_obj hr;
       hr_containing_set := s |}) r).

(** Modelled from the spec: the exclusive lock of the old-generation set is
    taken by [MutexLocker x(OldSets_lock, ...)] and given back at the end of
    its scope. *)
Definition OldSets_lock_acquire : G1 unit := modify (upd_OldSets_lock_held (fun _ => true)).
Definition OldSets_lock_release : G1 unit := modify (upd_OldSets_lock_held (fun _ => false)).

(** Modelled from the spec: G1CollectedHeap::old_set_add is not under src/.
    The old-generation set and the region's containment pointer are
    mutated under the exclusive lock: the set checks that the lock is held. *)
Definition old_set_add `{VMConfig} (r : nat) : G1 unit :=
  held ← gets OldSets_lock_held;
  assert_ held;;
  set_containing_set r (Some OldSetName);;
  modify (upd_old_set (fun s => {[r]} ∪ s)).

(** Modelled from the spec: clear the transient Eden set. *)
Definition clear_eden : G1 unit := modify (upd_eden (fun _ => ∅)).

(** Modelled from the spec: clear the collection-set container. *)
Definition clear_collection_set : G1 unit := modify (upd_collection_set (fun _ => [])).

(** Modelled from the spec: the heap-wide used-bytes counter goes down by
    the bytes given. *)
Definition decrement_summary_bytes (bytes : Z) : G1 unit :=
  modify (upd_summary_bytes_used (fun u => wrap_size_t (u - bytes))).

(** Modelled from the spec: the humongous region set shrinks by the number
    of humongous regions removed (no old region is removed here). *)
Definition remove_from_old_gen_sets (old_regions_removed humongous_regions_removed : Z)
    : G1 unit :=
  modify (upd_humongous_set_length (fun n => wrap_uint (n - humongous_regions_removed))).

(** Modelled from the spec: HeapRegion::record_surv_words_in_group records
    the region's post-evacuation surviving-word count. *)
Definition record_surv_words_in_group (r : nat) (words : Z) : G1 unit :=
  modify (upd_policy (fun p =>
    {| old_gen_allocated_bytes_since_last_gc := old_gen_allocated_bytes_since_last_gc p;
       recorded_rs_length := recorded_rs_length p;
       cset_regions_freed_calls := cset_regions_freed_calls p;
       surviving_words_recorded := surviving_words_recorded p ++ [(r, words)] |})).

(** ** class FreeCSetStats *)

Module FreeCSetStats.

Record t := {
  before_used_bytes : Z;                     (** size_t *)
  after_used_bytes : Z;                      (** size_t *)
  bytes_allocated_in_old_since_last_gc : Z;  (** size_t *)
  failure_used_words : Z;                    (** size_t *)
  failure_waste_words : Z;                   (** size_t *)
  rs_length : Z;                             (** size_t *)
  regions_freed : Z;                         (** uint *)
}.

(** The constructor. *)
Definition new : t :=
  {| before_used_bytes := 0; after_used_bytes := 0;
     bytes_allocated_in_old_since_last_gc := 0;
     failure_used_words := 0; failure_waste_words := 0;
     rs_length := 0; regions_freed := 0 |}.

Definition merge_stats (this other : t) : t :=
  {| before_used_bytes := wrap_size_t (before_used_bytes this + before_used_bytes other);
     after_used_bytes := wrap_size_t (after_used_bytes this + after_used_bytes other);
     bytes_allocated_in_old_since_last_gc :=
       wrap_size_t (bytes_allocated_in_old_since_last_gc this
                    + bytes_allocated_in_old_since_last_gc other);
     failure_used_words := wrap_size_t (failure_used_words this + failure_used_words other);
     failure_waste_words := wrap_size_t (failure_waste_words this + failure_waste_words other);
     rs_length := wrap_size_t (rs_length this + rs_length other);
     regions_freed := wrap_uint (regions_freed this + regions_freed other) |}.

Definition report (this : t) : G1 unit :=
  modify (upd_evacuation_info (fun ei =>
    {| ei_regions_freed := regions_freed this;
       ei_collection_set_used_before :=
         wrap_size_t (before_used_bytes this + after_used_bytes this);
       ei_collection_set_used_after :=
         wrap_size_t (ei_collection_set_used_after ei + after_used_bytes this) |}));;
  decrement_summary_bytes (before_used_bytes this);;
  modify (upd_old_failure_used_words (fun u => wrap_size_t (u + failure_used_words this)));;
  modify (upd_old_failure_waste_words (fun w => wrap_size_t (w + failure_waste_words this)));;
  modify (upd_policy (fun p =>
    {| old_gen_allocated_bytes_since_last_gc :=
         wrap_size_t (old_gen_allocated_bytes_since_last_gc p
                      + bytes_allocated_in_old_since_last_gc this);
       recorded_rs_length := rs_length this;
       cset_regions_freed_calls := S (cset_regions_freed_calls p);
       surviving_words_recorded := surviving_words_recorded p |})).

Section WithConfig.
Context `{VMConfig}.

Definition account_failed_region (this : t) (r : nat) : G1 t :=
  hr ← region_at r;
  let used_words := hr_live_bytes hr `div` HeapWordSize in
  mret
    {| before_used_bytes := before_used_bytes this;
       after_used_bytes := wrap_size_t (after_used_bytes this + hr_used hr);
       bytes_allocated_in_old_since_last_gc :=
         (if is_young hr
          then wrap_size_t (bytes_allocated_in_old_since_last_gc this + GrainBytes)
          else bytes_allocated_in_old_since_last_gc this);
       failure_used_words := wrap_size_t (failure_used_words this + used_words);
       failure_waste_words :=
         wrap_size_t (failure_waste_words this + wrap_size_t (GrainWords - used_words));
       rs_length := rs_length this;
       regions_freed := regions_freed this |}.

Definition account_evacuated_region (this : t) (r : nat) : G1 t :=
  hr ← region_at r;
  let used := hr_used hr in
  assert_ (0 <? used);;
  mret
    {| before_used_bytes := wrap_size_t (before_used_bytes this + used);
       after_used_bytes := after_used_bytes this;
       bytes_allocated_in_old_since_last_gc := bytes_allocated_in_old_since_last_gc this;
       failure_used_words := failure_used_words this;
       failure_waste_words := failure_waste_words this;
       rs_length := rs_length this;
       regions_freed := wrap_uint (regions_freed this + 1) |}.

Definition account_rs_length (this : t) (r : nat) : G1 t :=
  hr ← region_at r;
  mret
    {| before_used_bytes := before_used_bytes this;
       after_used_bytes := after_used_bytes this;
       bytes_allocated_in_old_since_last_gc := bytes_allocated_in_old_since_last_gc this;
       failure_used_words := failure_used_words this;
       failure_waste_words := failure_waste_words this;
       rs_length := wrap_size_t (rs_length this + hr_rem_set_occupied hr);
       regions_freed := regions_freed this |}.

End WithConfig.

End FreeCSetStats.

(** ** class FreeCSetClosure *)

Module FreeCSetClosure.

Record t := {
  surviving_young_words : list Z;           (** [const size_t*] *)
  worker_id : nat;
  stats : FreeCSetStats.t;                  (** the worker's slot, [*_stats] *)
  evac_failure_regions : G1EvacFailureRegions;
}.

Definition new (surviving_young_words : list Z) (worker_id : nat)
    (stats : FreeCSetStats.t) (evac_failure_regions : G1EvacFailureRegions) : t :=
  {| surviving_young_words := surviving_young_words; worker_id := worker_id;
     stats := stats; evac_failure_regions := evac_failure_regions |}.

Definition with_stats (cl : t) (s : FreeCSetStats.t) : t :=
  {| surviving_young_words := surviving_young_words cl; worker_id := worker_id cl;
     stats := s; evac_failure_regions := evac_failure_regions cl |}.

Section WithConfig.
Context `{VMConfig}.

Definition assert_tracks_surviving_words (r : nat) : G1 unit :=
  hr ← region_at r;
  len ← gets cset_young_region_length;
  assert_ (negb (hr_young_index_in_cset hr =? 0)%nat
           && (hr_young_index_in_cset hr <=? len)%nat).

Definition handle_evacuated_region (cl : t) (r : nat) : G1 t :=
  hr ← region_at r;
  assert_ (negb (is_empty hr));;
  s ← FreeCSetStats.account_evacuated_region (stats cl) r;
  free_region r None;;
  mret (with_stats cl s).

Definition handle_failed_region (cl : t) (r : nat) : G1 t :=
  s ← FreeCSetStats.account_failed_region (stats cl) r;
  in_cset ← gets (fun h => is_in_cset h r);
  assert_ in_cset;;
  handle_evacuation_failure r;;
  OldSets_lock_acquire;;
  old_set_add r;;
  OldSets_lock_release;;
  mret (with_stats cl s).

Definition do_heap_region (cl : t) (r : nat) : G1 (t * bool) :=
  in_cset ← gets (fun h => is_in_cset h r);
  assert_ in_cset;;
  s ← FreeCSetStats.account_rs_length (stats cl) r;
  let cl := with_stats cl s in
  hr ← region_at r;
  (if is_young hr
   then assert_tracks_surviving_words r;;
        words ← deref (surviving_young_words cl !! hr_young_index_in_cset hr);
        record_surv_words_in_group r words
   else mret tt);;
  cl ← (if contains (evac_failure_regions cl) r
        then handle_failed_region cl r
        else handle_evacuated_region cl r);
  on_free_list ← gets (fun h => is_on_master_free_list h r);
  assert_ (negb on_free_list);;
  mret (cl, false).

End WithConfig.

End FreeCSetClosure.

(** ** class G1PostEvacuateCollectionSetCleanupTask2::FreeCollectionSetTask *)

Module FreeCollectionSetTask.

Record t := {
  worker_stats : list FreeCSetStats.t;      (** [_worker_stats], [nullptr] is [[]] *)
  surviving_young_words : list Z;
  active_workers : nat;
  evac_failure_regions : G1EvacFailureRegions;
}.

Definition with_worker_stats (this : t) (ws : list FreeCSetStats.t) : t :=
  {| worker_stats := ws; surviving_young_words := surviving_young_words this;
     active_workers := active_workers this;
     evac_failure_regions := evac_failure_regions this |}.

(** [&_worker_stats[worker]] read through. *)
Definition worker_stats_at (this : t) (worker : nat) : G1 FreeCSetStats.t :=
  deref (worker_stats this !! worker).

(** The merge loop of [report_statistics]. *)
Definition merged_stats (this : t) : G1 FreeCSetStats.t :=
  foldM (fun total worker =>
           s ← worker_stats_at this worker;
           mret (FreeCSetStats.merge_stats total s))
        (seq 0%nat (active_workers this)) FreeCSetStats.new.

Definition report_statistics (this : t) : G1 unit :=
  total_stats ← merged_stats this;
  FreeCSetStats.report total_stats.

(** The constructor. *)
Definition new (surviving_young_words : list Z)
    (evac_failure_regions : G1EvacFailureRegions) : G1 t :=
  clear_eden;;
  mret {| worker_stats := []; surviving_young_words := surviving_young_words;
          active_workers := 0%nat; evac_failure_regions := evac_failure_regions |}.

(** The destructor. *)
Definition destroy (this : t) : G1 unit :=
  report_statistics this;;
  clear_collection_set.

Definition worker_cost (h : G1CollectedHeap) : nat := length (collection_set h).

Definition set_max_workers (this : t) (max_workers : nat) : t :=
  {| worker_stats := replicate max_workers FreeCSetStats.new;
     surviving_young_words := surviving_young_words this;
     active_workers := max_workers;
     evac_failure_regions := evac_failure_regions this |}.

Section WithConfig.
Context `{VMConfig}.

(** Modelled from the spec: G1CollectedHeap::collection_set_par_iterate_all
    and the HeapRegionClaimer are not under src/.  Every region of the
    collection set is claimed by exactly one worker; [claimed] is what
    this worker claimed, in the order it visits them.  A closure that
    returns true ends the iteration. *)
Fixpoint collection_set_par_iterate_all (cl : FreeCSetClosure.t) (claimed : list nat)
    : G1 FreeCSetClosure.t :=
  match claimed with
  | [] => mret cl
  | r :: rest =>
      '(cl', stop) ← FreeCSetClosure.do_heap_region cl r;
      if stop : bool then mret cl'
      else collection_set_par_iterate_all cl' rest
  end.

Definition do_work (this : t) (worker_id : nat) (claimed : list nat) : G1 t :=
  slot ← worker_stats_at this worker_id;
  let cl := FreeCSetClosure.new (surviving_young_words this) worker_id slot
              (evac_failure_regions this) in
  cl ← collection_set_par_iterate_all cl claimed;
  mret (with_worker_stats this
          (<[worker_id := FreeCSetClosure.stats cl]> (worker_stats this))).

(** The parallel phase: the workers' iterations interleaved region by
    region.  A step [(w, r)] is worker [w] visiting region [r]. *)
Definition par_do_work (this : t) (schedule : list (nat * nat)) : G1 t :=
  foldM (fun this step => do_work this (fst step) [snd step]) schedule this.

(** The life of the subtask inside the batch: construction, the worker
    count, the parallel phase, teardown after the join. *)
Definition run (surviving_young_words : list Z)
    (evac_failure_regions : G1EvacFailureRegions)
    (max_workers : nat) (schedule : list (nat * nat)) : G1 unit :=
  task ← new surviving_young_words evac_failure_regions;
  let task := set_max_workers task max_workers in
  task ← par_do_work task schedule;
  destroy task.

End WithConfig.

End FreeCollectionSetTask.

(** ** class G1FreeHumongousRegionClosure *)

Definition is_continues_humongous (r : HeapRegion) : bool :=
  match hr_type r with ContinuesHumongousTag => true | _ => false end.

Definition next_region_in_humongous (h : G1CollectedHeap) (r : nat) : option nat :=
  match regions h !! S r with
  | Some hr => if is_continues_humongous hr then Some (S r) else None
  | None => None
  end.

Fixpoint humongous_obj_regions_from (h : G1CollectedHeap) (fuel : nat) (r : nat) : list nat :=
  r :: match fuel with
       | O => []
       | S fuel' =>
           match next_region_in_humongous h r with
           | Some r' => humongous_obj_regions_from h fuel' r'
           | None => []
           end
       end.

(** The regions spanned by the humongous object that starts in region [r]:
    the start region and the continuation regions that follow it. *)
Definition humongous_obj_regions (h : G1CollectedHeap) (r : nat) : list nat :=
  humongous_obj_regions_from h (size (regions h)) r.

(** Modelled from the spec: G1CollectedHeap::humongous_obj_regions_iterate
    is not under src/; it applies the function to every region spanned by
    the (possibly multi-region) object. *)
Definition humongous_obj_regions_iterate {A} (r : nat) (f : A -> nat -> G1 A) (a : A) : G1 A :=
  span ← gets (fun h => humongous_obj_regions h r);
  foldM f span a.

(** Modelled from the spec: the marking subsystem is notified that the
    object is gone. *)
Definition humongous_object_eagerly_reclaimed (r : nat) : G1 unit :=
  modify (upd_cm_eagerly_reclaimed (fun l => l ++ [r])).

Definition is_marked_in_bitmap (h : G1CollectedHeap) (r : nat) : bool :=
  bool_decide (r ∈ cm_mark_bitmap h).

(** Modelled from the spec, which leaves the order of the heap-region scan
    open: G1CollectedHeap::heap_region_iterate is not under src/; the
    regions of the heap are visited by ascending index, the order of
    HeapRegionManager::iterate. *)
Definition region_indices (h : G1CollectedHeap) : list nat :=
  merge_sort Nat.le (elements (dom (regions h))).

Module G1FreeHumongousRegionClosure.

Record t := {
  humongous_objects_reclaimed : Z;   (** uint *)
  humongous_regions_reclaimed : Z;   (** uint *)
  freed_bytes : Z;                   (** size_t *)
}.

Definition new : t :=
  {| humongous_objects_reclaimed := 0; humongous_regions_reclaimed := 0;
     freed_bytes := 0 |}.

Definition is_reclaimable (h : G1CollectedHeap) (region_idx : nat) : bool :=
  is_humongous_reclaim_candidate h region_idx.

(** The lambda [free_humongous_region] of [do_heap_region_index]. *)
Definition free_humongous_region_fn (cl : t) (r : nat) : G1 t :=
  hr ← region_at r;
  set_containing_set r None;;
  free_humongous_region r None;;
  mret {| humongous_objects_reclaimed := humongous_objects_reclaimed cl;
          humongous_regions_reclaimed := wrap_uint (humongous_regions_reclaimed cl + 1);
          freed_bytes := wrap_size_t (freed_bytes cl + hr_used hr) |}.

Section WithConfig.
Context `{VMConfig}.

Definition do_heap_region_index (cl : t) (region_index : nat) : G1 (t * bool) :=
  reclaimable ← gets (fun h => is_reclaimable h region_index);
  if negb reclaimable then mret (cl, false)
  else
    hr ← region_at region_index;
    guarantee (is_typeArray (hr_bottom_obj hr));;
    humongous_object_eagerly_reclaimed region_index;;
    marked ← gets (fun h => is_marked_in_bitmap h region_index);
    assert_ (negb marked);;
    let cl :=
      {| humongous_objects_reclaimed := wrap_uint (humongous_objects_reclaimed cl + 1);
         humongous_regions_reclaimed := humongous_regions_reclaimed cl;
         freed_bytes := freed_bytes cl |} in
    cl ← humongous_obj_regions_iterate region_index free_humongous_region_fn cl;
    mret (cl, false).

(** Modelled from the spec: G1CollectedHeap::heap_region_iterate is not
    under src/; every region index of the heap is visited once, in the
    order of [region_indices], and a closure that returns true ends the
    scan. *)
Fixpoint heap_region_iterate_over (cl : t) (indices : list nat) : G1 t :=
  match indices with
  | [] => mret cl
  | i :: rest =>
      '(cl', stop) ← do_heap_region_index cl i;
      if stop : bool then mret cl' else heap_region_iterate_over cl' rest
  end.

Definition heap_region_iterate (cl : t) : G1 t :=
  indices ← gets region_indices;
  heap_region_iterate_over cl indices.

End WithConfig.

End G1FreeHumongousRegionClosure.

(** ** class ...CleanupTask2::EagerlyReclaimHumongousObjectsTask *)

Module EagerlyReclaimHumongousObjectsTask.

Record t := {
  humongous_regions_reclaimed : Z;  (** uint *)
  bytes_freed : Z;                  (** size_t *)
}.

Definition new : t := {| humongous_regions_reclaimed := 0; bytes_freed := 0 |}.

Definition destroy (this : t) : G1 unit :=
  remove_from_old_gen_sets 0 (humongous_regions_reclaimed this);;
  decrement_summary_bytes (bytes_freed this).

Section WithConfig.
Context `{VMConfig}.

Definition do_work (this : t) (worker_id : nat) : G1 t :=
  cl ← G1FreeHumongousRegionClosure.heap_region_iterate G1FreeHumongousRegionClosure.new;
  mret {| humongous_regions_reclaimed :=
            G1FreeHumongousRegionClosure.humongous_regions_reclaimed cl;
          bytes_freed := G1FreeHumongousRegionClosure.freed_bytes cl |}.

End WithConfig.

End EagerlyReclaimHumongousObjectsTask.

(** ** class RedirtyLoggedCardTableEntryClosure *)

Module RedirtyLoggedCardTableEntryClosure.

Record t := {
  num_dirtied : Z;   (** size_t *)
  evac_failure_regions : G1EvacFailureRegions;
}.

Definition new (evac_failure_regions : G1EvacFailureRegions) : t :=
  {| num_dirtied := 0; evac_failure_regions := evac_failure_regions |}.

Definition will_become_free (cl : t) (h : G1CollectedHeap) (hr : nat) : bool :=
  is_in_cset h hr && negb (contains (evac_failure_regions cl) hr).

Section WithConfig.
Context `{VMConfig}.

Definition region_for_card (card_ptr : nat) : nat :=
  heap_region_containing (addr_for card_ptr).

Definition do_card_ptr (cl : t) (card_ptr : nat) (worker_id : nat) : G1 t :=
  let hr := region_for_card card_ptr in
  free ← gets (fun h => will_become_free cl h hr);
  if negb free then
    modify (upd_card_table (fun ct => <[card_ptr := dirty_card_val]> ct));;
    mret {| num_dirtied := wrap_size_t (num_dirtied cl + 1);
            evac_failure_regions := evac_failure_regions cl |}
  else mret cl.

(** Modelled from the spec: G1CardTableEntryClosure::apply_to_buffer is
    not under src/; the closure is applied to each card address logged
    in the buffer node. *)
Definition apply_to_buffer (cl : t) (node : BufferNode) (worker_id : nat) : G1 t :=
  foldM (fun cl card_ptr => do_card_ptr cl card_ptr worker_id) (logged_cards node) cl.

End WithConfig.

End RedirtyLoggedCardTableEntryClosure.

(** ** class ...CleanupTask2::RedirtyLoggedCardsTask *)

Module RedirtyLoggedCardsTask.

(** A [BufferNode*] into the queue set's chain of completed buffers: the
    position of the node in the chain; [None] is [nullptr]. *)
Definition node_ptr : Type := option nat.

Record t := {
  rdcqs : list BufferNode;     (** [*_rdcqs]: its chain of completed buffers *)
  nodes : node_ptr;            (** [_nodes] *)
  evac_failure_regions : G1EvacFailureRegions;
  work_items : gmap nat Z;     (** [record_work_item(worker_id, 0, ...)] *)
}.

(** [rdcqs->all_completed_buffers()]: the head of the chain. *)
Definition all_completed_buffers (rdcqs : list BufferNode) : node_ptr :=
  match rdcqs with [] => None | _ :: _ => Some 0%nat end.

(** [node->next()]. *)
Definition next (this : t) (node : nat) : node_ptr :=
  if (S node <? length (rdcqs this))%nat then Some (S node) else None.

Definition new (rdcqs : list BufferNode) (evac_failure_regions : G1EvacFailureRegions) : t :=
  {| rdcqs := rdcqs; nodes := all_completed_buffers rdcqs;
     evac_failure_regions := evac_failure_regions; work_items := ∅ |}.

Definition with_nodes (this : t) (p : node_ptr) : t :=
  {| rdcqs := rdcqs this; nodes := p;
     evac_failure_regions := evac_failure_regions this;
     work_items := work_items this |}.

Definition record_work_item (this : t) (worker_id : nat) (v : Z) : t :=
  {| rdcqs := rdcqs this; nodes := nodes this;
     evac_failure_regions := evac_failure_regions this;
     work_items := <[worker_id := v]> (work_items this) |}.

(** [do_work] is run by several workers at once.  It is embedded as the
    sequence of its atomic actions on the shared state (the load and the
    compare-and-swap of [_nodes], the processing of a claimed buffer,
    the final work-item record); the workers' actions interleave.

    Where a worker stands in [do_work], with its locals: *)
Inductive worker_state : Type :=
| AtLoad
    (** before [Atomic::load(&_nodes)] *)
| AtLoop (cl : RedirtyLoggedCardTableEntryClosure.t) (next : node_ptr)
    (** at the [while] test, about to [cmpxchg] *)
| Claimed (cl : RedirtyLoggedCardTableEntryClosure.t) (node : nat)
    (** its [cmpxchg] succeeded, [apply_to_buffer] is next *)
| Finished (cl : RedirtyLoggedCardTableEntryClosure.t).
    (** after [record_work_item] *)

(** What the task and all its workers share. *)
Record shared := {
  task : t;
  g1h : G1CollectedHeap;
  processed : list (nat * nat);   (** ghost: (worker, node) per [apply_to_buffer] call *)
}.

Section WithConfig.
Context `{VMConfig}.

(** One atomic action of worker [worker_id] in [do_work].  Processing a
    buffer is one action: its card writes all store the same value and read
    only the collection set and the failure set, which this subtask never
    changes.  A claimed node is a node of the chain, and [apply_to_buffer]
    never aborts, so the two fall-back branches are never taken. *)
Definition worker_step (worker_id : nat) (ws : worker_state) (sh : shared)
    : worker_state * shared :=
  match ws with
  | AtLoad =>
      (AtLoop (RedirtyLoggedCardTableEntryClosure.new (evac_failure_regions (task sh)))
              (nodes (task sh)),
       sh)
  | AtLoop cl None =>
      (Finished cl,
       {| task := record_work_item (task sh) worker_id
                    (RedirtyLoggedCardTableEntryClosure.num_dirtied cl);
          g1h := g1h sh; processed := processed sh |})
  | AtLoop cl (Some node) =>
      (* next = Atomic::cmpxchg(&_nodes, node, node->next()) *)
      if bool_decide (nodes (task sh) = Some node) then
        (Claimed cl node,
         {| task := with_nodes (task sh) (next (task sh) node);
            g1h := g1h sh; processed := processed sh |})
      else (AtLoop cl (nodes (task sh)), sh)
  | Claimed cl node =>
      match rdcqs (task sh) !! node with
      | Some buf =>
          let o := RedirtyLoggedCardTableEntryClosure.apply_to_buffer cl buf worker_id
                     (g1h sh) in
          (AtLoop (match o with Ok cl' _ => cl' | Fatal _ _ => cl end)
                  (next (task sh) node),
           {| task := task sh; g1h := final_state o;
              processed := processed sh ++ [(worker_id, node)] |})
      | None => (Claimed cl node, sh)
      end
  | Finished cl => (Finished cl, sh)
  end.

(** The destructor: [dcq.merge_bufferlists(_rdcqs); _rdcqs->verify_empty()].

    Modelled from the spec: G1DirtyCardQueueSet::merge_bufferlists and
    G1RedirtyCardsQueueSet::verify_empty are not under src/; the
    buffers of the working queue set are handed over to the shared
    dirty-card queue set, and the working queue set is checked to be
    empty. *)
Definition destroy (this : t) : G1 t :=
  modify (upd_dirty_card_queue_set (fun dcq => dcq ++ rdcqs this));;
  let this' := {| rdcqs := []; nodes := nodes this;
                  evac_failure_regions := evac_failure_regions this;
                  work_items := work_items this |} in
  assert_ (bool_decide (length (rdcqs this') = 0%nat));;
  mret this'.

End WithConfig.

(** The workers of the pool running [do_work] concurrently: any worker
    that has not finished takes its next atomic action. *)
Record par_state := {
  sh : shared;
  workers : list worker_state;    (** by worker id *)
}.

Definition is_finished (ws : worker_state) : bool :=
  match ws with Finished _ => true | _ => false end.

Inductive par_step `{VMConfig} : par_state -> par_state -> Prop :=
| par_step_worker (st : par_state) (w : nat) (ws ws' : worker_state) (sh' : shared) :
    workers st !! w = Some ws ->
    is_finished ws = false ->
    worker_step w ws (sh st) = (ws', sh') ->
    par_step st {| sh := sh'; workers := <[w := ws']> (workers st) |}.

Inductive par_steps `{VMConfig} : par_state -> par_state -> Prop :=
| par_steps_refl st : par_steps st st
| par_steps_step st1 st2 st3 : par_step st1 st2 -> par_steps st2 st3 -> par_steps st1 st3.

(** The state in which the batch dispatches the subtask to [n] workers. *)
Definition par_init (this : t) (h : G1CollectedHeap) (n : nat) : par_state :=
  {| sh := {| task := this; g1h := h; processed := [] |};
     workers := replicate n AtLoad |}.

Definition all_finished (st : par_state) : bool :=
  forallb is_finished (workers st).

(** A scheduler's choice carried out: worker [w] takes its next action
    (nothing happens when it has finished or does not exist). *)
Definition par_step_fn `{VMConfig} (w : nat) (st : par_state) : par_state :=
  match workers st !! w with
  | Some ws =>
      if is_finished ws then st
      else let '(ws', sh') := worker_step w ws (sh st) in
           {| sh := sh'; workers := <[w := ws']> (workers st) |}
  | None => st
  end.

Definition run_schedule `{VMConfig} (schedule : list nat) (st : par_state) : par_state :=
  foldl (fun st w => par_step_fn w st) st schedule.

End RedirtyLoggedCardsTask.

(** ** The two batches *)

(** [G1ParScanThreadStateSet]: what the constructors take from it. *)
Record G1ParScanThreadStateSet := {
  pss_rdcqs : list BufferNode;            (** [rdcqs()] *)
  pss_surviving_young_words : list Z;     (** [surviving_young_words()] *)
  pss_preserved_marks_num : nat;          (** [preserved_marks_set()->num()] *)
}.

(** The subtasks, one constructor per [G1AbstractSubTask] subclass the two
    batches instantiate. *)
Inductive G1AbstractSubTask : Type :=
| MergePssTask
| RecalculateUsedTask (evacuation_failed : bool)
| SampleCollectionSetCandidatesTask
| CleanupAfterScanHeapRootsTask
| RestoreRetainedRegionsTask (evac_failure_regions : G1EvacFailureRegions)
| UpdateDerivedPointersTask
| EagerlyReclaimHumongousObjects (t : EagerlyReclaimHumongousObjectsTask.t)
| RestorePreservedMarksTask (preserved_marks_num : nat)
| ClearRetainedRegionBitmaps (evac_failure_regions : G1EvacFailureRegions)
| RedirtyLoggedCards (t : RedirtyLoggedCardsTask.t)
| ResizeTLABsTask
| FreeCollectionSet (t : FreeCollectionSetTask.t).

(** [G1GCPhaseTimes::GCParPhases] tags the subtasks are built with. *)
Inductive GCParPhases : Type :=
| MergePSS | RecalculateUsed | SampleCollectionSetCandidates | CleanupAfterScanHeapRoots
| RestoreRetainedRegions | UpdateDerivedPointers | EagerlyReclaimHumongousObjectsPhase
| RestorePreservedMarks | ClearRetainedRegionBitmapsPhase | RedirtyCards
| ResizeThreadLABs | FreeCollectionSetPhase.

#[global] Instance GCParPhases_eq_dec : EqDecision GCParPhases.
Proof. solve_decision. Defined.

Definition phase (task : G1AbstractSubTask) : GCParPhases :=
  match task with
  | MergePssTask => MergePSS
  | RecalculateUsedTask _ => RecalculateUsed
  | SampleCollectionSetCandidatesTask => SampleCollectionSetCandidates
  | CleanupAfterScanHeapRootsTask => CleanupAfterScanHeapRoots
  | RestoreRetainedRegionsTask _ => RestoreRetainedRegions
  | UpdateDerivedPointersTask => UpdateDerivedPointers
  | EagerlyReclaimHumongousObjects _ => EagerlyReclaimHumongousObjectsPhase
  | RestorePreservedMarksTask _ => RestorePreservedMarks
  | ClearRetainedRegionBitmaps _ => ClearRetainedRegionBitmapsPhase
  | RedirtyLoggedCards _ => RedirtyCards
  | ResizeTLABsTask => ResizeThreadLABs
  | FreeCollectionSet _ => FreeCollectionSetPhase
  end.

Module G1BatchedTask.

Record t := {
  serial_tasks : list G1AbstractSubTask;
  parallel_tasks : list G1AbstractSubTask;
}.

Definition new : t := {| serial_tasks := []; parallel_tasks := [] |}.

(** Modelled from the spec: G1BatchedTask is not under src/.
    [add_serial] appends to a strictly ordered serial list;
    [add_parallel] adds to the set of parallel subtasks. *)
Definition add_serial_task (this : t) (task : G1AbstractSubTask) : t :=
  {| serial_tasks := serial_tasks this ++ [task]; parallel_tasks := parallel_tasks this |}.

Definition add_parallel_task (this : t) (task : G1AbstractSubTask) : t :=
  {| serial_tasks := serial_tasks this; parallel_tasks := parallel_tasks this ++ [task] |}.

(** Modelled from the spec: the run executes every serial subtask, in
    registration order, on a single thread; each subtask's work function
    is invoked with worker index 0.  The calls [do_work(worker)] made for
    the serial subtasks, in order: *)
Definition serial_do_work_calls (this : t) : list (G1AbstractSubTask * nat) :=
  map (fun task => (task, 0%nat)) (serial_tasks this).

Definition has_phase (p : GCParPhases) (l : list G1AbstractSubTask) : bool :=
  existsb (fun task => bool_decide (phase task = p)) l.

End G1BatchedTask.

Module G1PostEvacuateCollectionSetCleanupTask1.

Section WithConfig.
Context `{VMConfig}.

(** The constructor; the batch it builds. *)
Definition new (per_thread_states : G1ParScanThreadStateSet)
    (evac_failure_regions : G1EvacFailureRegions) : G1 G1BatchedTask.t :=
  let evacuation_failed := evacuation_failed evac_failure_regions in
  let b := G1BatchedTask.new in
  let b := G1BatchedTask.add_serial_task b MergePssTask in
  let b := G1BatchedTask.add_serial_task b (RecalculateUsedTask evacuation_failed) in
  should_execute ← gets should_sample_collection_set_candidates;
  let b := if should_execute : bool
           then G1BatchedTask.add_serial_task b SampleCollectionSetCandidatesTask
           else b in
  let b := G1BatchedTask.add_parallel_task b CleanupAfterScanHeapRootsTask in
  let b := if evacuation_failed
           then G1BatchedTask.add_parallel_task b
                  (RestoreRetainedRegionsTask evac_failure_regions)
           else b in
  mret b.

End WithConfig.

End G1PostEvacuateCollectionSetCleanupTask1.

Module ClearRetainedRegionBitmapsTask.

Section WithConfig.
Context `{VMConfig}.

(** The constructor of [ClearRetainedRegionBitmaps]. *)
Definition new (evac_failure_regions : G1EvacFailureRegions) : G1 G1AbstractSubTask :=
  concurrent_start ← gets in_concurrent_start_gc;
  assert_ (negb concurrent_start);;
  mret (ClearRetainedRegionBitmaps evac_failure_regions).

End WithConfig.

End ClearRetainedRegionBitmapsTask.

Module G1PostEvacuateCollectionSetCleanupTask2.

Section WithConfig.
Context `{VMConfig}.

(** The constructor; the batch it builds. *)
Definition new (per_thread_states : G1ParScanThreadStateSet)
    (evac_failure_regions : G1EvacFailureRegions) : G1 G1BatchedTask.t :=
  let b := G1BatchedTask.new in
  let b := if COMPILER2_OR_JVMCI
           then G1BatchedTask.add_serial_task b UpdateDerivedPointersTask
           else b in
  has_candidates ← gets has_humongous_reclaim_candidates;
  let b := if has_candidates : bool
           then G1BatchedTask.add_serial_task b
                  (EagerlyReclaimHumongousObjects EagerlyReclaimHumongousObjectsTask.new)
           else b in
  b ← (if evacuation_failed evac_failure_regions then
         let b := G1BatchedTask.add_parallel_task b
                    (RestorePreservedMarksTask (pss_preserved_marks_num per_thread_states)) in
         concurrent_start ← gets in_concurrent_start_gc;
         if negb concurrent_start : bool then
           task ← ClearRetainedRegionBitmapsTask.new evac_failure_regions;
           mret (G1BatchedTask.add_parallel_task b task)
         else mret b
       else mret b);
  let b := G1BatchedTask.add_parallel_task b
             (RedirtyLoggedCards
                (RedirtyLoggedCardsTask.new (pss_rdcqs per_thread_states)
                   evac_failure_regions)) in
  let b := if UseTLAB && ResizeTLAB
           then G1BatchedTask.add_parallel_task b ResizeTLABsTask
           else b in
  task ← FreeCollectionSetTask.new (pss_surviving_young_words per_thread_states)
           evac_failure_regions;
  mret (G1BatchedTask.add_parallel_task b (FreeCollectionSet task)).

End WithConfig.

End G1PostEvacuateCollectionSetCleanupTask2.

(** ** Concrete configurations and heaps used by the examples *)

(** A 64-bit debug build with 4096-word (32 KiB) regions and 512-byte cards. *)
Definition cfg_debug : VMConfig :=
  {| ASSERT := true; COMPILER2_OR_JVMCI := true; UseTLAB := true; ResizeTLAB := true;
     HeapWordSize := 8; GrainWords := 4096; GrainBytes := 32768;
     dirty_card_val := 0;
     addr_for := fun card => Z.of_nat card * 512;
     heap_region_containing := fun addr => Z.to_nat (addr `div` 32768) |}.

(** The same, as a product build: [assert] compiled out. *)
Definition cfg_product : VMConfig :=
  {| ASSERT := false; COMPILER2_OR_JVMCI := true; UseTLAB := true; ResizeTLAB := true;
     HeapWordSize := 8; GrainWords := 4096; GrainBytes := 32768;
     dirty_card_val := 0;
     addr_for := fun card => Z.of_nat card * 512;
     heap_region_containing := fun addr => Z.to_nat (addr `div` 32768) |}.

Definition mk_region (ty : HeapRegionType) (used live rs : Z) (young_idx : nat)
    (obj : ObjKind) (set : option RegionSetName) : HeapRegion :=
  {| hr_type := ty; hr_used := used; hr_live_bytes := live; hr_rem_set_occupied := rs;
     hr_young_index_in_cset := young_idx; hr_bottom_obj := obj;
     hr_containing_set := set |}.

Definition policy0 : G1Policy :=
  {| old_gen_allocated_bytes_since_last_gc := 0; recorded_rs_length := 0;
     cset_regions_freed_calls := 0; surviving_words_recorded := [] |}.

Definition evac_info0 : G1EvacInfo :=
  {| ei_regions_freed := 0; ei_collection_set_used_before := 0;
     ei_collection_set_used_after := 0 |}.

(** Scenario A: the collection set is region 1 (Eden, evacuated, 4096 bytes
    used) and region 2 (Eden, failed evacuation, 1024 live bytes); region 0
    is an old region outside the collection set. *)
Definition heapA : G1CollectedHeap :=
  {| regions := {[ 0%nat := mk_region OldTag 2048 2048 0 0 Instance (Some OldSetName);
                   1%nat := mk_region EdenTag 4096 0 5 1 Instance None;
                   2%nat := mk_region EdenTag 4096 1024 7 2 Instance None ]};
     collection_set := [1%nat; 2%nat];
     cset_young_region_length := 2;
     eden := {[ 1%nat; 2%nat ]};
     old_set := {[ 0%nat ]};
     master_free_list := ∅;
     OldSets_lock_held := false;
     humongous_reclaim_candidates := ∅;
     in_concurrent_start_gc := false;
     should_sample_collection_set_candidates := false;
     cm_mark_bitmap := ∅;
     cm_eagerly_reclaimed := [];
     summary_bytes_used := 10240;
     old_failure_used_words := 0;
     old_failure_waste_words := 0;
     humongous_set_length := 0;
     policy := policy0;
     evacuation_info := evac_info0;
     card_table := ∅;
     dirty_card_queue_set := [] |}.

Definition efrA : G1EvacFailureRegions := {| regions_failed_evacuation := {[ 2%nat ]} |}.

Definition pssA : G1ParScanThreadStateSet :=
  {| pss_rdcqs := []; pss_surviving_young_words := [0; 100; 200];
     pss_preserved_marks_num := 1 |}.

(** ** Vocabulary of the statements *)

(** A region is retained by this pause (it will not be freed by the
    FreeCollectionSet phase): it is outside the collection set, or it is
    in it and failed evacuation. *)
Definition retained (efr : G1EvacFailureRegions) (h : G1CollectedHeap) (hr : nat) : Prop :=
  hr ∉ collection_set h
  \/ (hr ∈ collection_set h /\ hr ∈ regions_failed_evacuation efr).

#[global] Instance retained_dec efr h hr : Decision (retained efr h hr).
Proof. unfold retained. apply _. Defined.

(** The cards of a buffer that lie in retained regions. *)
Definition dirtied_cards `{VMConfig} (efr : G1EvacFailureRegions) (h : G1CollectedHeap)
    (cards : list nat) : list nat :=
  filter (fun c => retained efr h (RedirtyLoggedCardTableEntryClosure.region_for_card c))
         cards.

(** Scenario C on the heap of scenario A: cards 3 and 130 lie in regions 0
    and 2 (retained), card 70 in region 1 (evacuated, to be freed). *)
Definition bufferC : BufferNode := {| logged_cards := [3; 70; 130]%nat |}.

(** *** The collection-set freeing pass *)

(** What visiting a region adds to a worker's statistics: its remembered-set
    occupancy, ... *)
Definition rs_stats (hr : HeapRegion) : FreeCSetStats.t :=
  {| FreeCSetStats.before_used_bytes := 0;
     FreeCSetStats.after_used_bytes := 0;
     FreeCSetStats.bytes_allocated_in_old_since_last_gc := 0;
     FreeCSetStats.failure_used_words := 0;
     FreeCSetStats.failure_waste_words := 0;
     FreeCSetStats.rs_length := hr_rem_set_occupied hr;
     FreeCSetStats.regions_freed := 0 |}.

(** ... the accounting of a region that failed evacuation, ... *)
Definition failed_stats `{VMConfig} (hr : HeapRegion) : FreeCSetStats.t :=
  let used_words := hr_live_bytes hr `div` HeapWordSize in
  {| FreeCSetStats.before_used_bytes := 0;
     FreeCSetStats.after_used_bytes := hr_used hr;
     FreeCSetStats.bytes_allocated_in_old_since_last_gc :=
       (if is_young hr then GrainBytes else 0);
     FreeCSetStats.failure_used_words := used_words;
     FreeCSetStats.failure_waste_words := wrap_size_t (GrainWords - used_words);
     FreeCSetStats.rs_length := 0;
     FreeCSetStats.regions_freed := 0 |}.

(** ... or the accounting of an evacuated region. *)
Definition evacuated_stats (hr : HeapRegion) : FreeCSetStats.t :=
  {| FreeCSetStats.before_used_bytes := hr_used hr;
     FreeCSetStats.after_used_bytes := 0;
     FreeCSetStats.bytes_allocated_in_old_since_last_gc := 0;
     FreeCSetStats.failure_used_words := 0;
     FreeCSetStats.failure_waste_words := 0;
     FreeCSetStats.rs_length := 0;
     FreeCSetStats.regions_freed := 1 |}.

(** What one collection-set region adds to the statistics of the worker that
    visits it. *)
Definition region_stats `{VMConfig} (efr : G1EvacFailureRegions) (r : nat) (hr : HeapRegion)
    : FreeCSetStats.t :=
  FreeCSetStats.merge_stats (rs_stats hr)
    (if contains efr r then failed_stats hr else evacuated_stats hr).

(** Statistics whose counters are in the range of their C++ types. *)
Definition stats_wf (st : FreeCSetStats.t) : Prop :=
  FreeCSetStats.merge_stats st FreeCSetStats.new = st.

(** A region kept as an old region, member of the old set. *)
Definition retain_as_old (hr : HeapRegion) : HeapRegion :=
    {| hr_type := OldTag; hr_used := hr_used hr; hr_live_bytes := hr_live_bytes hr;
       hr_rem_set_occupied := hr_rem_set_occupied hr;
       hr_young_index_in_cset := 0%nat;
       hr_bottom_obj := hr_bottom_obj hr;
       hr_containing_set := Some OldSetName |}.

(** What a collection-set region is after its visit. *)
Definition region_after (efr : G1EvacFailureRegions) (r : nat) (hr : HeapRegion) : HeapRegion :=
  if contains efr r then retain_as_old hr else hr_clear hr.

(** A collection-set region as the pause hands it to the freeing pass: it
    exists, is a member, is off the free list, is not empty when it was
    evacuated, and a young region has its slot in [surviving_young_words]. *)
Record cset_region_ok (syw : list Z) (efr : G1EvacFailureRegions)
    (h : G1CollectedHeap) (r : nat) (hr : HeapRegion) : Prop := {
  ok_region : regions h !! r = Some hr;
  ok_in_cset : r ∈ collection_set h;
  ok_young_index : is_young hr = true ->
     hr_young_index_in_cset hr <> 0%nat
     /\ (hr_young_index_in_cset hr <= cset_young_region_length h)%nat
     /\ is_Some (syw !! hr_young_index_in_cset hr);
  ok_used : r ∉ regions_failed_evacuation efr -> 0 < hr_used hr;
  ok_not_free : r ∉ master_free_list h;
}.

(** The heap after the visit of region [r], against the heap before. *)
Record region_visited (efr : G1EvacFailureRegions) (r : nat) (hr : HeapRegion)
    (h h' : G1CollectedHeap) : Prop := {
  rv_regions : regions h' = <[r := region_after efr r hr]> (regions h);
  rv_old_set : old_set h' = if contains efr r then {[r]} ∪ old_set h else old_set h;
  rv_collection_set : collection_set h' = collection_set h;
  rv_young_length : cset_young_region_length h' = cset_young_region_length h;
  rv_master_free_list : master_free_list h' = master_free_list h;
  rv_eden : eden h' = eden h;
  rv_summary_bytes_used : summary_bytes_used h' = summary_bytes_used h;
  rv_evacuation_info : evacuation_info h' = evacuation_info h;
  rv_old_failure_used_words : old_failure_used_words h' = old_failure_used_words h;
  rv_old_failure_waste_words : old_failure_waste_words h' = old_failure_waste_words h;
  rv_policy_allocated :
    old_gen_allocated_bytes_since_last_gc (policy h')
    = old_gen_allocated_bytes_since_last_gc (policy h);
  rv_policy_rs_length : recorded_rs_length (policy h') = recorded_rs_length (policy h);
  rv_policy_freed_calls :
    cset_regions_freed_calls (policy h') = cset_regions_freed_calls (policy h);
}.

(** The statistics the regions [rs] add up to, classified one by one. *)
Definition cset_stats `{VMConfig} (efr : G1EvacFailureRegions) (h : G1CollectedHeap)
    (rs : list nat) : FreeCSetStats.t :=
  foldr (fun r acc =>
           match regions h !! r with
           | Some hr => FreeCSetStats.merge_stats (region_stats efr r hr) acc
           | None => acc
           end) FreeCSetStats.new rs.

(** The heap after the regions [rs] were visited, against the heap before. *)
Record pass_visited (efr : G1EvacFailureRegions) (rs : list nat)
    (h h' : G1CollectedHeap) : Prop := {
  pv_regions_in : forall r, r ∈ rs -> regions h' !! r = region_after efr r <$> regions h !! r;
  pv_regions_out : forall r, r ∉ rs -> regions h' !! r = regions h !! r;
  pv_old_set : forall r,
    r ∈ old_set h' <-> r ∈ old_set h \/ (r ∈ rs /\ contains efr r = true);
  pv_collection_set : collection_set h' = collection_set h;
  pv_young_length : cset_young_region_length h' = cset_young_region_length h;
  pv_master_free_list : master_free_list h' = master_free_list h;
  pv_eden : eden h' = eden h;
  pv_summary_bytes_used : summary_bytes_used h' = summary_bytes_used h;
  pv_evacuation_info : evacuation_info h' = evacuation_info h;
  pv_old_failure_used_words : old_failure_used_words h' = old_failure_used_words h;
  pv_old_failure_waste_words : old_failure_waste_words h' = old_failure_waste_words h;
  pv_policy_allocated :
    old_gen_allocated_bytes_since_last_gc (policy h')
    = old_gen_allocated_bytes_since_last_gc (policy h);
  pv_policy_rs_length : recorded_rs_length (policy h') = recorded_rs_length (policy h);
  pv_policy_freed_calls :
    cset_regions_freed_calls (policy h') = cset_regions_freed_calls (policy h);
}.

(** The heap once [handle_failed_region] or [handle_evacuated_region] is done. *)
Definition heap_after_region (efr : G1EvacFailureRegions) (r : nat) (hr : HeapRegion)
    (h : G1CollectedHeap) : G1CollectedHeap :=
  if contains efr r then
    upd_OldSets_lock_held (fun _ => false)
      (upd_old_set (fun s => {[r]} ∪ s)
         (upd_regions (fun _ => <[r := retain_as_old hr]> (regions h)) h))
  else upd_region hr_clear r h.

(** The result of the merge loop of [report_statistics]. *)
Definition total_stats (ws : list FreeCSetStats.t) : FreeCSetStats.t :=
  foldl FreeCSetStats.merge_stats FreeCSetStats.new ws.

(** A schedule the claimer can produce: no region twice, every worker has
    its slot, every region is as [cset_region_ok] wants it. *)
Definition schedule_ok (this : FreeCollectionSetTask.t) (h : G1CollectedHeap)
    (schedule : list (nat * nat)) : Prop :=
  NoDup (schedule.*2)
  /\ Forall (fun step =>
       (step.1 < length (FreeCollectionSetTask.worker_stats this))%nat
       /\ exists hr, cset_region_ok (FreeCollectionSetTask.surviving_young_words this)
                       (FreeCollectionSetTask.evac_failure_regions this)
                       h step.2 hr) schedule.

(** What teardown writes into the heap-wide counters, given the merged
    statistics. *)
Record reported (total : FreeCSetStats.t) (h h' : G1CollectedHeap) : Prop := {
  rp_regions_freed : ei_regions_freed (evacuation_info h') = FreeCSetStats.regions_freed total;
  rp_used_before :
    ei_collection_set_used_before (evacuation_info h')
    = wrap_size_t (FreeCSetStats.before_used_bytes total + FreeCSetStats.after_used_bytes total);
  rp_used_after :
    ei_collection_set_used_after (evacuation_info h')
    = wrap_size_t (ei_collection_set_used_after (evacuation_info h)
                   + FreeCSetStats.after_used_bytes total);
  rp_summary_bytes_used :
    summary_bytes_used h'
    = wrap_size_t (summary_bytes_used h - FreeCSetStats.before_used_bytes total);
  rp_failure_used :
    old_failure_used_words h'
    = wrap_size_t (old_failure_used_words h + FreeCSetStats.failure_used_words total);
  rp_failure_waste :
    old_failure_waste_words h'
    = wrap_size_t (old_failure_waste_words h + FreeCSetStats.failure_waste_words total);
  rp_allocated :
    old_gen_allocated_bytes_since_last_gc (policy h')
    = wrap_size_t (old_gen_allocated_bytes_since_last_gc (policy h)
                   + FreeCSetStats.bytes_allocated_in_old_since_last_gc total);
  rp_rs_length : recorded_rs_length (policy h') = FreeCSetStats.rs_length total;
  rp_freed_calls : cset_regions_freed_calls (policy h') = S (cset_regions_freed_calls (policy h));
  rp_collection_set : collection_set h' = [];
  rp_eden : eden h' = eden h;
  rp_regions : regions h' = regions h;
  rp_old_set : old_set h' = old_set h;
  rp_master_free_list : master_free_list h' = master_free_list h;
}.

(** The merged statistics the subtask would report after [schedule]. *)
Definition merged_after `{VMConfig} (syw : list Z) (efr : G1EvacFailureRegions)
    (max_workers : nat) (schedule : list (nat * nat)) : G1 FreeCSetStats.t :=
  task ← FreeCollectionSetTask.new syw efr;
  task ← FreeCollectionSetTask.par_do_work
           (FreeCollectionSetTask.set_max_workers task max_workers) schedule;
  FreeCollectionSetTask.merged_stats task.

(** The serial replay: one worker visits the collection set in its order. *)
Definition serial_schedule (h : G1CollectedHeap) : list (nat * nat) :=
  map (fun r => (0%nat, r)) (collection_set h).

(** The sum of the figure [f] over those of the regions [rs] that the
    heap has. *)
Definition sum_over_regions (f : nat -> HeapRegion -> Z) (h : G1CollectedHeap)
    (rs : list nat) : Z :=
  foldr (fun r acc =>
           match regions h !! r with
           | Some hr => f r hr + acc
           | None => acc
           end) 0 rs.

(** The statistics of the regions [rs] counter by counter, without any
    merge: every counter is the sum, in the width of its C++ type, of
    what the regions contribute to it.  An evacuated region contributes
    its used bytes to the before-used bytes and 1 to the regions freed; a
    region that failed evacuation contributes its used bytes to the
    after-used bytes, a region's size to the bytes allocated in old when
    it is young, its live words to the failure-used words and the rest of
    the region to the failure-waste words; every region contributes the
    occupancy of its remembered set. *)
Definition classified_sums `{VMConfig} (efr : G1EvacFailureRegions) (h : G1CollectedHeap)
    (rs : list nat) : FreeCSetStats.t :=
  let failed r := contains efr r in
  let used_words hr := hr_live_bytes hr `div` HeapWordSize in
  {| FreeCSetStats.before_used_bytes :=
       wrap_size_t (sum_over_regions (fun r hr => if failed r then 0 else hr_used hr) h rs);
     FreeCSetStats.after_used_bytes :=
       wrap_size_t (sum_over_regions (fun r hr => if failed r then hr_used hr else 0) h rs);
     FreeCSetStats.bytes_allocated_in_old_since_last_gc :=
       wrap_size_t (sum_over_regions
                      (fun r hr => if failed r && is_young hr then GrainBytes else 0) h rs);
     FreeCSetStats.failure_used_words :=
       wrap_size_t (sum_over_regions (fun r hr => if failed r then used_words hr else 0) h rs);
     FreeCSetStats.failure_waste_words :=
       wrap_size_t (sum_over_regions
                      (fun r hr => if failed r then GrainWords - used_words hr else 0) h rs);
     FreeCSetStats.rs_length :=
       wrap_size_t (sum_over_regions (fun r hr => hr_rem_set_occupied hr) h rs);
     FreeCSetStats.regions_freed :=
       wrap_uint (sum_over_regions (fun r hr => if failed r then 0 else 1) h rs) |}.

(** The sum of a counter over the workers' slots. *)
Definition sum_of (counter : FreeCSetStats.t -> Z) (ws : list FreeCSetStats.t) : Z :=
  foldr Z.add 0 (counter <$> ws).

(** The pointwise sum of the workers' statistics: every counter is the sum
    of the workers' counters, in the width of its C++ type. *)
Definition pointwise_sum (ws : list FreeCSetStats.t) : FreeCSetStats.t :=
  {| FreeCSetStats.before_used_bytes := wrap_size_t (sum_of FreeCSetStats.before_used_bytes ws);
     FreeCSetStats.after_used_bytes := wrap_size_t (sum_of FreeCSetStats.after_used_bytes ws);
     FreeCSetStats.bytes_allocated_in_old_since_last_gc :=
       wrap_size_t (sum_of FreeCSetStats.bytes_allocated_in_old_since_last_gc ws);
     FreeCSetStats.failure_used_words :=
       wrap_size_t (sum_of FreeCSetStats.failure_used_words ws);
     FreeCSetStats.failure_waste_words :=
       wrap_size_t (sum_of FreeCSetStats.failure_waste_words ws);
     FreeCSetStats.rs_length := wrap_size_t (sum_of FreeCSetStats.rs_length ws);
     FreeCSetStats.regions_freed := wrap_uint (sum_of FreeCSetStats.regions_freed ws) |}.

(** The serial classification: one closure, with statistics of its own
    that start at zero, visits the whole collection set in its order; the
    result is what the closure has accounted, and nothing is merged. *)
Definition serial_classification `{VMConfig} (syw : list Z) (efr : G1EvacFailureRegions)
    : G1 FreeCSetStats.t :=
  FreeCollectionSetTask.new syw efr;;
  cset ← gets collection_set;
  cl ← FreeCollectionSetTask.collection_set_par_iterate_all
         (FreeCSetClosure.new syw 0 FreeCSetStats.new efr) cset;
  mret (FreeCSetClosure.stats cl).

(** The collection set as the freeing pass expects it, and a schedule of
    [max_workers] workers that partitions it. *)
Record cset_ready (syw : list Z) (efr : G1EvacFailureRegions) (max_workers : nat)
    (schedule : list (nat * nat)) (h : G1CollectedHeap) : Prop := {
  cr_partition : schedule.*2 ≡ₚ collection_set h;
  cr_nodup : NoDup (collection_set h);
  cr_workers : Forall (fun step => (step.1 < max_workers)%nat) schedule;
  cr_regions : Forall (fun r => exists hr, cset_region_ok syw efr h r hr) (collection_set h);
}.

(** A region whose memory was freed. *)
Definition is_freed (h : G1CollectedHeap) (r : nat) : Prop :=
  exists hr, regions h !! r = Some hr /\ hr_type hr = FreeTag.

(** The heap-wide counters teardown reports into. *)
Definition reporting_targets (h : G1CollectedHeap) : G1EvacInfo * Z * Z * Z * Z * Z * nat :=
  (evacuation_info h, summary_bytes_used h, old_failure_used_words h,
   old_failure_waste_words h, old_gen_allocated_bytes_since_last_gc (policy h),
   recorded_rs_length (policy h), cset_regions_freed_calls (policy h)).

(** A region is on the master free list or in the old set, not both and
    not neither. *)
Definition free_list_xor_old_set (h : G1CollectedHeap) (r : nat) : Prop :=
  (r ∈ master_free_list h /\ (r ∉ old_set h))
  \/ ((r ∉ master_free_list h) /\ r ∈ old_set h).

(** Scenario A with two workers: worker 0 frees region 1, worker 1 handles
    region 2. *)
Definition scheduleA : list (nat * nat) := [(0, 1); (1, 2)]%nat.


(** The statistics of scenario A: region 1 was evacuated (4096 bytes used,
    1 region freed), region 2 failed (4096 bytes used, a young region of
    32768 bytes, 128 live words and 3968 wasted); the remembered sets hold
    5 and 7 entries. *)
Definition totalA : FreeCSetStats.t :=
  {| FreeCSetStats.before_used_bytes := 4096;
     FreeCSetStats.after_used_bytes := 4096;
     FreeCSetStats.bytes_allocated_in_old_since_last_gc := 32768;
     FreeCSetStats.failure_used_words := 128;
     FreeCSetStats.failure_waste_words := 3968;
     FreeCSetStats.rs_length := 12;
     FreeCSetStats.regions_freed := 1 |}.

(** *** Humongous reclamation *)

(** A humongous region after its reclamation: freed, in no region set. *)
Definition reclaimed_region (hr : HeapRegion) : HeapRegion :=
  {| hr_type := FreeTag; hr_used := 0; hr_live_bytes := 0;
     hr_rem_set_occupied := 0; hr_young_index_in_cset := 0%nat;
     hr_bottom_obj := hr_bottom_obj hr;
     hr_containing_set := None |}.

(** The bytes used in the regions [rs]. *)
Definition used_bytes_of (h : G1CollectedHeap) (rs : list nat) : Z :=
  foldr (fun r acc => match regions h !! r with
                      | Some hr => hr_used hr + acc
                      | None => acc
                      end) 0 rs.

(** The heap after the regions [rs] of a humongous object were freed,
    against the heap before. *)
Record humongous_reclaimed (rs : list nat) (h h' : G1CollectedHeap) : Prop := {
  hrc_regions_in : forall r, r ∈ rs -> regions h' !! r = reclaimed_region <$> regions h !! r;
  hrc_regions_out : forall r, r ∉ rs -> regions h' !! r = regions h !! r;
  hrc_candidates : humongous_reclaim_candidates h' = humongous_reclaim_candidates h;
  hrc_master_free_list : master_free_list h' = master_free_list h;
  hrc_mark_bitmap : cm_mark_bitmap h' = cm_mark_bitmap h;
  hrc_summary_bytes_used : summary_bytes_used h' = summary_bytes_used h;
}.

(** Scenario B: a type-array object spanning regions 3 and 4, and an
    object-array object in region 6; [candidates] are the flagged ones. *)
Definition heapB_with (candidates : gset nat) : G1CollectedHeap :=
  {| regions := {[ 3%nat := mk_region StartsHumongousTag 32768 0 0 0 TypeArray
                              (Some HumongousSetName);
                   4%nat := mk_region ContinuesHumongousTag 1000 0 0 0 TypeArray
                              (Some HumongousSetName);
                   6%nat := mk_region StartsHumongousTag 20000 0 3 0 ObjArray
                              (Some HumongousSetName) ]};
     collection_set := [];
     cset_young_region_length := 0;
     eden := ∅;
     old_set := ∅;
     master_free_list := ∅;
     OldSets_lock_held := false;
     humongous_reclaim_candidates := candidates;
     in_concurrent_start_gc := false;
     should_sample_collection_set_candidates := false;
     cm_mark_bitmap := ∅;
     cm_eagerly_reclaimed := [];
     summary_bytes_used := 53768;
     old_failure_used_words := 0;
     old_failure_waste_words := 0;
     humongous_set_length := 3;
     policy := policy0;
     evacuation_info := evac_info0;
     card_table := ∅;
     dirty_card_queue_set := [] |}.

Definition heapB : G1CollectedHeap := heapB_with {[ 3%nat ]}.

(** The same with the object array of region 6 flagged as well. *)
Definition heapB_bad : G1CollectedHeap := heapB_with {[ 3%nat; 6%nat ]}.

(** Two flagged type arrays: the object of regions 3 and 4, and a type
    array in region 6. *)
Definition heapB_two : G1CollectedHeap :=
  upd_regions
    (fun rs => <[6%nat := mk_region StartsHumongousTag 20000 0 3 0 TypeArray
                            (Some HumongousSetName)]> rs)
    (heapB_with {[ 3%nat; 6%nat ]}).

(** *** The batches *)

(** Every subtask of a batch. *)
Definition all_tasks (b : G1BatchedTask.t) : list G1AbstractSubTask :=
  G1BatchedTask.serial_tasks b ++ G1BatchedTask.parallel_tasks b.

(** The [do_work] calls the serial phase makes for subtasks of phase [p]. *)
Definition serial_calls_of (p : GCParPhases) (b : G1BatchedTask.t)
    : list (G1AbstractSubTask * nat) :=
  filter (fun call => phase call.1 = p) (G1BatchedTask.serial_do_work_calls b).

(** *** Draining the redirty buffers *)

Section RedirtyVocabulary.
Import RedirtyLoggedCardsTask.

(** The position the shared head [_nodes] stands at; the end of the chain
    for [nullptr]. *)
Definition head_pos (this : RedirtyLoggedCardsTask.t) : nat :=
  match nodes this with
  | Some k => k
  | None => length (rdcqs this)
  end.

(** The node a worker has claimed and not yet processed. *)
Definition held_node (ws : worker_state) : option nat :=
  match ws with
  | Claimed _ node => Some node
  | _ => None
  end.

(** Every node claimed so far: processed, or held by its claimer. *)
Definition claimed_nodes (st : par_state) : list nat :=
  (processed (sh st)).*2 ++ omap held_node (workers st).

(** What holds in every state the workers can reach from the start, for
    the chain [bufs] the task was built with: the chain is as it was; the
    head points into it; the nodes claimed so far are those before the
    head, each once; a worker's [next] points into the chain; a worker
    that saw [nullptr] saw the end of the chain. *)
Record redirty_inv (bufs : list BufferNode) (st : par_state) : Prop := {
  ri_rdcqs : rdcqs (task (sh st)) = bufs;
  ri_head : forall k, nodes (task (sh st)) = Some k -> (k < length bufs)%nat;
  ri_claimed : claimed_nodes st ≡ₚ seq 0 (head_pos (task (sh st)));
  ri_loop : forall w cl j,
    workers st !! w = Some (AtLoop cl (Some j)) -> (j < length bufs)%nat;
  ri_none : forall w cl,
    workers st !! w = Some (AtLoop cl None) \/ workers st !! w = Some (Finished cl) ->
    nodes (task (sh st)) = None;
  ri_workers : Forall (fun e => (e.1 < length (workers st))%nat) (processed (sh st));
}.

(** A bound on the actions a worker takes before the head moves again. *)
Definition remaining_cost (head : node_ptr) (ws : worker_state) : nat :=
  match ws with
  | AtLoad => 2
  | AtLoop _ None => 1
  | AtLoop _ (Some j) => if bool_decide (head = Some j) then 1 else 2
  | Claimed _ _ => 3
  | Finished _ => 0
  end.

(** A number that every action of every worker decreases. *)
Definition redirty_measure (st : par_state) : nat :=
  (length (rdcqs (task (sh st))) - head_pos (task (sh st))) * (length (workers st) + 2)
  + sum_list_with (remaining_cost (nodes (task (sh st)))) (workers st).

End RedirtyVocabulary.

(** Two buffers for two workers, on the heap of scenario A. *)
Definition bufferD : BufferNode := {| logged_cards := [5; 64]%nat |}.

Definition redirty_start : RedirtyLoggedCardsTask.par_state :=
  RedirtyLoggedCardsTask.par_init
    (RedirtyLoggedCardsTask.new [bufferC; bufferD] efrA) heapA 2.

(** An interleaving of the two workers that runs both to the end, and the
    state it ends in. *)
Definition redirty_schedule : list nat := [0; 1; 1; 0; 1; 0; 0; 1; 1; 0; 0; 1]%nat.

Definition redirty_final : RedirtyLoggedCardsTask.par_state :=
  RedirtyLoggedCardsTask.run_schedule (H := cfg_debug) redirty_schedule redirty_start.

(** *** The result of the redirty drain *)

Section RedirtyResultVocabulary.
Import RedirtyLoggedCardsTask.
Context `{VMConfig}.

(** Every card logged in the chain of buffers, in chain order. *)
Definition all_logged_cards (bufs : list BufferNode) : list nat :=
  mjoin (logged_cards <$> bufs).

(** The cards of retained regions logged in node [j] of the chain. *)
Definition node_dirtied (efr : G1EvacFailureRegions) (h : G1CollectedHeap)
    (bufs : list BufferNode) (j : nat) : list nat :=
  match bufs !! j with
  | Some buf => dirtied_cards efr h (logged_cards buf)
  | None => []
  end.

(** The cards of retained regions in the buffers processed so far. *)
Definition processed_dirtied (efr : G1EvacFailureRegions) (h : G1CollectedHeap)
    (bufs : list BufferNode) (done : list (nat * nat)) : list nat :=
  mjoin ((fun e => node_dirtied efr h bufs e.2) <$> done).

(** How many log entries worker [w] has dirtied so far. *)
Definition worker_dirtied (efr : G1EvacFailureRegions) (h : G1CollectedHeap)
    (bufs : list BufferNode) (done : list (nat * nat)) (w : nat) : nat :=
  sum_list_with (fun e => if bool_decide (e.1 = w)
                          then length (node_dirtied efr h bufs e.2) else 0%nat) done.

(** The closure a worker carries, once it has one. *)
Definition worker_closure (ws : worker_state)
    : option RedirtyLoggedCardTableEntryClosure.t :=
  match ws with
  | AtLoad => None
  | AtLoop cl _ | Claimed cl _ | Finished cl => Some cl
  end.

(** What the drain has done to the heap and to the workers' counters in
    every state reachable from the start on heap [h]: only the card table
    differs from [h], and there exactly the retained cards of the processed
    buffers are dirty; a worker's closure counts the entries that worker
    dirtied; a finished worker has recorded its count. *)
Record redirty_result_inv (bufs : list BufferNode) (efr : G1EvacFailureRegions)
    (h : G1CollectedHeap) (st : par_state) : Prop := {
  rr_efr : evac_failure_regions (task (sh st)) = efr;
  rr_frame : g1h (sh st) = upd_card_table (fun _ => card_table (g1h (sh st))) h;
  rr_cards : forall c,
    card_table (g1h (sh st)) !! c
    = if bool_decide (c ∈ processed_dirtied efr h bufs (processed (sh st)))
      then Some dirty_card_val else card_table h !! c;
  rr_fresh : forall w, workers st !! w = Some AtLoad ->
    worker_dirtied efr h bufs (processed (sh st)) w = 0%nat;
  rr_closure : forall w ws cl,
    workers st !! w = Some ws -> worker_closure ws = Some cl ->
    RedirtyLoggedCardTableEntryClosure.evac_failure_regions cl = efr
    /\ RedirtyLoggedCardTableEntryClosure.num_dirtied cl
       = wrap_size_t (Z.of_nat (worker_dirtied efr h bufs (processed (sh st)) w));
  rr_items : forall w cl, workers st !! w = Some (Finished cl) ->
    work_items (task (sh st)) !! w
    = Some (RedirtyLoggedCardTableEntryClosure.num_dirtied cl);
}.

End RedirtyResultVocabulary.

(** *** The assertions of the freeing pass *)

(** The conditions the assertions of [FreeCSetClosure::do_heap_region] and
    of the functions it calls test on region [r]. *)
Definition free_cset_checks (h : G1CollectedHeap) (efr : G1EvacFailureRegions)
    (r : nat) (hr : HeapRegion) : Prop :=
  r ∈ collection_set h
  /\ (is_young hr = true ->
      hr_young_index_in_cset hr <> 0%nat
      /\ (hr_young_index_in_cset hr <= cset_young_region_length h)%nat)
  /\ (r ∉ regions_failed_evacuation efr -> 0 < hr_used hr)
  /\ r ∉ master_free_list h.

(** *** The slots of the workers *)

(** The regions worker [w] visits in a schedule, in the order of its visits. *)
Definition claimed_by (w : nat) (schedule : list (nat * nat)) : list nat :=
  (filter (fun step => step.1 = w) schedule).*2.

(** *** The humongous scan *)


(** The flagged start regions in the order the heap-region scan meets
    them, and the regions their objects span. *)
Definition reclaim_order (h : G1CollectedHeap) : list nat :=
  filter (fun i => i ∈ humongous_reclaim_candidates h) (region_indices h).

Definition spans_of (h : G1CollectedHeap) (starts : list nat) : list nat :=
  mjoin (humongous_obj_regions h <$> starts).

Definition candidate_regions (h : G1CollectedHeap) : list nat :=
  spans_of h (reclaim_order h).

(** A flagged region as the pause leaves it to the scan: the start region
    of a humongous type array. *)
Definition reclaimable_object (h : G1CollectedHeap) (c : nat) : Prop :=
  exists hr, regions h !! c = Some hr
             /\ hr_type hr = StartsHumongousTag /\ hr_bottom_obj hr = TypeArray.

(** The heap [hk] in the middle of the scan of heap [h], when the objects
    starting in [reclaimed] have been reclaimed. *)
Record scan_inv (h hk : G1CollectedHeap) (reclaimed : list nat) : Prop := {
  si_frame :
    hk = upd_regions (fun _ => regions hk)
           (upd_cm_eagerly_reclaimed (fun _ => cm_eagerly_reclaimed hk) h);
  si_in : forall r, r ∈ spans_of h reclaimed ->
    regions hk !! r = reclaimed_region <$> regions h !! r;
  si_out : forall r, r ∉ spans_of h reclaimed -> regions hk !! r = regions h !! r;
  si_notified : cm_eagerly_reclaimed hk = cm_eagerly_reclaimed h ++ reclaimed;
}.

(** Region [j] continues a humongous object. *)
Definition continues_in (h : G1CollectedHeap) (j : nat) : Prop :=
  exists hr, regions h !! j = Some hr /\ is_continues_humongous hr = true.

(** * The attach library's natives on macOS: a shallow embedding of
      src/jdk.attach/macosx/native/libattach/VirtualMachineImpl.c

    Each native is a computation over the calls it makes on the outside
    world (system calls, JNI functions), recorded in order in a trace.
    What a system call returns is an input: an oracle for the calls made
    once, a script of results for the calls made in a loop. *)

(** C [int] and [jint]: 32 bits, two's complement. *)
Definition wrap_jint (z : Z) : Z := (z + 2 ^ 31) mod 2 ^ 32 - 2 ^ 31.

(** Constants of the system headers the file includes (Darwin). *)
Definition ROOT_UID : Z := 0.
Definition ENOENT : Z := 2.
Definition EIO : Z := 5.
Definition SIGQUIT : Z := 3.
Definition sigmask (m : Z) : Z := Z.shiftl 1 (m - 1).
Definition S_IRGRP : Z := 32.   (* 0040 *)
Definition S_IWGRP : Z := 16.   (* 0020 *)
Definition S_IROTH : Z := 4.    (* 0004 *)
Definition S_IWOTH : Z := 2.    (* 0002 *)
Definition S_IRUSR : Z := 256.  (* 0400 *)
Definition S_IWUSR : Z := 128.  (* 0200 *)
Definition O_CREAT : Z := 512.  (* 0x0200 *)
Definition O_EXCL : Z := 2048.  (* 0x0800 *)
Definition SHUT_RDWR : Z := 2.
(** [sizeof(addr.sun_path)] of [struct sockaddr_un]. *)
Definition sun_path_size : nat := 104.

(** A C string: its bytes before the terminating NUL. *)
Definition cstring : Type := list byte.

Inductive syscall_name : Type :=
| sys_socket | sys_sysctl | sys_kill | sys_read | sys_write | sys_open.

(** Why [checkPermissions] finds a file insecure: the arguments of the
    three message formats. *)
Inductive insecure : Type :=
| WrongOwner (uid st_uid : Z)
| WrongGroup (gid st_gid : Z)
| GroupOrOtherAccess (access : Z).

(** The text of an [IOException], by the format that builds it. *)
Inductive io_message : Type :=
| StrError (errno : Z)                        (* strdup(strerror(err)) *)
| NotSecure (p : cstring) (why : insecure)    (* "well-known file %s is not secure: %s" *)
| MustSpecifyPath.                            (* "Must specify a path" *)

Inductive Throwable : Type :=
| IOExceptionWithLastError (name : syscall_name)
| IOException (msg : io_message)
| FileNotFoundException
| AttachNotSupportedException (pid : Z)
| ArrayIndexOutOfBoundsException.

(** The calls a native makes on the outside world. *)
Inductive event : Type :=
| Socket
| Connect (fd : Z) (sun_path : cstring)
| Sysctl (pid : Z)
| Kill (pid sig : Z)
| Stat (p : cstring)
| Shutdown (fd how : Z)
| Close (fd : Z)
| Read (fd len : Z)
| Write (fd : Z) (buf : list byte)
| Open (p : cstring) (flags mode : Z)
| Chown (p : cstring) (uid gid : Z)
| ReleaseStringPlatformChars
| Throw (t : Throwable).

(** The exceptions thrown, in order. *)
Definition thrown (tr : list event) : list Throwable :=
  omap (fun e => match e with Throw t => Some t | _ => None end) tr.

(** What the coming system calls of one kind return, with the calls made so
    far and the bytes the socket has accepted so far.  Past the end of the
    script a call fails with [EIO]. *)
Record World (R : Type) := {
  script : list R;
  trace : list event;
  sent : list byte;
}.
Arguments script {R} w.
Arguments trace {R} w.
Arguments sent {R} w.

Definition emit {R} (e : event) : M (World R) unit :=
  modify (fun w => {| script := script w; trace := trace w ++ [e]; sent := sent w |}).

(** [JNU_ThrowIOException], [JNU_ThrowByName] and the like. *)
Definition JNU_Throw {R} (t : Throwable) : M (World R) unit := emit (Throw t).

(** A result that is [-1] with [errno == EINTR], and the failure past the
    end of the script. *)
Class SysResult (R : Type) := {
  is_EINTR : R -> bool;
  failed_EIO : R;
  failed_EIO_not_EINTR : is_EINTR failed_EIO = false;
}.

(** [RESTARTABLE(_cmd, _result)]: the call is made again for as long as it
    is interrupted. *)
Fixpoint RESTARTABLE_from {R} `{SysResult R} (call : event) (pending : list R)
    (tr : list event) : R * (list R * list event) :=
  match pending with
  | [] => (failed_EIO, ([], tr ++ [call]))
  | r :: rest =>
      if is_EINTR r then RESTARTABLE_from call rest (tr ++ [call])
      else (r, (rest, tr ++ [call]))
  end.

Definition RESTARTABLE {R} `{SysResult R} (call : event) : M (World R) R :=
  fun w =>
    let '(r, (rest, tr)) := RESTARTABLE_from call (script w) (trace w) in
    Ok r {| script := rest; trace := tr; sent := sent w |}.

(** The results of [open], [chown] and the like. *)
Inductive int_result : Type :=
| IntInterrupted
| IntFailed (errno : Z)
| IntReturned (n : Z).

#[global] Instance int_result_sys : SysResult int_result :=
  {| is_EINTR := fun r => match r with IntInterrupted => true | _ => false end;
     failed_EIO := IntFailed EIO; failed_EIO_not_EINTR := eq_refl |}.

(** The results of [read]: the data that is there to be read ([[]] at end
    of file). *)
Inductive read_result : Type :=
| ReadInterrupted
| ReadFailed (errno : Z)
| ReadData (data : list byte).

#[global] Instance read_result_sys : SysResult read_result :=
  {| is_EINTR := fun r => match r with ReadInterrupted => true | _ => false end;
     failed_EIO := ReadFailed EIO; failed_EIO_not_EINTR := eq_refl |}.

(** The results of [write]: how many bytes the socket takes now. *)
Inductive write_result : Type :=
| WriteInterrupted
| WriteFailed (errno : Z)
| WriteAccepts (n : nat).

#[global] Instance write_result_sys : SysResult write_result :=
  {| is_EINTR := fun r => match r with WriteInterrupted => true | _ => false end;
     failed_EIO := WriteFailed EIO; failed_EIO_not_EINTR := eq_refl |}.

(** JNI [GetByteArrayRegion]: the region, or an
    [ArrayIndexOutOfBoundsException] and a buffer left as it was. *)
Definition GetByteArrayRegion {R} (ba : list byte) (off len : Z) (buf : list byte)
    : M (World R) (list byte) :=
  if (0 <=? off) && (0 <=? len) && (off + len <=? Z.of_nat (length ba)) then
    mret (take (Z.to_nat len) (drop (Z.to_nat off) ba) ++ drop (Z.to_nat len) buf)
  else JNU_Throw ArrayIndexOutOfBoundsException;; mret buf.

(** JNI [SetByteArrayRegion]: the array with the region replaced, or an
    [ArrayIndexOutOfBoundsException] and the array left as it was. *)
Definition SetByteArrayRegion {R} (ba : list byte) (off len : Z) (buf : list byte)
    : M (World R) (list byte) :=
  if (0 <=? off) && (0 <=? len) && (off + len <=? Z.of_nat (length ba)) then
    mret (take (Z.to_nat off) ba ++ take (Z.to_nat len) buf
          ++ drop (Z.to_nat (off + len)) ba)
  else JNU_Throw ArrayIndexOutOfBoundsException;; mret ba.

(** [struct kinfo_proc]: the two signal masks the file reads. *)
Record kinfo_proc := {
  p_sigignore : Z;
  p_sigcatch : Z;
}.

(** [struct stat]: the fields the file reads. *)
Record stat_t := {
  st_uid : Z;
  st_gid : Z;
  st_mode : Z;
}.

(** What [stat] does: its return value, [errno], and the buffer (zeroed by
    the caller beforehand). *)
Record stat_result := {
  stat_ret : Z;
  stat_errno : Z;
  stat_sb : stat_t;
}.

Module Java_sun_tools_attach_VirtualMachineImpl.

Section Natives.
Context {R : Type} `{SysResult R}.

(** [socket]; [os_socket] is what [socket(PF_UNIX, SOCK_STREAM, 0)] returns. *)
Definition socket (os_socket : Z) : M (World R) Z :=
  emit Socket;;
  let fd := os_socket in
  (if fd =? -1 then JNU_Throw (IOExceptionWithLastError sys_socket) else mret tt);;
  mret fd.

(** [connect]; [p] and [isCopy] are what [GetStringPlatformChars] gives,
    [os_connect] is [errno] after a [connect] that returns [-1]. *)
Definition connect (os_connect : Z -> cstring -> option Z) (fd : Z)
    (p : option cstring) (isCopy : bool) : M (World R) unit :=
  match p with
  | Some p =>
      (* memset(&addr, 0, sizeof(addr)); strncpy(addr.sun_path, p, sizeof(addr.sun_path) - 1) *)
      let sun_path := take (sun_path_size - 1) p in
      emit (Connect fd sun_path);;
      let err := match os_connect fd sun_path with Some errno => errno | None => 0 end in
      (if isCopy then emit ReleaseStringPlatformChars else mret tt);;
      if negb (err =? 0) then
        if err =? ENOENT then JNU_Throw FileNotFoundException
        else JNU_Throw (IOException (StrError err))
      else mret tt
  | None => mret tt
  end.

(** [checkCatchesAndSendQuitTo]; [os_sysctl] is the process record when
    [sysctl] returns 0, [os_kill] what [kill] returns. *)
Definition checkCatchesAndSendQuitTo (os_sysctl : Z -> option kinfo_proc)
    (os_kill : Z -> Z -> Z) (pid : Z) (throwIfNotReady : bool) : M (World R) bool :=
  emit (Sysctl pid);;
  match os_sysctl pid with
  | Some kiproc =>
      let ignored := negb (Z.land (p_sigignore kiproc) (sigmask SIGQUIT) =? 0) in
      let caught := negb (Z.land (p_sigcatch kiproc) (sigmask SIGQUIT) =? 0) in
      if caught && negb ignored then
        emit (Kill pid SIGQUIT);;
        if negb (os_kill pid SIGQUIT =? 0) then
          JNU_Throw (IOExceptionWithLastError sys_kill);;
          mret false
        else mret true
      else if throwIfNotReady then
        JNU_Throw (AttachNotSupportedException pid);;
        mret false
      else mret false
  | None =>
      JNU_Throw (IOExceptionWithLastError sys_sysctl);;
      mret false
  end.

(** [checkPermissions]; [geteuid], [getegid] and [os_stat] are what the
    calls of these names give. *)
Definition checkPermissions (geteuid getegid : Z) (os_stat : cstring -> stat_result)
    (p : option cstring) (isCopy : bool) : M (World R) unit :=
  match p with
  | Some p =>
      let uid := geteuid in
      let gid := getegid in
      emit (Stat p);;
      let sb := stat_sb (os_stat p) in
      let res := stat_ret (os_stat p) in
      let res := if negb (res =? 0) then stat_errno (os_stat p) else res in
      (if res =? 0 then
         let isError :=
           if negb (st_uid sb =? uid) && negb (uid =? ROOT_UID) then
             Some (WrongOwner uid (st_uid sb))
           else if negb (st_gid sb =? gid) && negb (uid =? ROOT_UID) then
             Some (WrongGroup gid (st_gid sb))
           else if negb (Z.land (st_mode sb)
                           (Z.lor (Z.lor (Z.lor S_IRGRP S_IWGRP) S_IROTH) S_IWOTH) =? 0) then
             Some (GroupOrOtherAccess (Z.land (st_mode sb) 511 (* 0777 *)))
           else None in
         match isError with
         | Some why => JNU_Throw (IOException (NotSecure p why))
         | None => mret tt
         end
       else JNU_Throw (IOException (StrError res)));;
      (if isCopy then emit ReleaseStringPlatformChars else mret tt)
  | None => mret tt
  end.

(** [close]. *)
Definition close (fd : Z) : M (World R) unit :=
  emit (Shutdown fd SHUT_RDWR);;
  emit (Close fd).

End Natives.

(** [read]; returns the [jint] and the Java array. *)
Definition read (fd : Z) (ba : list byte) (off baLen : Z)
    : M (World read_result) (Z * list byte) :=
  let len := 128 in   (* sizeof(buf) *)
  let remaining := wrap_size_t (wrap_jint (baLen - off)) in
  let len := if remaining <? len then remaining else len in
  r ← RESTARTABLE (Read fd len);
  match r with
  | ReadData data =>
      (* what the kernel copies into [buf], and its count [n] *)
      let buf := take (Z.to_nat len) data in
      let n := Z.of_nat (length buf) in
      if n =? 0 then mret (-1, ba)   (* EOF *)
      else
        ba ← SetByteArrayRegion ba off (wrap_jint n) buf;
        mret (wrap_jint n, ba)
  | _ =>
      (* n == -1 *)
      JNU_Throw (IOExceptionWithLastError sys_read);;
      mret (-1, ba)
  end.

(** One [write] under [RESTARTABLE]: the socket takes the first [n] bytes
    offered. *)
Definition write_restartable (fd : Z) (buf : list byte) : M (World write_result) Z :=
  r ← RESTARTABLE (Write fd buf);
  match r with
  | WriteAccepts n =>
      let n := take n buf in
      modify (fun w => {| script := script w; trace := trace w; sent := sent w ++ n |});;
      mret (Z.of_nat (length n))
  | _ => mret (-1)
  end.

(** The [do ... while (remaining > 0)] loop of [write]; [uninit] is what
    the uninitialised [buf] holds.  Every round takes a result off the
    script or ends the loop, so [fuel] beyond the length of the script is
    never used up. *)
Fixpoint write_loop (uninit : list byte) (fuel : nat) (fd : Z) (ba : list byte)
    (off remaining : Z) : M (World write_result) unit :=
  match fuel with
  | O => mret tt
  | S fuel =>
      let len := 128 in   (* sizeof(buf) *)
      let len := if remaining <? len then remaining else len in
      buf ← GetByteArrayRegion ba off len uninit;
      n ← write_restartable fd (take (Z.to_nat len) buf);
      if 0 <? n then
        let off := wrap_jint (off + n) in
        let remaining := wrap_size_t (remaining - n) in
        if 0 <? remaining then write_loop uninit fuel fd ba off remaining
        else mret tt
      else
        JNU_Throw (IOExceptionWithLastError sys_write)
  end.

(** [write]. *)
Definition write (uninit : list byte) (fd : Z) (ba : list byte) (off bufLen : Z)
    : M (World write_result) unit :=
  fun w => write_loop uninit (S (length (script w))) fd ba off (wrap_size_t bufLen) w.

(** [createAttachFile0]. *)
Definition createAttachFile0 (geteuid getegid : Z) (path : option cstring)
    (isCopy : bool) : M (World int_result) unit :=
  match path with
  | None => JNU_Throw (IOException MustSpecifyPath)
  | Some _path =>
      r ← RESTARTABLE (Open _path (Z.lor O_CREAT O_EXCL) (Z.lor S_IWUSR S_IRUSR));
      let fd := match r with IntReturned n => n | _ => -1 end in
      if fd =? -1 then
        (if isCopy then emit ReleaseStringPlatformChars else mret tt);;
        JNU_Throw (IOExceptionWithLastError sys_open)
      else
        rc ← RESTARTABLE (Chown _path geteuid getegid);
        emit (Close fd);;
        (if isCopy then emit ReleaseStringPlatformChars else mret tt)
  end.

End Java_sun_tools_attach_VirtualMachineImpl.

(** ** Vocabulary of the statements about the natives *)

(** The file may be used: the caller is root or owns it and shares its
    group, and neither the group nor the others may read or write it (mode
    bits 5, 4, 2 and 1). *)
Definition permitted (uid gid : Z) (sb : stat_t) : Prop :=
  (uid = ROOT_UID \/ (st_uid sb = uid /\ st_gid sb = gid))
  /\ Forall (fun i => Z.testbit (st_mode sb) i = false) [5; 4; 2; 1].

(** The process has a handler for [SIGQUIT] (bit 2 of the masks) and does
    not ignore it. *)
Definition catches_quit (k : kinfo_proc) : Prop :=
  Z.testbit (p_sigcatch k) 2 = true /\ Z.testbit (p_sigignore k) 2 = false.

(** What a restartable call returns on a script: its first result that is
    not an interruption. *)
Fixpoint first_result {R} `{SysResult R} (pending : list R) : R :=
  match pending with
  | [] => failed_EIO
  | r :: rest => if is_EINTR r then first_result rest else r
  end.

(** How many times the platform string was released. *)
Definition releases (tr : list event) : nat :=
  length (omap (fun e => match e with
                         | ReleaseStringPlatformChars => Some tt
                         | _ => None
                         end) tr).

(** The descriptors closed, in order. *)
Definition closed (tr : list event) : list Z :=
  omap (fun e => match e with Close fd => Some fd | _ => None end) tr.

(** The descriptor [open] gave, if it gave one. *)
Definition opened (r : int_result) : option Z :=
  match r with
  | IntReturned fd => if fd =? -1 then None else Some fd
  | _ => None
  end.

(** What happens after the first exception is thrown. *)
Fixpoint after_throw (tr : list event) : list event :=
  match tr with
  | [] => []
  | Throw _ :: rest => rest
  | _ :: rest => after_throw rest
  end.

(** A trace of [write] calls on [fd], each offering at most 128 bytes,
    possibly ended by exceptions. *)
Definition write_call (fd : Z) (e : event) : Prop :=
  match e with
  | Write fd' buf => fd' = fd /\ (length buf <= 128)%nat
  | Throw _ => True
  | _ => False
  end.

(** How often a native that took the platform string [p] has to release
    it: once when [GetStringPlatformChars] made a copy. *)
Definition releases_due (p : option cstring) (isCopy : bool) : nat :=
  match p with
  | Some _ => if isCopy then 1 else 0
  | None => 0
  end.

(** * Verification *)

(** ** The monad: stepping through a computation *)

(** A closed decidable fact, by evaluation. *)
Ltac by_compute := apply (bool_decide_unpack _); vm_compute; exact I.

Ltac unfold_monad :=
  unfold mbind, M_bind, mret, M_ret, gets, modify, fatal, guarantee, assert_, deref in *.

Lemma bind_Ok {St A B} (c : M St A) (k : A -> M St B) s a s' :
  c s = Ok a s' -> (c ≫= k) s = k a s'.
Proof. intros Hc. unfold mbind, M_bind. by rewrite Hc. Qed.

Lemma bind_Fatal {St A B} (c : M St A) (k : A -> M St B) s why s' :
  c s = Fatal why s' -> (c ≫= k) s = Fatal why s'.
Proof. intros Hc. unfold mbind, M_bind. by rewrite Hc. Qed.

Lemma region_at_Some r h hr : regions h !! r = Some hr -> region_at r h = Ok hr h.
Proof. intros Hr. unfold region_at. by rewrite Hr. Qed.

Lemma region_at_None r h : regions h !! r = None -> region_at r h = Fatal InvalidAccess h.
Proof. intros Hr. unfold region_at. by rewrite Hr. Qed.

Lemma assert_true `{VMConfig} {St} (s : St) : assert_ true s = Ok tt s.
Proof. unfold assert_. by rewrite andb_false_r. Qed.

(** ** Machine arithmetic *)

Lemma wrap_size_t_add_l a b : wrap_size_t (wrap_size_t a + b) = wrap_size_t (a + b).
Proof. unfold wrap_size_t. by rewrite Zplus_mod_idemp_l. Qed.

Lemma wrap_size_t_add_r a b : wrap_size_t (a + wrap_size_t b) = wrap_size_t (a + b).
Proof. unfold wrap_size_t. by rewrite Zplus_mod_idemp_r. Qed.

Lemma wrap_uint_add_l a b : wrap_uint (wrap_uint a + b) = wrap_uint (a + b).
Proof. unfold wrap_uint. by rewrite Zplus_mod_idemp_l. Qed.

Lemma wrap_uint_add_r a b : wrap_uint (a + wrap_uint b) = wrap_uint (a + b).
Proof. unfold wrap_uint. by rewrite Zplus_mod_idemp_r. Qed.

Lemma wrap_size_t_small a : 0 <= a < 2 ^ 64 -> wrap_size_t a = a.
Proof. intros Ha. unfold wrap_size_t, size_t_bits. by apply Z.mod_small. Qed.

Lemma wrap_uint_small a : 0 <= a < 2 ^ 32 -> wrap_uint a = a.
Proof. intros Ha. unfold wrap_uint, uint_bits. by apply Z.mod_small. Qed.

(** ** FreeCSetStats: accounting (C3) *)

Section FailedRegionAccounting.
Context `{VMConfig}.

(** C3.  Accounting a failed region [r] changes the worker's statistics by
    exactly: failure-used-words grows by live bytes / HeapWordSize;
    failure-waste-words grows by GrainWords minus that word count;
    after-used bytes grows by the region's used bytes;
    bytes-allocated-in-old grows by GrainBytes iff the region is young;
    the other counters and the heap are untouched (size_t arithmetic).
    With 8-byte words and no earlier failure, 1024 live bytes give 128
    used words and GrainWords - 128 waste words. *)
Theorem account_failed_region_exact (st : FreeCSetStats.t) (r : nat)
    (h : G1CollectedHeap) (hr : HeapRegion) :
  regions h !! r = Some hr ->
  let used_words := hr_live_bytes hr `div` HeapWordSize in
  exists st',
    FreeCSetStats.account_failed_region st r h = Ok st' h
    /\ FreeCSetStats.failure_used_words st'
       = wrap_size_t (FreeCSetStats.failure_used_words st + used_words)
    /\ FreeCSetStats.failure_waste_words st'
       = wrap_size_t (FreeCSetStats.failure_waste_words st + (GrainWords - used_words))
    /\ FreeCSetStats.after_used_bytes st'
       = wrap_size_t (FreeCSetStats.after_used_bytes st + hr_used hr)
    /\ FreeCSetStats.bytes_allocated_in_old_since_last_gc st'
       = (if is_young hr
          then wrap_size_t (FreeCSetStats.bytes_allocated_in_old_since_last_gc st + GrainBytes)
          else FreeCSetStats.bytes_allocated_in_old_since_last_gc st)
    /\ FreeCSetStats.before_used_bytes st' = FreeCSetStats.before_used_bytes st
    /\ FreeCSetStats.rs_length st' = FreeCSetStats.rs_length st
    /\ FreeCSetStats.regions_freed st' = FreeCSetStats.regions_freed st
    /\ (HeapWordSize = 8 -> hr_live_bytes hr = 1024 -> 128 <= GrainWords < 2 ^ 64 ->
        FreeCSetStats.failure_used_words st = 0 ->
        FreeCSetStats.failure_waste_words st = 0 ->
        FreeCSetStats.failure_used_words st' = 128
        /\ FreeCSetStats.failure_waste_words st' = GrainWords - 128).
Proof.
  intros Hr used_words. eexists. split.
  - unfold FreeCSetStats.account_failed_region.
    rewrite (bind_Ok _ _ _ _ _ (region_at_Some _ _ _ Hr)). reflexivity.
  - cbn. rewrite wrap_size_t_add_r.
    do 7 (split; [reflexivity |]).
    intros Hw Hl HG Hu Hf. subst used_words. rewrite Hu, Hf, Hw, Hl.
    change (1024 `div` 8) with 128. split; [reflexivity |].
    apply wrap_size_t_small. lia.
Qed.

End FailedRegionAccounting.

(** Scenario A's failed region: 1024 live bytes of a 4096-word region. *)
Lemma account_failed_region_exact_witness :
  regions heapA !! 2%nat = Some (mk_region EdenTag 4096 1024 7 2 Instance None)
  /\ exists st',
      FreeCSetStats.account_failed_region (H := cfg_debug) FreeCSetStats.new 2 heapA
        = Ok st' heapA
      /\ FreeCSetStats.failure_used_words st' = 128
      /\ FreeCSetStats.failure_waste_words st' = 4096 - 128.
Proof.
  assert (Hr : regions heapA !! 2%nat = Some (mk_region EdenTag 4096 1024 7 2 Instance None))
    by (vm_compute; reflexivity).
  split; [exact Hr |].
  destruct (account_failed_region_exact (H := cfg_debug) FreeCSetStats.new 2 heapA _ Hr)
    as (st' & Hrun & _ & _ & _ & _ & _ & _ & _ & Hscen).
  exists st'. split; [exact Hrun |].
  apply Hscen; [reflexivity | reflexivity | cbn; lia | reflexivity | reflexivity].
Defined.

(** ** Card redirtying (C2) *)

Section Redirty.
Context `{VMConfig}.
Import RedirtyLoggedCardTableEntryClosure.

Lemma will_become_free_retained cl h hr :
  will_become_free cl h hr = false <-> retained (evac_failure_regions cl) h hr.
Proof.
  unfold will_become_free, retained, is_in_cset, contains.
  do 2 case_bool_decide; cbn; split; intros Hx; try done; tauto.
Qed.

Lemma wrap_size_t_succ_ne n : wrap_size_t (n + 1) <> n.
Proof.
  unfold wrap_size_t, size_t_bits. intros Heq.
  pose proof (Z.mod_pos_bound (n + 1) (2 ^ 64) ltac:(lia)) as Hb.
  rewrite Heq in Hb.
  destruct (decide (n + 1 < 2 ^ 64)) as [Hlt | Hge].
  - rewrite Z.mod_small in Heq by lia. lia.
  - assert (n + 1 = 2 ^ 64) as Hn by lia.
    rewrite Hn, Z.mod_same in Heq by lia. lia.
Qed.

(** The card is dirtied and counted when its region is retained... *)
Lemma do_card_ptr_retained cl card_ptr worker_id h :
  retained (evac_failure_regions cl) h (region_for_card card_ptr) ->
  do_card_ptr cl card_ptr worker_id h
  = Ok {| num_dirtied := wrap_size_t (num_dirtied cl + 1);
          evac_failure_regions := evac_failure_regions cl |}
       (upd_card_table (fun ct => <[card_ptr := dirty_card_val]> ct) h).
Proof.
  intros Hret. apply will_become_free_retained in Hret.
  unfold do_card_ptr. unfold_monad. by rewrite Hret.
Qed.

(** ... and dropped without a write otherwise. *)
Lemma do_card_ptr_dropped cl card_ptr worker_id h :
  ~ retained (evac_failure_regions cl) h (region_for_card card_ptr) ->
  do_card_ptr cl card_ptr worker_id h = Ok cl h.
Proof.
  intros Hret. unfold do_card_ptr. unfold_monad.
  destruct (will_become_free cl h (region_for_card card_ptr)) eqn:Hw; [done |].
  by apply will_become_free_retained in Hw.
Qed.

Lemma dirtied_cards_stable efr h h' cards :
  collection_set h' = collection_set h ->
  dirtied_cards efr h' cards = dirtied_cards efr h cards.
Proof.
  intros Hc. unfold dirtied_cards. apply list_filter_iff.
  intros c. unfold retained. by rewrite Hc.
Qed.

Lemma dirtied_cards_cons efr h c cards :
  dirtied_cards efr h (c :: cards)
  = if decide (retained efr h (region_for_card c))
    then c :: dirtied_cards efr h cards
    else dirtied_cards efr h cards.
Proof. reflexivity. Qed.

Lemma apply_to_buffer_counts cl node worker_id h :
  0 <= num_dirtied cl < 2 ^ 64 ->
  exists cl' h',
    apply_to_buffer cl node worker_id h = Ok cl' h'
    /\ num_dirtied cl'
       = wrap_size_t (num_dirtied cl
                      + Z.of_nat (length (dirtied_cards (evac_failure_regions cl) h
                                            (logged_cards node))))
    /\ evac_failure_regions cl' = evac_failure_regions cl
    /\ collection_set h' = collection_set h
    /\ (forall c, card_table h' !! c
                  = if bool_decide (c ∈ dirtied_cards (evac_failure_regions cl) h
                                          (logged_cards node))
                    then Some dirty_card_val else card_table h !! c).
Proof.
  unfold apply_to_buffer. destruct node as [cards]. cbn [logged_cards].
  revert cl h. induction cards as [| c cards IH]; intros cl h Hn.
  - exists cl, h. cbn. repeat split.
    rewrite Z.add_0_r. symmetry. by apply wrap_size_t_small.
  - cbn [foldM].
    destruct (decide (retained (evac_failure_regions cl) h (region_for_card c)))
      as [Hret | Hret].
    + rewrite (bind_Ok _ _ _ _ _ (do_card_ptr_retained cl c worker_id h Hret)).
      set (cl1 := {| num_dirtied := _ |}). set (h1 := upd_card_table _ h).
      destruct (IH cl1 h1) as (cl' & h' & Hrun & Hnum & Hefr & Hcs & Hct).
      { subst cl1. cbn. unfold wrap_size_t, size_t_bits.
        apply Z.mod_pos_bound. lia. }
      exists cl', h'. split; [exact Hrun |].
      assert (Hd : dirtied_cards (evac_failure_regions cl) h1 cards
                   = dirtied_cards (evac_failure_regions cl) h cards)
        by (by apply dirtied_cards_stable).
      subst cl1. cbn [num_dirtied evac_failure_regions] in *. rewrite Hd in Hnum, Hct.
      rewrite dirtied_cards_cons, decide_True by done.
      split; [| split; [done | split; [done |]]].
      * rewrite Hnum, wrap_size_t_add_l. f_equal. cbn [length]. lia.
      * intros c'. rewrite Hct. subst h1. cbn.
        destruct (decide (c' = c)) as [-> | Hne].
        -- rewrite lookup_insert_eq.
           rewrite (bool_decide_eq_true_2 (c ∈ c :: _)) by (apply elem_of_cons; by left).
           by destruct (bool_decide _).
        -- rewrite lookup_insert_ne by done.
           rewrite (bool_decide_ext (c' ∈ c :: _) (c' ∈ dirtied_cards
                      (evac_failure_regions cl) h cards)); [done |].
           rewrite elem_of_cons. tauto.
    + rewrite (bind_Ok _ _ _ _ _ (do_card_ptr_dropped cl c worker_id h Hret)).
      destruct (IH cl h Hn) as (cl' & h' & Hrun & Hnum & Hefr & Hcs & Hct).
      exists cl', h'. split; [exact Hrun |].
      rewrite dirtied_cards_cons, decide_False by done. done.
Qed.


(** [apply_to_buffer] never aborts. *)
Lemma apply_to_buffer_total cl node worker_id h :
  exists cl' h', apply_to_buffer cl node worker_id h = Ok cl' h'.
Proof.
  unfold apply_to_buffer. generalize (logged_cards node) as cards. intros cards.
  revert cl h. induction cards as [| c cards IH]; intros cl h; [by eexists _, _ |].
  cbn [foldM].
  destruct (decide (retained (evac_failure_regions cl) h (region_for_card c)))
    as [Hret | Hret].
  - rewrite (bind_Ok _ _ _ _ _ (do_card_ptr_retained cl c worker_id h Hret)). apply IH.
  - rewrite (bind_Ok _ _ _ _ _ (do_card_ptr_dropped cl c worker_id h Hret)). apply IH.
Qed.

(** C2.  For every logged card, [do_card_ptr] writes the dirty value to
    the card and increments [num_dirtied] if and only if the card's
    region is retained (outside the collection set, or in it and in the
    evacuation-failure set); a card of a region that will be freed is
    dropped: no write, no count.  A buffer of 3 cards, 2 of them in
    retained regions, gives [num_dirtied] = 2. *)
Theorem redirty_card_iff_region_retained (cl : t) (card_ptr worker_id : nat)
    (h : G1CollectedHeap) :
  let keep := retained (evac_failure_regions cl) h (region_for_card card_ptr) in
  (will_become_free cl h (region_for_card card_ptr) = false <-> keep)
  /\ (exists cl' h',
        do_card_ptr cl card_ptr worker_id h = Ok cl' h'
        /\ (keep ->
             h' = upd_card_table (fun ct => <[card_ptr := dirty_card_val]> ct) h
             /\ card_table h' !! card_ptr = Some dirty_card_val
             /\ num_dirtied cl' = wrap_size_t (num_dirtied cl + 1))
        /\ (~ keep -> h' = h /\ cl' = cl)
        /\ (num_dirtied cl' = wrap_size_t (num_dirtied cl + 1) <-> keep))
  /\ (forall node : BufferNode,
        length (logged_cards node) = 3%nat ->
        length (dirtied_cards (evac_failure_regions cl) h (logged_cards node)) = 2%nat ->
        exists cl' h',
          apply_to_buffer (new (evac_failure_regions cl)) node worker_id h = Ok cl' h'
          /\ num_dirtied cl' = 2).
Proof.
  intros keep. split; [apply will_become_free_retained |]. split.
  - destruct (decide keep) as [Hk | Hk].
    + eexists _, _. split; [by apply do_card_ptr_retained |].
      split; [| split].
      * intros _. split; [done |]. split; [| done].
        cbn. by rewrite lookup_insert_eq.
      * done.
      * done.
    + exists cl, h. split; [by apply do_card_ptr_dropped |].
      split; [done | split; [done |]].
      split; [| done]. intros Heq. symmetry in Heq.
      by apply wrap_size_t_succ_ne in Heq.
  - intros node _ Hcount.
    destruct (apply_to_buffer_counts (new (evac_failure_regions cl)) node worker_id h)
      as (cl' & h' & Hrun & Hnum & _); [cbn; lia |].
    exists cl', h'. split; [done |].
    rewrite Hnum. cbn [new num_dirtied evac_failure_regions]. by rewrite Hcount.
Qed.

End Redirty.

(** Scenario C, run: two cards become dirty, one is dropped. *)
Lemma redirty_card_iff_region_retained_witness :
  exists cl' h',
    RedirtyLoggedCardTableEntryClosure.apply_to_buffer (H := cfg_debug)
      (RedirtyLoggedCardTableEntryClosure.new efrA) bufferC 0 heapA = Ok cl' h'
    /\ RedirtyLoggedCardTableEntryClosure.num_dirtied cl' = 2.
Proof.
  destruct (redirty_card_iff_region_retained (H := cfg_debug)
              (RedirtyLoggedCardTableEntryClosure.new efrA) 3 0 heapA)
    as (_ & _ & Hbuf).
  apply (Hbuf bufferC); vm_compute; reflexivity.
Defined.

(** ** Freeing the collection set (C1, C4, C7) *)

Section FreeCollectionSet.
Context `{VMConfig}.
Import FreeCSetStats.

Lemma assert_holds {St} (b : bool) (s : St) : b = true -> assert_ b s = Ok tt s.
Proof. intros ->. apply assert_true. Qed.

Lemma wrap_size_t_idem a : wrap_size_t (wrap_size_t a) = wrap_size_t a.
Proof. unfold wrap_size_t. apply Z.mod_mod. unfold size_t_bits. lia. Qed.

Lemma wrap_uint_idem a : wrap_uint (wrap_uint a) = wrap_uint a.
Proof. unfold wrap_uint. apply Z.mod_mod. unfold uint_bits. lia. Qed.

Lemma merge_stats_assoc a b c :
merge_stats (merge_stats a b) c = merge_stats a (merge_stats b c).
Proof.
unfold merge_stats. cbn.
rewrite !wrap_size_t_add_l, !wrap_size_t_add_r, wrap_uint_add_l, wrap_uint_add_r.
by rewrite !Z.add_assoc.
Qed.

Lemma merge_stats_comm a b : merge_stats a b = merge_stats b a.
Proof.
unfold merge_stats. f_equal; f_equal; apply Z.add_comm.
Qed.

Lemma merge_stats_wf a b : stats_wf (merge_stats a b).
Proof.
unfold stats_wf, merge_stats. cbn. rewrite !Z.add_0_r.
by rewrite !wrap_size_t_idem, wrap_uint_idem.
Qed.

Lemma new_wf : stats_wf new.
Proof. reflexivity. Qed.

Lemma stats_wf_fields st :
stats_wf st ->
wrap_size_t (before_used_bytes st) = before_used_bytes st
/\ wrap_size_t (after_used_bytes st) = after_used_bytes st
/\ wrap_size_t (bytes_allocated_in_old_since_last_gc st) = bytes_allocated_in_old_since_last_gc st
/\ wrap_size_t (failure_used_words st) = failure_used_words st
/\ wrap_size_t (failure_waste_words st) = failure_waste_words st
/\ wrap_size_t (rs_length st) = rs_length st
/\ wrap_uint (regions_freed st) = regions_freed st.
Proof.
destruct st. unfold stats_wf, merge_stats. cbn. rewrite !Z.add_0_r.
intros [= ? ? ? ? ? ? ?]. done.
Qed.

Lemma account_rs_length_ok st r h hr :
regions h !! r = Some hr -> stats_wf st ->
account_rs_length st r h = Ok (merge_stats st (rs_stats hr)) h.
Proof.
intros Hr Hwf. unfold account_rs_length.
rewrite (bind_Ok _ _ _ _ _ (region_at_Some _ _ _ Hr)).
destruct (stats_wf_fields _ Hwf) as (H1 & H2 & H3 & H4 & H5 & H6 & H7).
unfold mret, M_ret, merge_stats, rs_stats. cbn. rewrite !Z.add_0_r.
by rewrite H1, H2, H3, H4, H5, H7.
Qed.

Lemma account_failed_region_ok st r h hr :
regions h !! r = Some hr -> stats_wf st ->
account_failed_region st r h = Ok (merge_stats st (failed_stats hr)) h.
Proof.
intros Hr Hwf. unfold account_failed_region.
rewrite (bind_Ok _ _ _ _ _ (region_at_Some _ _ _ Hr)).
destruct (stats_wf_fields _ Hwf) as (H1 & H2 & H3 & H4 & H5 & H6 & H7).
unfold mret, M_ret, merge_stats, failed_stats. cbn. rewrite !Z.add_0_r.
rewrite H1, H6, H7. destruct (is_young hr); [done |].
by rewrite Z.add_0_r, H3.
Qed.

Lemma account_evacuated_region_ok st r h hr :
regions h !! r = Some hr -> stats_wf st -> 0 < hr_used hr ->
account_evacuated_region st r h = Ok (merge_stats st (evacuated_stats hr)) h.
Proof.
intros Hr Hwf Hu. unfold account_evacuated_region.
rewrite (bind_Ok _ _ _ _ _ (region_at_Some _ _ _ Hr)).
rewrite (bind_Ok _ _ h tt h) by (apply assert_holds; by apply Z.ltb_lt).
destruct (stats_wf_fields _ Hwf) as (H1 & H2 & H3 & H4 & H5 & H6 & H7).
unfold mret, M_ret, merge_stats, evacuated_stats. cbn. rewrite !Z.add_0_r.
by rewrite H2, H3, H4, H5, H6.
Qed.

Lemma alter_lookup_insert {A} (f : A -> A) (r : nat) (m : gmap nat A) (x : A) :
m !! r = Some x -> alter f r m = <[r := f x]> m.
Proof.
intros Hx. apply map_eq. intros i. rewrite lookup_alter, lookup_insert.
case_decide; [subst; by rewrite Hx | done].
Qed.

Lemma free_region_None r h hr :
regions h !! r = Some hr ->
free_region r None h = Ok tt (upd_region hr_clear r h).
Proof.
intros Hr. unfold free_region.
rewrite (bind_Ok _ _ _ _ _ (region_at_Some _ _ _ Hr)). reflexivity.
Qed.

Lemma handle_evacuated_region_ok cl r h hr :
regions h !! r = Some hr -> stats_wf (FreeCSetClosure.stats cl) -> 0 < hr_used hr ->
FreeCSetClosure.handle_evacuated_region cl r h
= Ok (FreeCSetClosure.with_stats cl
        (merge_stats (FreeCSetClosure.stats cl) (evacuated_stats hr)))
     (upd_region hr_clear r h).
Proof.
intros Hr Hwf Hu. unfold FreeCSetClosure.handle_evacuated_region.
rewrite (bind_Ok _ _ _ _ _ (region_at_Some _ _ _ Hr)).
rewrite (bind_Ok _ _ h tt h).
2:{ apply assert_holds. unfold is_empty. apply negb_true_iff, Z.eqb_neq. lia. }
rewrite (bind_Ok _ _ _ _ _ (account_evacuated_region_ok _ _ _ _ Hr Hwf Hu)).
rewrite (bind_Ok _ _ _ _ _ (free_region_None _ _ _ Hr)).
reflexivity.
Qed.

Ltac msimpl := unfold mbind, M_bind, mret, M_ret, gets, modify; cbv beta iota.

Lemma handle_failed_region_ok cl r h hr :
regions h !! r = Some hr -> stats_wf (FreeCSetClosure.stats cl) ->
r ∈ collection_set h ->
  FreeCSetClosure.handle_failed_region cl r h
  = Ok (FreeCSetClosure.with_stats cl
          (merge_stats (FreeCSetClosure.stats cl) (failed_stats hr)))
   (upd_OldSets_lock_held (fun _ => false)
            (upd_old_set (fun s => {[r]} ∪ s)
               (upd_regions (fun _ => <[r := retain_as_old hr]> (regions h)) h))).
Proof.
intros Hr Hwf Hin.
unfold FreeCSetClosure.handle_failed_region, handle_evacuation_failure,
  OldSets_lock_acquire, OldSets_lock_release, old_set_add, set_containing_set.
msimpl.
rewrite (account_failed_region_ok _ _ _ _ Hr Hwf). cbv beta iota.
unfold is_in_cset. rewrite bool_decide_eq_true_2 by done.
rewrite assert_true. cbv beta iota.
rewrite (region_at_Some _ _ _ Hr). cbv beta iota.
cbn [OldSets_lock_held upd_OldSets_lock_held].
rewrite assert_true. cbv beta iota.
erewrite region_at_Some by (cbn; rewrite lookup_alter_eq, Hr; reflexivity).
cbv beta iota. f_equal.
unfold upd_OldSets_lock_held, upd_old_set, upd_region, upd_regions. cbn. f_equal.
rewrite (alter_lookup_insert _ _ _ _ Hr).
rewrite (alter_lookup_insert _ _ _ _ (lookup_insert_eq _ _ _)).
by rewrite insert_insert_eq.
Qed.

Lemma assert_tracks_surviving_words_ok r h hr :
regions h !! r = Some hr ->
hr_young_index_in_cset hr <> 0%nat ->
(hr_young_index_in_cset hr <= cset_young_region_length h)%nat ->
FreeCSetClosure.assert_tracks_surviving_words r h = Ok tt h.
Proof.
intros Hr Hnz Hle. unfold FreeCSetClosure.assert_tracks_surviving_words. msimpl.
rewrite (region_at_Some _ _ _ Hr). cbv beta iota.
apply assert_holds. apply andb_true_iff. split.
- by apply negb_true_iff, Nat.eqb_neq.
- by apply Nat.leb_le.
Qed.

Lemma do_heap_region_tail cl r h hr :
regions h !! r = Some hr -> r ∈ collection_set h ->
(r ∉ regions_failed_evacuation (FreeCSetClosure.evac_failure_regions cl) -> 0 < hr_used hr) ->
r ∉ master_free_list h ->
stats_wf (FreeCSetClosure.stats cl) ->
(cl' ← (if contains (FreeCSetClosure.evac_failure_regions cl) r
        then FreeCSetClosure.handle_failed_region cl r
        else FreeCSetClosure.handle_evacuated_region cl r);
 on_free_list ← gets (fun h => is_on_master_free_list h r);
 assert_ (negb on_free_list);;
 mret (cl', false)) h
= Ok (FreeCSetClosure.with_stats cl
        (merge_stats (FreeCSetClosure.stats cl)
           (if contains (FreeCSetClosure.evac_failure_regions cl) r
            then failed_stats hr else evacuated_stats hr)), false)
     (heap_after_region (FreeCSetClosure.evac_failure_regions cl) r hr h).
Proof.
intros Hr Hin Hu Hf Hwf. unfold heap_after_region.
assert (Hnf : forall h', master_free_list h' = master_free_list h ->
          assert_ (negb (is_on_master_free_list h' r)) h' = Ok tt h').
{ intros h' Hh'. apply assert_holds. unfold is_on_master_free_list.
  rewrite Hh'. by rewrite bool_decide_eq_false_2. }
unfold contains in *. case_bool_decide as Hc.
- rewrite (bind_Ok _ _ _ _ _ (handle_failed_region_ok _ _ _ _ Hr Hwf Hin)).
  erewrite bind_Ok by reflexivity.
  erewrite bind_Ok by (by apply Hnf).
  reflexivity.
- rewrite (bind_Ok _ _ _ _ _ (handle_evacuated_region_ok _ _ _ _ Hr Hwf (Hu Hc))).
  erewrite bind_Ok by reflexivity.
  erewrite bind_Ok by (by apply Hnf).
  reflexivity.
Qed.

Lemma heap_after_region_visited efr r hr h h1 :
regions h !! r = Some hr ->
h1 = h \/ (exists w, record_surv_words_in_group r w h = Ok tt h1) ->
region_visited efr r hr h (heap_after_region efr r hr h1).
Proof.
intros Hr Hh1.
assert (regions h1 = regions h /\ old_set h1 = old_set h
        /\ collection_set h1 = collection_set h
        /\ cset_young_region_length h1 = cset_young_region_length h
        /\ master_free_list h1 = master_free_list h /\ eden h1 = eden h
        /\ summary_bytes_used h1 = summary_bytes_used h
        /\ evacuation_info h1 = evacuation_info h
        /\ old_failure_used_words h1 = old_failure_used_words h
        /\ old_failure_waste_words h1 = old_failure_waste_words h
        /\ old_gen_allocated_bytes_since_last_gc (policy h1)
           = old_gen_allocated_bytes_since_last_gc (policy h)
        /\ recorded_rs_length (policy h1) = recorded_rs_length (policy h)
        /\ cset_regions_freed_calls (policy h1) = cset_regions_freed_calls (policy h))
  as (E1 & E2 & E3 & E4 & E5 & E6 & E7 & E8 & E9 & E10 & E11 & E12 & E13).
{ destruct Hh1 as [-> | [w Hw]]; [done |].
  unfold record_surv_words_in_group, modify in Hw. by injection Hw as <-. }
unfold heap_after_region.
destruct (contains efr r) eqn:Hc; constructor; unfold region_after;
  rewrite ?Hc; cbn; rewrite ?E1, ?E2; try done.
by apply alter_lookup_insert.
Qed.

Lemma do_heap_region_ok cl r h hr :
cset_region_ok (FreeCSetClosure.surviving_young_words cl)
  (FreeCSetClosure.evac_failure_regions cl) h r hr ->
stats_wf (FreeCSetClosure.stats cl) ->
exists h',
  FreeCSetClosure.do_heap_region cl r h
  = Ok (FreeCSetClosure.with_stats cl
          (merge_stats (FreeCSetClosure.stats cl)
             (region_stats (FreeCSetClosure.evac_failure_regions cl) r hr)), false) h'
  /\ region_visited (FreeCSetClosure.evac_failure_regions cl) r hr h h'.
Proof.
intros [Hr Hin Hy Hu Hf] Hwf.
unfold FreeCSetClosure.do_heap_region.
erewrite bind_Ok by reflexivity.
unfold is_in_cset at 1. rewrite bool_decide_eq_true_2 by done.
erewrite bind_Ok by apply assert_true.
rewrite (bind_Ok _ _ _ _ _ (account_rs_length_ok _ _ _ _ Hr Hwf)).
rewrite (bind_Ok _ _ _ _ _ (region_at_Some _ _ _ Hr)).
set (cl1 := FreeCSetClosure.with_stats cl _).
assert (Hstats : forall X,
          FreeCSetClosure.with_stats cl1 (merge_stats (FreeCSetClosure.stats cl1) X)
          = FreeCSetClosure.with_stats cl
              (merge_stats (FreeCSetClosure.stats cl) (merge_stats (rs_stats hr) X))).
{ intros X. subst cl1. unfold FreeCSetClosure.with_stats. cbn. by rewrite merge_stats_assoc. }
destruct (is_young hr) eqn:Hyoung.
- destruct (Hy eq_refl) as (Hnz & Hle & [w Hw]).
  erewrite (bind_Ok (_ ≫= _)).
  2:{ rewrite (bind_Ok _ _ _ _ _ (assert_tracks_surviving_words_ok _ _ _ Hr Hnz Hle)).
      subst cl1. cbn [FreeCSetClosure.surviving_young_words FreeCSetClosure.with_stats].
      rewrite Hw. cbn [deref]. erewrite bind_Ok by reflexivity. reflexivity. }
  eexists. split.
  + rewrite do_heap_region_tail with (hr := hr); try done.
    * rewrite Hstats. reflexivity.
    * subst cl1. apply merge_stats_wf.
  + apply heap_after_region_visited; [done |]. right. by exists w.
- erewrite (bind_Ok (mret tt)) by reflexivity.
  eexists. split.
  + rewrite do_heap_region_tail with (hr := hr); try done.
    * rewrite Hstats. reflexivity.
    * subst cl1. apply merge_stats_wf.
  + apply heap_after_region_visited; [done |]. by left.
Qed.

Lemma foldl_merge_stats_acc a b ws :
foldl merge_stats (merge_stats a b) ws = merge_stats (foldl merge_stats a ws) b.
Proof.
revert a. induction ws as [| s ws IH]; intros a; [done |]. cbn.
rewrite <- IH. f_equal.
rewrite !merge_stats_assoc. f_equal. apply merge_stats_comm.
Qed.

Lemma total_stats_insert ws w s d :
ws !! w = Some s ->
total_stats (<[w := merge_stats s d]> ws) = merge_stats (total_stats ws) d.
Proof.
unfold total_stats. generalize new as a.
revert w. induction ws as [| x ws IH]; intros w a Hw; [done |].
destruct w as [| w]; cbn in *.
- injection Hw as ->. rewrite <- merge_stats_assoc. apply foldl_merge_stats_acc.
- by apply IH.
Qed.

Lemma merged_stats_from this h k n acc :
(k + n <= length (FreeCollectionSetTask.worker_stats this))%nat ->
foldM (fun total worker =>
         s ← FreeCollectionSetTask.worker_stats_at this worker;
         mret (merge_stats total s)) (seq k n) acc h
= Ok (foldl merge_stats acc (take n (drop k (FreeCollectionSetTask.worker_stats this)))) h.
Proof.
revert k acc. induction n as [| n IH]; intros k acc Hlen; [done |].
cbn [seq foldM].
destruct (lookup_lt_is_Some_2 (FreeCollectionSetTask.worker_stats this) k ltac:(lia))
  as [s Hs].
erewrite bind_Ok.
2:{ unfold FreeCollectionSetTask.worker_stats_at. rewrite Hs. cbn [deref].
    erewrite bind_Ok by reflexivity. reflexivity. }
rewrite IH by lia.
rewrite (drop_S _ _ _ Hs). reflexivity.
Qed.

Lemma merged_stats_ok this h :
length (FreeCollectionSetTask.worker_stats this) = FreeCollectionSetTask.active_workers this ->
FreeCollectionSetTask.merged_stats this h
= Ok (total_stats (FreeCollectionSetTask.worker_stats this)) h.
Proof.
intros Hlen. unfold FreeCollectionSetTask.merged_stats.
rewrite merged_stats_from by (cbn; lia).
rewrite drop_0, <- Hlen, firstn_all. reflexivity.
Qed.

Import FreeCollectionSetTask.

Lemma do_work_single this w r h hr slot :
worker_stats this !! w = Some slot -> stats_wf slot ->
cset_region_ok (surviving_young_words this) (evac_failure_regions this) h r hr ->
exists h',
  do_work this w [r] h
  = Ok (with_worker_stats this
          (<[w := merge_stats slot (region_stats (evac_failure_regions this) r hr)]>
             (worker_stats this))) h'
  /\ region_visited (evac_failure_regions this) r hr h h'.
Proof.
intros Hslot Hwf Hok. unfold do_work.
erewrite bind_Ok by (unfold worker_stats_at; rewrite Hslot; reflexivity).
set (cl := FreeCSetClosure.new _ _ _ _).
destruct (do_heap_region_ok cl r h hr Hok Hwf) as (h' & Hrun & Hvis).
exists h'. split; [| exact Hvis].
erewrite bind_Ok.
2:{ cbn [collection_set_par_iterate_all]. rewrite (bind_Ok _ _ _ _ _ Hrun). reflexivity. }
reflexivity.
Qed.

Lemma pass_visited_nil efr h : pass_visited efr [] h h.
Proof.
constructor; try done.
- intros r Hr. by apply elem_of_nil in Hr.
- intros r. split; [by left |]. intros [? | [Hr _]]; [done |]. by apply elem_of_nil in Hr.
Qed.

Lemma pass_visited_cons efr r hr rs h h1 h' :
regions h !! r = Some hr -> r ∉ rs ->
region_visited efr r hr h h1 -> pass_visited efr rs h1 h' ->
pass_visited efr (r :: rs) h h'.
Proof.
intros Hr Hnin [] [].
constructor; try congruence.
- intros r' [-> | Hin]%elem_of_cons.
  + rewrite pv_regions_out0 by done. rewrite rv_regions0, lookup_insert_eq, Hr. done.
  + rewrite pv_regions_in0 by done. rewrite rv_regions0, lookup_insert_ne; [done |].
    intros ->. done.
- intros r' Hr'. apply not_elem_of_cons in Hr' as [Hne Hr'].
  rewrite pv_regions_out0 by done. rewrite rv_regions0. by rewrite lookup_insert_ne.
- intros r'. rewrite pv_old_set0, rv_old_set0, elem_of_cons.
  destruct (contains efr r) eqn:Hc.
  + rewrite elem_of_union, elem_of_singleton. split.
    * intros [[-> | ?] | [? ?]]; auto.
    * intros [? | [[-> | ?] ?]]; auto.
  + split.
    * intros [? | [? ?]]; auto.
    * intros [? | [[-> | ?] ?]]; auto. congruence.
Qed.

Lemma cset_stats_agree efr h h' rs :
(forall r, r ∈ rs -> regions h' !! r = regions h !! r) ->
cset_stats efr h' rs = cset_stats efr h rs.
Proof.
unfold cset_stats. induction rs as [| r rs IH]; intros Hag; [done |]. cbn.
rewrite Hag by (apply elem_of_cons; by left).
rewrite IH; [done |]. intros r' Hr'. apply Hag. apply elem_of_cons. by right.
Qed.

Lemma cset_region_ok_frame syw efr h h1 r r0 hr0 hr :
r <> r0 -> region_visited efr r0 hr0 h h1 ->
cset_region_ok syw efr h r hr -> cset_region_ok syw efr h1 r hr.
Proof.
intros Hne [] []. constructor; try done.
- rewrite rv_regions0. by rewrite lookup_insert_ne.
- by rewrite rv_collection_set0.
- by rewrite rv_young_length0.
- by rewrite rv_master_free_list0.
Qed.

Lemma foldl_merge_stats_wf a ws : stats_wf a -> stats_wf (foldl merge_stats a ws).
Proof.
revert a. induction ws as [| s ws IH]; intros a Ha; [done |].
cbn. apply IH, merge_stats_wf.
Qed.

Lemma total_stats_wf ws : stats_wf (total_stats ws).
Proof. apply foldl_merge_stats_wf, new_wf. Qed.

Lemma par_do_work_ok schedule : forall this h,
schedule_ok this h schedule ->
Forall stats_wf (worker_stats this) ->
exists this' h',
  par_do_work this schedule h = Ok this' h'
  /\ total_stats (worker_stats this')
     = merge_stats (total_stats (worker_stats this))
         (cset_stats (evac_failure_regions this) h (schedule.*2))
  /\ length (worker_stats this') = length (worker_stats this)
  /\ Forall stats_wf (worker_stats this')
  /\ active_workers this' = active_workers this
  /\ evac_failure_regions this' = evac_failure_regions this
  /\ pass_visited (evac_failure_regions this) (schedule.*2) h h'.
Proof.
induction schedule as [| [w r] schedule IH]; intros this h [Hnd Hall] Hwf.
- exists this, h. split; [done |]. split.
  + cbn. symmetry. apply total_stats_wf.
  + do 4 (split; [done |]). apply pass_visited_nil.
- cbn in Hnd. apply NoDup_cons in Hnd as [Hnin Hnd].
  apply Forall_cons in Hall as [[Hw [hr Hok]] Hall]. cbn in Hw, Hok.
  destruct (lookup_lt_is_Some_2 _ _ Hw) as [slot Hslot].
  assert (Hslot_wf : stats_wf slot) by (by eapply Forall_lookup_1 in Hwf).
  destruct (do_work_single this w r h hr slot Hslot Hslot_wf Hok) as (h1 & Hrun1 & Hvis1).
  set (this1 := with_worker_stats this _) in Hrun1.
  destruct (IH this1 h1) as (this' & h' & Hrun & Htot & Hlen & Hwf' & Hact & Hefr & Hvis).
  { split; [done |]. apply Forall_forall. intros [w' r'] Hin.
    rewrite Forall_forall in Hall. destruct (Hall _ Hin) as [Hw' [hr' Hok']].
    cbn in *. split.
    - by rewrite length_insert.
    - exists hr'. eapply cset_region_ok_frame; [| exact Hvis1 | exact Hok'].
      intros ->. apply Hnin. by apply (list_elem_of_fmap_2 snd) in Hin. }
  { subst this1. cbn. apply Forall_insert; [done | apply merge_stats_wf]. }
  exists this', h'. split.
  { unfold par_do_work in *. cbn [foldM fst snd].
    rewrite (bind_Ok _ _ _ _ _ Hrun1). exact Hrun. }
  subst this1. cbn [worker_stats with_worker_stats evac_failure_regions active_workers] in *.
  rewrite length_insert in Hlen.
  split; [| do 4 (split; [done |])].
  + rewrite Htot, (total_stats_insert _ _ _ _ Hslot), merge_stats_assoc. f_equal.
    cbn [fmap list_fmap snd cset_stats foldr].
    destruct Hok as [Hr _ _ _ _]. rewrite Hr. f_equal.
    apply cset_stats_agree. intros r' Hr'. destruct Hvis1 as [Hreg].
    rewrite Hreg, lookup_insert_ne; [done |]. intros ->. done.
  + destruct Hok as [Hr _ _ _ _]. by eapply pass_visited_cons.
Qed.

Lemma bind_Ok_inv {St A B} (c : M St A) (k : A -> M St B) s b s' :
  (c ≫= k) s = Ok b s' -> exists a s1, c s = Ok a s1 /\ k a s1 = Ok b s'.
Proof.
  unfold mbind, M_bind. destruct (c s) as [a s1 | why s1]; [| done].
  intros Hk. by exists a, s1.
Qed.

Lemma mret_Ok_inv {St A} (a b : A) (s s' : St) :
  (mret a : M St A) s = Ok b s' -> a = b /\ s = s'.
Proof. unfold mret, M_ret. by intros [= -> ->]. Qed.

Lemma handle_failed_region_fields cl r h cl' h' :
  FreeCSetClosure.handle_failed_region cl r h = Ok cl' h' ->
  cl' = FreeCSetClosure.with_stats cl (FreeCSetClosure.stats cl').
Proof.
  unfold FreeCSetClosure.handle_failed_region. intros Hrun.
  repeat (apply bind_Ok_inv in Hrun as (? & ? & _ & Hrun)).
  apply mret_Ok_inv in Hrun as [<- _]. by destruct cl.
Qed.

Lemma handle_evacuated_region_fields cl r h cl' h' :
  FreeCSetClosure.handle_evacuated_region cl r h = Ok cl' h' ->
  cl' = FreeCSetClosure.with_stats cl (FreeCSetClosure.stats cl').
Proof.
  unfold FreeCSetClosure.handle_evacuated_region. intros Hrun.
  repeat (apply bind_Ok_inv in Hrun as (? & ? & _ & Hrun)).
  apply mret_Ok_inv in Hrun as [<- _]. by destruct cl.
Qed.

Lemma do_heap_region_fields cl r h cl' b h' :
  FreeCSetClosure.do_heap_region cl r h = Ok (cl', b) h' ->
  b = false /\ cl' = FreeCSetClosure.with_stats cl (FreeCSetClosure.stats cl').
Proof.
  unfold FreeCSetClosure.do_heap_region. intros Hrun.
  apply bind_Ok_inv in Hrun as (? & ? & _ & Hrun).
  apply bind_Ok_inv in Hrun as (? & ? & _ & Hrun).
  apply bind_Ok_inv in Hrun as (s & ? & _ & Hrun).
  apply bind_Ok_inv in Hrun as (hr & ? & _ & Hrun).
  apply bind_Ok_inv in Hrun as (? & ? & _ & Hrun).
  apply bind_Ok_inv in Hrun as (cl1 & ? & Hbranch & Hrun).
  apply bind_Ok_inv in Hrun as (? & ? & _ & Hrun).
  apply bind_Ok_inv in Hrun as (? & ? & _ & Hrun).
  apply mret_Ok_inv in Hrun as [[= <- <-] _]. split; [done |].
  assert (Hcl1 : cl1 = FreeCSetClosure.with_stats (FreeCSetClosure.with_stats cl s)
                         (FreeCSetClosure.stats cl1)).
  { destruct (contains _ r).
    - by eapply handle_failed_region_fields.
    - by eapply handle_evacuated_region_fields. }
  rewrite Hcl1. reflexivity.
Qed.

(** A worker's [do_work] over the regions it claims is its visits one after
    the other, whatever happens in between on other regions: the parallel
    phase is an interleaving of single visits. *)
Lemma do_work_cons this w r rest h :
  do_work this w (r :: rest) h = (this' ← do_work this w [r]; do_work this' w rest) h.
Proof.
  unfold do_work, worker_stats_at.
  destruct (worker_stats this !! w) as [slot |] eqn:Hslot; [| reflexivity].
  cbn [collection_set_par_iterate_all].
  unfold mbind, M_bind, deref, mret, M_ret. cbv beta iota.
  set (cl := FreeCSetClosure.new (surviving_young_words this) w slot
               (evac_failure_regions this)).
  destruct (FreeCSetClosure.do_heap_region cl r h) as [[cl' b] h' | why h'] eqn:Hvisit;
    [| reflexivity].
  destruct (do_heap_region_fields _ _ _ _ _ _ Hvisit) as [-> Hcl'].
  cbv beta iota.
  cbn [worker_stats with_worker_stats surviving_young_words evac_failure_regions].
  rewrite list_lookup_insert_eq by (by eapply lookup_lt_Some).
  replace (FreeCSetClosure.new (surviving_young_words this) w (FreeCSetClosure.stats cl')
             (evac_failure_regions this)) with cl'.
  destruct (collection_set_par_iterate_all cl' rest h') as [cl'' h'' | why h'']; [| done].
  unfold with_worker_stats. cbn. by rewrite list_insert_insert_eq.
Qed.


Lemma bind_mret_r {St A} (c : M St A) (s : St) : (c ≫= mret) s = c s.
Proof. unfold mbind, M_bind, mret, M_ret. by destruct (c s). Qed.

Lemma do_work_as_schedule this w r rest h :
  do_work this w (r :: rest) h
  = par_do_work this (map (fun r' => (w, r')) (r :: rest)) h.
Proof.
  revert this h r. induction rest as [| r2 rest IH]; intros this h r.
  - unfold par_do_work. cbn [map foldM fst snd]. by rewrite bind_mret_r.
  - rewrite do_work_cons. unfold par_do_work in *. cbn [map foldM fst snd].
    unfold mbind, M_bind. destruct (do_work this w [r] h) as [this' h' | why h']; [| done].
    apply IH.
Qed.

Lemma new_ok syw efr h :
new syw efr h
= Ok {| worker_stats := []; surviving_young_words := syw; active_workers := 0%nat;
        evac_failure_regions := efr |} (upd_eden (fun _ => ∅) h).
Proof. reflexivity. Qed.

Lemma total_stats_replicate n : total_stats (replicate n FreeCSetStats.new) = FreeCSetStats.new.
Proof.
unfold total_stats. induction n as [| n IH]; [done |]. cbn [replicate foldl].
exact IH.
Qed.

Lemma destroy_ok this h :
length (worker_stats this) = active_workers this ->
exists h', destroy this h = Ok tt h'
           /\ reported (total_stats (worker_stats this)) h h'.
Proof.
intros Hlen. unfold destroy, report_statistics.
eexists. split.
- erewrite bind_Ok.
  2:{ rewrite (bind_Ok _ _ _ _ _ (merged_stats_ok _ _ Hlen)). reflexivity. }
  reflexivity.
- constructor; reflexivity.
Qed.


Lemma cset_stats_wf efr h rs : stats_wf (cset_stats efr h rs).
Proof.
unfold cset_stats. induction rs as [| r rs IH]; [apply new_wf |].
cbn. destruct (regions h !! r); [apply merge_stats_wf | exact IH].
Qed.

Lemma cset_stats_perm efr h rs rs' :
rs ≡ₚ rs' -> cset_stats efr h rs = cset_stats efr h rs'.
Proof.
unfold cset_stats. induction 1 as [| r rs rs' _ IH | r1 r2 rs | rs1 rs2 rs3 _ IH1 _ IH2].
- done.
- cbn. by rewrite IH.
- cbn. destruct (regions h !! r1), (regions h !! r2); try done.
  rewrite <- !merge_stats_assoc. f_equal. apply merge_stats_comm.
- by rewrite IH1.
Qed.

Lemma merge_stats_new_l st : stats_wf st -> merge_stats FreeCSetStats.new st = st.
Proof. intros Hwf. by rewrite merge_stats_comm. Qed.

Lemma cset_region_ok_eden syw efr h r hr f :
cset_region_ok syw efr h r hr -> cset_region_ok syw efr (upd_eden f h) r hr.
Proof. intros []. by constructor. Qed.

Lemma cset_ready_schedule_ok syw efr n schedule h this :
cset_ready syw efr n schedule h ->
surviving_young_words this = syw -> evac_failure_regions this = efr ->
length (worker_stats this) = n ->
schedule_ok this (upd_eden (fun _ => ∅) h) schedule.
Proof.
intros [Hperm Hnd Hw Hreg] <- <- <-. split.
- by rewrite Hperm.
- apply Forall_forall. intros [w r] Hin.
  rewrite Forall_forall in Hw. rewrite Forall_forall in Hreg.
  split; [by apply (Hw (w, r)) |].
  destruct (Hreg r) as [hr Hok].
  { rewrite <- Hperm. by apply (list_elem_of_fmap_2 snd) in Hin. }
  exists hr. by apply cset_region_ok_eden.
Qed.

Lemma cset_ready_serial syw efr n schedule h :
cset_ready syw efr n schedule h ->
cset_ready syw efr 1 (serial_schedule h) h.
Proof.
intros [Hperm Hnd Hw Hreg]. unfold serial_schedule. constructor; try done.
- rewrite <- list_fmap_compose. cbn. by rewrite list_fmap_id.
- apply Forall_forall. intros [w r] (r' & [= -> ->] & _)%list_elem_of_fmap. cbn. lia.
Qed.

(** The parallel phase as a whole. *)
Lemma par_phase_ok syw efr n schedule h :
cset_ready syw efr n schedule h ->
exists this hp,
  (task ← new syw efr; par_do_work (set_max_workers task n) schedule) h = Ok this hp
  /\ total_stats (worker_stats this) = cset_stats efr h (collection_set h)
  /\ length (worker_stats this) = active_workers this
  /\ evac_failure_regions this = efr
  /\ pass_visited efr (collection_set h) (upd_eden (fun _ => ∅) h) hp.
Proof.
intros Hready.
rewrite (bind_Ok _ _ _ _ _ (new_ok syw efr h)).
set (t0 := set_max_workers _ n). set (h0 := upd_eden _ h).
destruct (par_do_work_ok schedule t0 h0)
  as (this & hp & Hrun & Htot & Hlen & Hwf & Hact & Hefr & Hvis).
{ eapply cset_ready_schedule_ok; [exact Hready | done | done |].
  subst t0. cbn. apply length_replicate. }
{ subst t0. cbn. apply Forall_replicate, new_wf. }
exists this, hp. split; [exact Hrun |].
destruct Hready as [Hperm Hnd Hw Hreg].
subst t0. cbn [worker_stats set_max_workers active_workers evac_failure_regions] in *.
rewrite length_replicate in Hlen. split; [| split; [congruence | split; [done |]]].
- rewrite Htot, total_stats_replicate, merge_stats_new_l by apply cset_stats_wf.
  rewrite (cset_stats_perm _ _ _ _ Hperm). by apply cset_stats_agree.
- destruct Hvis as [Hin Hout Hold Hcs Hyl Hmfl Hed Hsb Hei Hfu Hfw Hpa Hprs Hpc].
  constructor; try done.
  + intros r Hr. apply Hin. by rewrite Hperm.
  + intros r Hr. apply Hout. by rewrite Hperm.
  + intros r. rewrite Hold. by rewrite Hperm.
Qed.


Lemma merged_after_ok syw efr n schedule h :
cset_ready syw efr n schedule h ->
exists hp,
  merged_after syw efr n schedule h = Ok (cset_stats efr h (collection_set h)) hp
  /\ reporting_targets hp = reporting_targets h.
Proof.
intros Hready.
destruct (par_phase_ok _ _ _ _ _ Hready) as (this & hp & Hrun & Htot & Hlen & _ & Hvis).
exists hp. split.
- unfold merged_after.
  change (((task ← new syw efr; par_do_work (set_max_workers task n) schedule)
           ≫= merged_stats) h = Ok (cset_stats efr h (collection_set h)) hp).
  rewrite (bind_Ok _ _ _ _ _ Hrun), merged_stats_ok by done. by rewrite Htot.
- destruct Hvis as [Hin Hout Hold Hcs Hyl Hmfl Hed Hsb Hei Hfu Hfw Hpa Hprs Hpc].
  unfold reporting_targets. rewrite Hsb, Hei, Hfu, Hfw, Hpa, Hprs, Hpc. reflexivity.
Qed.

Lemma run_ok syw efr n schedule h :
cset_ready syw efr n schedule h ->
exists hp hf,
  run syw efr n schedule h = Ok tt hf
  /\ pass_visited efr (collection_set h) (upd_eden (fun _ => ∅) h) hp
  /\ reported (cset_stats efr h (collection_set h)) hp hf.
Proof.
intros Hready.
destruct (par_phase_ok _ _ _ _ _ Hready) as (this & hp & Hrun & Htot & Hlen & _ & Hvis).
destruct (destroy_ok this hp Hlen) as (hf & Hdestroy & Hrep).
exists hp, hf. split; [| split; [done | by rewrite <- Htot]].
unfold run.
change (((task ← new syw efr; par_do_work (set_max_workers task n) schedule)
         ≫= destroy) h = Ok tt hf).
by rewrite (bind_Ok _ _ _ _ _ Hrun).
Qed.

Lemma cset_stats_sums efr h rs : cset_stats efr h rs = classified_sums efr h rs.
Proof.
  unfold cset_stats, classified_sums. induction rs as [| r rs IH]; [done |].
  cbn [foldr sum_over_regions].
  destruct (regions h !! r) as [hr |] eqn:Hr; [| exact IH].
  rewrite IH. unfold region_stats, merge_stats, rs_stats, failed_stats, evacuated_stats.
  destruct (contains efr r); cbn; f_equal;
    rewrite ?Z.add_0_l, ?Z.add_0_r, ?wrap_size_t_idem, ?wrap_uint_idem,
      ?wrap_size_t_add_l, ?wrap_size_t_add_r, ?wrap_uint_add_l, ?wrap_uint_add_r;
    try reflexivity.
  all: destruct (is_young hr); cbn;
    rewrite ?Z.add_0_l, ?Z.add_0_r, ?wrap_size_t_idem, ?wrap_size_t_add_l, ?wrap_size_t_add_r;
    reflexivity.
Qed.

Lemma foldl_merge_stats_pointwise ws : forall acc,
  foldl merge_stats acc ws
  = {| before_used_bytes := wrap_size_t (before_used_bytes acc + sum_of before_used_bytes ws);
       after_used_bytes := wrap_size_t (after_used_bytes acc + sum_of after_used_bytes ws);
       bytes_allocated_in_old_since_last_gc :=
         wrap_size_t (bytes_allocated_in_old_since_last_gc acc
                      + sum_of bytes_allocated_in_old_since_last_gc ws);
       failure_used_words := wrap_size_t (failure_used_words acc + sum_of failure_used_words ws);
       failure_waste_words :=
         wrap_size_t (failure_waste_words acc + sum_of failure_waste_words ws);
       rs_length := wrap_size_t (rs_length acc + sum_of rs_length ws);
       regions_freed := wrap_uint (regions_freed acc + sum_of regions_freed ws) |}
  \/ ws = [].
Proof.
  induction ws as [| s ws IH]; intros acc; [by right |]. left.
  cbn [foldl]. destruct (IH (merge_stats acc s)) as [-> | ->].
  - unfold sum_of. cbn [fmap list_fmap foldr merge_stats before_used_bytes after_used_bytes
      bytes_allocated_in_old_since_last_gc failure_used_words failure_waste_words rs_length
      regions_freed].
    by rewrite !wrap_size_t_add_l, wrap_uint_add_l, !Z.add_assoc.
  - unfold sum_of. cbn. by rewrite !Z.add_0_r.
Qed.

Lemma total_stats_pointwise ws : total_stats ws = pointwise_sum ws.
Proof.
  unfold total_stats. destruct (foldl_merge_stats_pointwise ws FreeCSetStats.new) as [-> | ->].
  - unfold pointwise_sum. cbn. reflexivity.
  - reflexivity.
Qed.

Lemma serial_classification_ok syw efr n schedule h :
  cset_ready syw efr n schedule h ->
  exists hs,
    serial_classification syw efr h = Ok (cset_stats efr h (collection_set h)) hs.
Proof.
  intros Hready. unfold serial_classification.
  rewrite (bind_Ok _ _ _ _ _ (new_ok syw efr h)).
  set (h0 := upd_eden _ h).
  erewrite bind_Ok by reflexivity.
  change (collection_set h0) with (collection_set h).
  destruct (collection_set h) as [| r rest] eqn:Hcs.
  { exists h0. reflexivity. }
  set (t0 := set_max_workers
               {| worker_stats := []; surviving_young_words := syw; active_workers := 0%nat;
                  evac_failure_regions := efr |} 1).
  destruct (par_do_work_ok (serial_schedule h) t0 h0)
    as (this & hs & Hrun & Htot & _ & Hwf & _ & _ & _).
  { eapply cset_ready_schedule_ok;
      [exact (cset_ready_serial _ _ _ _ _ Hready) | done | done | done]. }
  { subst t0. cbn. apply Forall_singleton, new_wf. }
  unfold serial_schedule in Hrun, Htot. rewrite Hcs in Hrun, Htot.
  rewrite <- (do_work_as_schedule t0 0%nat r rest h0) in Hrun.
  unfold do_work in Hrun.
  erewrite bind_Ok in Hrun by reflexivity.
  apply bind_Ok_inv in Hrun as (cl & h1 & Hiter & Hret).
  apply mret_Ok_inv in Hret as [<- <-].
  exists h1. rewrite (bind_Ok _ _ _ _ _ Hiter).
  assert (Hsnd : (map (fun r' : nat => (0%nat, r')) (r :: rest)).*2 = r :: rest).
  { rewrite <- list_fmap_compose. apply list_fmap_id. }
  rewrite Hsnd in Htot.
  change (worker_stats (with_worker_stats t0 _)) with [FreeCSetClosure.stats cl] in Htot, Hwf.
  change (worker_stats t0) with (replicate 1 FreeCSetStats.new) in Htot.
  change (evac_failure_regions t0) with efr in Htot.
  apply Forall_inv in Hwf.
  rewrite total_stats_replicate, merge_stats_new_l in Htot by apply cset_stats_wf.
  unfold total_stats in Htot. cbn [foldl] in Htot.
  rewrite merge_stats_new_l in Htot by done.
  rewrite (cset_stats_agree efr h h0) in Htot by done.
  unfold mret, M_ret. by rewrite Htot.
Qed.

(** C4.  For every partition of the collection set among the workers (a
  schedule of [n] workers that visits every region once), the statistics
  merged from the per-worker slots are the pointwise sum of the slots,
  every counter in the width of its type, and they equal the statistics
  of the serial classification of the same regions, evacuated or failed,
  by a single worker: the serial replay through the subtask, the
  statistics of one closure that visits the collection set without any
  merge, and the sums of the regions' figures counter by counter
  ([classified_sums]) are all this total.  The parallel phase leaves the
  heap-wide counters untouched; they are written once, by the teardown,
  from the merged statistics. *)
Theorem merged_stats_equal_serial_replay (syw : list Z) (efr : G1EvacFailureRegions)
  (n : nat) (schedule : list (nat * nat)) (h : G1CollectedHeap) :
cset_ready syw efr n schedule h ->
exists total hp hs hf,
  merged_after syw efr n schedule h = Ok total hp
  /\ merged_after syw efr 1 (serial_schedule h) h = Ok total hs
  /\ total = cset_stats efr h (collection_set h)
  /\ reporting_targets hp = reporting_targets h
  /\ run syw efr n schedule h = Ok tt hf
  /\ reported total hp hf
  /\ (exists this,
        (task ← new syw efr; par_do_work (set_max_workers task n) schedule) h = Ok this hp
        /\ total = pointwise_sum (worker_stats this))
  /\ (exists hs', serial_classification syw efr h = Ok total hs')
  /\ total = classified_sums efr h (collection_set h).
Proof.
intros Hready.
destruct (merged_after_ok _ _ _ _ _ (cset_ready_serial _ _ _ _ _ Hready)) as (hs & Hser & _).
destruct (par_phase_ok _ _ _ _ _ Hready) as (this & hp & Hrun & Htot & Hlen & _ & Hvis).
destruct (destroy_ok this hp Hlen) as (hf & Hdestroy & Hrep).
exists (cset_stats efr h (collection_set h)), hp, hs, hf.
split; [| split; [done | split; [done | split; [| split; [| split; [| split; [| split]]]]]]].
- unfold merged_after.
  change (((task ← new syw efr; par_do_work (set_max_workers task n) schedule)
           ≫= merged_stats) h = Ok (cset_stats efr h (collection_set h)) hp).
  rewrite (bind_Ok _ _ _ _ _ Hrun), merged_stats_ok by done. by rewrite Htot.
- destruct Hvis as [Hin Hout Hold Hcs Hyl Hmfl Hed Hsb Hei Hfu Hfw Hpa Hprs Hpc].
  unfold reporting_targets. rewrite Hsb, Hei, Hfu, Hfw, Hpa, Hprs, Hpc. reflexivity.
- unfold run.
  change (((task ← new syw efr; par_do_work (set_max_workers task n) schedule)
           ≫= destroy) h = Ok tt hf).
  by rewrite (bind_Ok _ _ _ _ _ Hrun).
- by rewrite <- Htot.
- exists this. split; [exact Hrun |]. by rewrite <- Htot, total_stats_pointwise.
- exact (serial_classification_ok _ _ _ _ _ Hready).
- apply cset_stats_sums.
Qed.

(** C1 (amended).  After the freeing pass and its teardown every region that
  was in the collection set is no longer a member and is in exactly one
  of two states: a region of the evacuation-failure set was added to the
  old set (under the OldSets lock) and is not freed; any other region is
  freed and is not in the old set.  No region is on the master free
  list: [free_region] is given no list. *)
Theorem cset_region_freed_or_in_old_set (syw : list Z) (efr : G1EvacFailureRegions)
  (n : nat) (schedule : list (nat * nat)) (h : G1CollectedHeap) :
cset_ready syw efr n schedule h ->
(forall r, r ∈ collection_set h -> r ∉ old_set h) ->
exists hf,
  run syw efr n schedule h = Ok tt hf
  /\ collection_set hf = []
  /\ forall r, r ∈ collection_set h ->
       (r ∉ master_free_list hf)
       /\ (r ∉ collection_set hf)
       /\ (r ∈ regions_failed_evacuation efr ->
           r ∈ old_set hf /\ (~ is_freed hf r))
       /\ (r ∉ regions_failed_evacuation efr ->
           is_freed hf r /\ r ∉ old_set hf).
Proof.
intros Hready Hold0.
destruct (run_ok _ _ _ _ _ Hready) as (hp & hf & Hrun & Hvis & Hrep).
exists hf. split; [done |].
destruct Hrep as [_ _ _ _ _ _ _ _ _ Hcs _ Hregs Hold Hmfl].
destruct Hvis as [Hin _ Holdp _ _ Hmflp _ _ _ _ _ _ _ _].
split; [done |]. intros r Hr.
destruct Hready as [_ _ _ Hreg]. rewrite Forall_forall in Hreg.
destruct (Hreg r Hr) as [hr [Hlook _ _ _ Hnf]].
assert (Hr' : regions hf !! r = Some (region_after efr r hr)).
{ rewrite Hregs, Hin by done. cbn. by rewrite Hlook. }
unfold region_after, contains in Hr'.
split; [| split; [| split]].
- by rewrite Hmfl, Hmflp.
- rewrite Hcs. apply not_elem_of_nil.
- intros Hfail. rewrite bool_decide_eq_true_2 in Hr' by done. split.
  + rewrite Hold. apply Holdp. right. split; [done |].
    unfold contains. by rewrite bool_decide_eq_true_2.
  + intros (hr' & Hl & Hty). rewrite Hr' in Hl. injection Hl as <-. done.
- intros Hnfail. rewrite bool_decide_eq_false_2 in Hr' by done. split.
  + by exists (hr_clear hr).
  + rewrite Hold. intros [Ho | [_ Hc]]%Holdp.
    * cbn in Ho. by apply (Hold0 r).
    * unfold contains in Hc. by rewrite bool_decide_eq_false_2 in Hc.
Qed.


End FreeCollectionSet.

Lemma cset_ready_heapA : cset_ready [0; 100; 200] efrA 2 scheduleA heapA.
Proof.
  constructor.
  - reflexivity.
  - cbn. apply NoDup_cons. split; [by_compute |]. apply NoDup_singleton.
  - repeat constructor.
  - repeat constructor.
    + exists (mk_region EdenTag 4096 0 5 1 Instance None). constructor.
      * vm_compute. reflexivity.
      * set_solver.
      * intros _. cbn. split; [lia |]. split; [lia |]. by eexists.
      * intros _. cbn. lia.
      * set_solver.
    + exists (mk_region EdenTag 4096 1024 7 2 Instance None). constructor.
      * vm_compute. reflexivity.
      * set_solver.
      * intros _. cbn. split; [lia |]. split; [lia |]. by eexists.
      * intros Hn. exfalso. apply Hn. set_solver.
      * set_solver.
Qed.

(** Scenario A: worker 0 accounts the evacuated region 1 (4096 bytes
    used, remembered set 5), worker 1 the failed region 2 (4096 bytes used,
    1024 live bytes, remembered set 7); the merged statistics are their
    pointwise sum [totalA], also computed by the serial classification. *)
Lemma merged_stats_equal_serial_replay_witness :
  exists hp hs hs' hf,
    merged_after (H := cfg_debug) [0; 100; 200] efrA 2 scheduleA heapA = Ok totalA hp
    /\ merged_after (H := cfg_debug) [0; 100; 200] efrA 1 (serial_schedule heapA) heapA
       = Ok totalA hs
    /\ serial_classification (H := cfg_debug) [0; 100; 200] efrA heapA = Ok totalA hs'
    /\ totalA = cset_stats (H := cfg_debug) efrA heapA (collection_set heapA)
    /\ reporting_targets hp = reporting_targets heapA
    /\ FreeCollectionSetTask.run (H := cfg_debug) [0; 100; 200] efrA 2 scheduleA heapA
       = Ok tt hf
    /\ reported totalA hp hf.
Proof.
  destruct (merged_stats_equal_serial_replay (H := cfg_debug) _ _ _ _ _ cset_ready_heapA)
    as (total' & hp & hs & hf & Hpar & Hser & Hcs & Htargets & Hrun & Hrep
        & _ & (hs' & Hcl) & Hsums).
  assert (Htotal : total' = totalA) by (rewrite Hsums; vm_compute; reflexivity).
  rewrite Htotal in *.
  by exists hp, hs, hs', hf.
Defined.

(** Scenario A, run: the evacuated region 1 ends on neither list. *)
Lemma evacuated_region_on_no_list :
  (1%nat ∈ collection_set heapA)
  /\ (1%nat ∉ regions_failed_evacuation efrA)
  /\ exists hf,
      FreeCollectionSetTask.run (H := cfg_debug) [0; 100; 200] efrA 2 scheduleA heapA
      = Ok tt hf
      /\ (1%nat ∉ master_free_list hf)
      /\ ~ free_list_xor_old_set hf 1.
Proof.
  split; [set_solver |]. split; [set_solver |].
  eexists. split; [vm_compute; reflexivity |].
  split.
  - apply (bool_decide_unpack _). vm_compute. exact I.
  - apply (bool_decide_unpack _). vm_compute. exact I.
Qed.



(** Scenario A, run: region 1 is freed, region 2 is in the old set. *)
Lemma cset_region_freed_or_in_old_set_witness :
  exists hf,
    FreeCollectionSetTask.run (H := cfg_debug) [0; 100; 200] efrA 2 scheduleA heapA = Ok tt hf
    /\ is_freed hf 1 /\ (1%nat ∉ old_set hf)
    /\ 2%nat ∈ old_set hf /\ (~ is_freed hf 2).
Proof.
  destruct (cset_region_freed_or_in_old_set (H := cfg_debug) [0; 100; 200] efrA 2
              scheduleA heapA cset_ready_heapA) as (hf & Hrun & _ & Hall).
  - intros r Hr Hold. cbn in Hr, Hold. apply elem_of_singleton in Hold as ->.
    revert Hr. by_compute.
  - exists hf. split; [exact Hrun |].
    destruct (Hall 1%nat) as (_ & _ & _ & Hev); [by_compute |].
    destruct (Hall 2%nat) as (_ & _ & Hfail & _); [by_compute |].
    destruct Hev as [Hfree Hnold]; [by_compute |].
    destruct Hfail as [Hold Hnfree]; [by_compute |].
    done.
Defined.

(** The old set is only ever extended with the OldSets lock held: with
    assertions on, adding without the lock aborts. *)
Lemma old_set_add_requires_lock `{VMConfig} (r : nat) (h : G1CollectedHeap) :
  ASSERT = true -> OldSets_lock_held h = false ->
  old_set_add r h = Fatal AssertFailed h.
Proof.
  intros Ha Hl. unfold old_set_add.
  erewrite bind_Ok by reflexivity. rewrite Hl.
  erewrite bind_Fatal; [reflexivity |]. unfold assert_. by rewrite Ha.
Qed.

(** ** Humongous reclamation (C5, C6) *)

Section Humongous.
Context `{VMConfig}.
Import G1FreeHumongousRegionClosure.

Lemma humongous_obj_regions_from_seq h fuel r :
exists n, humongous_obj_regions_from h fuel r = seq r (S n)
  /\ forall i, (0 < i <= n)%nat -> exists hr, regions h !! (r + i)%nat = Some hr.
Proof.
revert r. induction fuel as [| fuel IH]; intros r.
- exists 0%nat. split; [done |]. lia.
- cbn. unfold next_region_in_humongous.
  destruct (regions h !! S r) as [hr |] eqn:Hr; [| exists 0%nat; split; [done | lia]].
  destruct (is_continues_humongous hr); [| exists 0%nat; split; [done | lia]].
  destruct (IH (S r)) as (n & Hn & Hex). exists (S n). split.
  + by rewrite Hn.
  + intros i Hi. destruct (decide (i = 1%nat)) as [-> | Hne].
    * exists hr. by rewrite Nat.add_1_r.
    * destruct (Hex (i - 1)%nat) as [hr' Hhr']; [lia |].
      exists hr'. rewrite <- Hhr'. f_equal. lia.
Qed.

Lemma humongous_obj_regions_agree h h' r :
regions h' = regions h -> humongous_obj_regions h' r = humongous_obj_regions h r.
Proof.
intros Hreg. unfold humongous_obj_regions. rewrite Hreg.
generalize (size (regions h)) as fuel. intros fuel. revert r.
induction fuel as [| fuel IH]; intros r; [done |].
cbn. unfold next_region_in_humongous. rewrite Hreg.
destruct (regions h !! S r) as [hr |]; [| done].
destruct (is_continues_humongous hr); [| done]. by rewrite IH.
Qed.

Lemma humongous_obj_regions_spec h r hr :
regions h !! r = Some hr ->
r ∈ humongous_obj_regions h r
/\ NoDup (humongous_obj_regions h r)
/\ forall r', r' ∈ humongous_obj_regions h r -> is_Some (regions h !! r').
Proof.
intros Hr. unfold humongous_obj_regions.
destruct (humongous_obj_regions_from_seq h (size (regions h)) r) as (n & -> & Hex).
split; [| split].
- apply elem_of_seq. lia.
- apply NoDup_seq.
- intros r' [Hge Hlt]%elem_of_seq.
  destruct (decide (r' = r)) as [-> | Hne]; [by eexists |].
  destruct (Hex (r' - r)%nat) as [hr' Hhr']; [lia |].
  exists hr'. rewrite <- Hhr'. f_equal. lia.
Qed.

Lemma free_humongous_region_fn_ok cl r h hr :
regions h !! r = Some hr ->
free_humongous_region_fn cl r h
= Ok {| humongous_objects_reclaimed := humongous_objects_reclaimed cl;
        humongous_regions_reclaimed := wrap_uint (humongous_regions_reclaimed cl + 1);
        freed_bytes := wrap_size_t (freed_bytes cl + hr_used hr) |}
     (upd_regions (fun m => <[r := reclaimed_region hr]> m) h).
Proof.
intros Hr. unfold free_humongous_region_fn.
rewrite (bind_Ok _ _ _ _ _ (region_at_Some _ _ _ Hr)).
erewrite bind_Ok.
2:{ unfold set_containing_set.
    rewrite (bind_Ok _ _ _ _ _ (region_at_Some _ _ _ Hr)). reflexivity. }
erewrite bind_Ok.
2:{ unfold free_humongous_region, free_region.
    erewrite bind_Ok by (apply region_at_Some; cbn; rewrite lookup_alter_eq, Hr; reflexivity).
    erewrite bind_Ok by reflexivity. reflexivity. }
unfold mret, M_ret. f_equal.
unfold upd_region, upd_regions. cbn. f_equal.
rewrite (alter_lookup_insert _ _ _ _ Hr).
rewrite (alter_lookup_insert _ _ _ _ (lookup_insert_eq _ _ _)).
by rewrite insert_insert_eq.
Qed.


Lemma used_bytes_of_agree h h' rs :
(forall r, r ∈ rs -> regions h' !! r = regions h !! r) ->
used_bytes_of h' rs = used_bytes_of h rs.
Proof.
unfold used_bytes_of. induction rs as [| r rs IH]; intros Hag; [done |].
cbn [foldr]. rewrite Hag by (apply elem_of_cons; by left).
rewrite IH; [done |]. intros r' Hr'. apply Hag. apply elem_of_cons. by right.
Qed.

Lemma reclaim_fold span : forall r cl h,
NoDup (r :: span) ->
(forall r', r' ∈ r :: span -> is_Some (regions h !! r')) ->
exists cl' h',
  foldM free_humongous_region_fn (r :: span) cl h = Ok cl' h'
  /\ freed_bytes cl' = wrap_size_t (freed_bytes cl + used_bytes_of h (r :: span))
  /\ humongous_regions_reclaimed cl'
     = wrap_uint (humongous_regions_reclaimed cl + Z.of_nat (length (r :: span)))
  /\ humongous_objects_reclaimed cl' = humongous_objects_reclaimed cl
  /\ humongous_reclaimed (r :: span) h h'
  /\ cm_eagerly_reclaimed h' = cm_eagerly_reclaimed h.
Proof.
induction span as [| r2 span IH]; intros r cl h Hnd Hex.
- destruct (Hex r) as [hr Hr]; [apply elem_of_cons; by left |].
  eexists _, _. split.
  { cbn [foldM]. rewrite (bind_Ok _ _ _ _ _ (free_humongous_region_fn_ok _ _ _ _ Hr)).
    reflexivity. }
  cbn. rewrite Hr, Z.add_0_r. do 3 (split; [done |]). split; [| done].
  constructor; try done.
  + intros r' ->%list_elem_of_singleton. cbn. by rewrite lookup_insert_eq, Hr.
  + intros r' [Hne _]%not_elem_of_cons. cbn. by rewrite lookup_insert_ne.
- destruct (Hex r) as [hr Hr]; [apply elem_of_cons; by left |].
  apply NoDup_cons in Hnd as [Hnin Hnd].
  set (cl1 := {| humongous_objects_reclaimed := humongous_objects_reclaimed cl;
                 humongous_regions_reclaimed := wrap_uint (humongous_regions_reclaimed cl + 1);
                 freed_bytes := wrap_size_t (freed_bytes cl + hr_used hr) |}).
  set (h1 := upd_regions (fun m => <[r := reclaimed_region hr]> m) h).
  assert (Hreg1 : forall r', r' <> r -> regions h1 !! r' = regions h !! r').
  { intros r' Hne. subst h1. cbn. by rewrite lookup_insert_ne. }
  destruct (IH r2 cl1 h1 Hnd) as (cl' & h' & Hrun & Hfb & Hrr & Hor & Hrec & Hcm).
  { intros r' Hr'. rewrite Hreg1; [apply Hex; apply elem_of_cons; by right |].
    intros ->. done. }
  exists cl', h'. split.
  { change (foldM free_humongous_region_fn (r :: r2 :: span) cl h)
      with ((free_humongous_region_fn cl r
             ≫= foldM free_humongous_region_fn (r2 :: span)) h).
    rewrite (bind_Ok _ _ _ _ _ (free_humongous_region_fn_ok _ _ _ _ Hr)). exact Hrun. }
  assert (Hused : used_bytes_of h1 (r2 :: span) = used_bytes_of h (r2 :: span)).
  { apply used_bytes_of_agree. intros r' Hr'. apply Hreg1. intros ->. done. }
  split; [| split; [| split; [| split]]].
  + rewrite Hfb, Hused. subst cl1. cbn [freed_bytes].
    rewrite wrap_size_t_add_l. f_equal.
    change (used_bytes_of h (r :: r2 :: span))
      with (match regions h !! r with
            | Some hr => hr_used hr + used_bytes_of h (r2 :: span)
            | None => used_bytes_of h (r2 :: span) end).
    rewrite Hr. lia.
  + rewrite Hrr. subst cl1. cbn [humongous_regions_reclaimed].
    rewrite wrap_uint_add_l. f_equal. cbn [length]. lia.
  + by rewrite Hor.
  + destruct Hrec as [Hin Hout Hcand Hmfl Hbm Hsb]. constructor; try done.
    * intros r' [-> | Hr']%elem_of_cons.
      -- rewrite Hout by done. subst h1. cbn. by rewrite lookup_insert_eq, Hr.
      -- rewrite Hin by done. rewrite Hreg1; [done |]. intros ->. done.
    * intros r' [Hne Hr']%not_elem_of_cons. rewrite Hout by done. by apply Hreg1.
  + by rewrite Hcm.
Qed.


Lemma assert_guarded {St} (b : bool) (s : St) :
(ASSERT = true -> b = true) -> assert_ b s = Ok tt s.
Proof.
intros Hb. unfold assert_. destruct ASSERT; [| done].
by rewrite Hb.
Qed.

Lemma is_reclaimable_candidate h idx :
is_reclaimable h idx = true <-> idx ∈ humongous_reclaim_candidates h.
Proof.
unfold is_reclaimable, is_humongous_reclaim_candidate. apply bool_decide_eq_true.
Qed.

Lemma do_heap_region_index_not_candidate cl idx h :
idx ∉ humongous_reclaim_candidates h ->
do_heap_region_index cl idx h = Ok (cl, false) h.
Proof.
intros Hn. unfold do_heap_region_index.
erewrite bind_Ok by reflexivity.
unfold is_reclaimable, is_humongous_reclaim_candidate.
by rewrite bool_decide_eq_false_2.
Qed.

(** C5.  In the humongous scan a start region is reclaimed if and only if it
  is still flagged as a reclaim candidate: [is_reclaimable] is the flag
  and nothing else (no remembered-set size, no marking result); a region
  that is not flagged is left alone.  On reclaim every region the object
  spans is freed and detached from its containing set, its used bytes are
  added to the freed bytes, the region and object counters are bumped and
  concurrent mark is notified.  (The object is a type array, see C6; the
  bitmap is looked at only by a debug assertion.) *)
Theorem humongous_reclaimed_iff_candidate (cl : G1FreeHumongousRegionClosure.t)
  (idx : nat) (h : G1CollectedHeap) :
(is_reclaimable h idx = true <-> idx ∈ humongous_reclaim_candidates h)
/\ (idx ∉ humongous_reclaim_candidates h ->
    do_heap_region_index cl idx h = Ok (cl, false) h)
/\ (idx ∈ humongous_reclaim_candidates h ->
    forall hr, regions h !! idx = Some hr ->
    hr_bottom_obj hr = TypeArray ->
    (ASSERT = true -> idx ∉ cm_mark_bitmap h) ->
    let span := humongous_obj_regions h idx in
    exists cl' h',
      do_heap_region_index cl idx h = Ok (cl', false) h'
      /\ idx ∈ span
      /\ (forall r, r ∈ span ->
            is_freed h' r
            /\ exists hr', regions h' !! r = Some hr' /\ hr_containing_set hr' = None)
      /\ (forall r, r ∉ span -> regions h' !! r = regions h !! r)
      /\ freed_bytes cl' = wrap_size_t (freed_bytes cl + used_bytes_of h span)
      /\ humongous_regions_reclaimed cl'
         = wrap_uint (humongous_regions_reclaimed cl + Z.of_nat (length span))
      /\ humongous_objects_reclaimed cl' = wrap_uint (humongous_objects_reclaimed cl + 1)
      /\ cm_eagerly_reclaimed h' = cm_eagerly_reclaimed h ++ [idx]).
Proof.
split; [apply is_reclaimable_candidate |].
split; [apply do_heap_region_index_not_candidate |].
intros Hcand hr Hr Hobj Hmark span.
destruct (humongous_obj_regions_spec h idx hr Hr) as (Hidx & Hnd & Hex).
fold span in Hidx, Hnd, Hex.
set (h1 := upd_cm_eagerly_reclaimed (fun l => l ++ [idx]) h).
set (cl1 := {| humongous_objects_reclaimed := wrap_uint (humongous_objects_reclaimed cl + 1);
               humongous_regions_reclaimed := humongous_regions_reclaimed cl;
               freed_bytes := freed_bytes cl |}).
assert (Hspan : exists r0 rest, span = r0 :: rest).
{ destruct span as [| r0 rest]; [by apply elem_of_nil in Hidx | by eexists _, _]. }
destruct Hspan as (r0 & rest & Hspan).
destruct (reclaim_fold rest r0 cl1 h1) as (cl' & h' & Hrun & Hfb & Hrr & Hor & Hrec & Hcm).
{ by rewrite <- Hspan. }
{ intros r' Hr'. rewrite <- Hspan in Hr'. by apply Hex. }
rewrite <- Hspan in *.
exists cl', h'. split.
- unfold do_heap_region_index.
  erewrite bind_Ok by reflexivity.
  rewrite (proj2 (is_reclaimable_candidate h idx) Hcand). cbn [negb].
  rewrite (bind_Ok _ _ _ _ _ (region_at_Some _ _ _ Hr)).
  rewrite Hobj. cbn [is_typeArray guarantee].
  erewrite bind_Ok by reflexivity.
  erewrite bind_Ok by reflexivity.
  erewrite bind_Ok by reflexivity.
  erewrite bind_Ok.
  2:{ apply assert_guarded. intros Ha. unfold is_marked_in_bitmap. cbn.
      rewrite bool_decide_eq_false_2; [done |]. by apply Hmark. }
  erewrite bind_Ok.
  2:{ unfold humongous_obj_regions_iterate. erewrite bind_Ok by reflexivity.
      rewrite (humongous_obj_regions_agree h) by reflexivity. exact Hrun. }
  reflexivity.
- destruct Hrec as [Hin Hout Hcand' Hmfl Hbm Hsb].
  split; [done |]. split; [| split; [| split; [| split; [| split]]]].
  + intros r Hrs. destruct (Hex r Hrs) as [hr' Hhr'].
    assert (Hl : regions h' !! r = Some (reclaimed_region hr')).
    { rewrite Hin by done. subst h1. cbn. by rewrite Hhr'. }
    split; [by exists (reclaimed_region hr') | by exists (reclaimed_region hr')].
  + intros r Hrs. by rewrite Hout.
  + rewrite Hfb. reflexivity.
  + rewrite Hrr. reflexivity.
  + rewrite Hor. reflexivity.
  + rewrite Hcm. reflexivity.
Qed.

(** C6.  When a region selected for reclamation (flagged as candidate) holds
  an object that is not a type array, the guarantee fires: the closure,
  and with it the whole scan, aborts with the heap as it was - nothing
  freed, nothing notified - in debug and product builds alike.  A visit
  that returns normally had a type array. *)
Theorem humongous_non_type_array_is_fatal (cl : G1FreeHumongousRegionClosure.t)
  (idx : nat) (h : G1CollectedHeap) (hr : HeapRegion) :
idx ∈ humongous_reclaim_candidates h ->
regions h !! idx = Some hr ->
(hr_bottom_obj hr <> TypeArray ->
   do_heap_region_index cl idx h = Fatal GuaranteeFailed h
   /\ forall rest, heap_region_iterate_over cl (idx :: rest) h = Fatal GuaranteeFailed h)
/\ (forall res h', do_heap_region_index cl idx h = Ok res h' ->
      hr_bottom_obj hr = TypeArray).
Proof.
intros Hcand Hr.
assert (Hfatal : hr_bottom_obj hr <> TypeArray ->
                 do_heap_region_index cl idx h = Fatal GuaranteeFailed h).
{ intros Hobj. unfold do_heap_region_index.
  erewrite bind_Ok by reflexivity.
  rewrite (proj2 (is_reclaimable_candidate h idx) Hcand). cbn [negb].
  rewrite (bind_Ok _ _ _ _ _ (region_at_Some _ _ _ Hr)).
  erewrite bind_Fatal; [reflexivity |].
  destruct (hr_bottom_obj hr); done. }
split.
- intros Hobj. split; [by apply Hfatal |].
  intros rest. cbn [heap_region_iterate_over].
  erewrite bind_Fatal; [reflexivity | by apply Hfatal].
- intros res h' Hok.
  destruct (hr_bottom_obj hr) eqn:Hk; [done | |];
    rewrite Hfatal in Hok by done; discriminate.
Qed.

End Humongous.

(** Scenario B: region 6 is not flagged and stays; the flagged object of
    regions 3 and 4 is reclaimed. *)
Lemma humongous_reclaimed_iff_candidate_witness :
  G1FreeHumongousRegionClosure.do_heap_region_index (H := cfg_debug)
    G1FreeHumongousRegionClosure.new 6 heapB
  = Ok (G1FreeHumongousRegionClosure.new, false) heapB
  /\ exists cl' h',
      G1FreeHumongousRegionClosure.do_heap_region_index (H := cfg_debug)
        G1FreeHumongousRegionClosure.new 3 heapB = Ok (cl', false) h'
      /\ is_freed h' 3 /\ is_freed h' 4
      /\ G1FreeHumongousRegionClosure.freed_bytes cl' = 33768
      /\ G1FreeHumongousRegionClosure.humongous_regions_reclaimed cl' = 2
      /\ G1FreeHumongousRegionClosure.humongous_objects_reclaimed cl' = 1.
Proof.
  destruct (humongous_reclaimed_iff_candidate (H := cfg_debug)
              G1FreeHumongousRegionClosure.new 6 heapB) as (_ & Hnot & _).
  split; [apply Hnot; vm_compute; set_solver |].
  destruct (humongous_reclaimed_iff_candidate (H := cfg_debug)
              G1FreeHumongousRegionClosure.new 3 heapB) as (_ & _ & Hrec).
  destruct (Hrec ltac:(set_solver)
              (mk_region StartsHumongousTag 32768 0 0 0 TypeArray (Some HumongousSetName))
              ltac:(vm_compute; reflexivity) ltac:(reflexivity) ltac:(intros _; set_solver))
    as (cl' & h' & Hrun & _ & Hfreed & _ & Hfb & Hrr & Hor & _).
  exists cl', h'. split; [exact Hrun |].
  assert (Hspan : humongous_obj_regions heapB 3 = [3; 4]%nat) by (vm_compute; reflexivity).
  rewrite Hspan in *.
  split; [apply Hfreed; by_compute |]. split; [apply Hfreed; by_compute |].
  split; [rewrite Hfb; vm_compute; reflexivity |].
  split; [rewrite Hrr; vm_compute; reflexivity |].
  rewrite Hor; vm_compute; reflexivity.
Defined.

(** A flagged object array aborts the VM, also in a product build. *)
Lemma humongous_non_type_array_is_fatal_witness :
  G1FreeHumongousRegionClosure.do_heap_region_index (H := cfg_product)
    G1FreeHumongousRegionClosure.new 6 heapB_bad
  = Fatal GuaranteeFailed heapB_bad.
Proof.
  apply (humongous_non_type_array_is_fatal (H := cfg_product)
           G1FreeHumongousRegionClosure.new 6 heapB_bad
           (mk_region StartsHumongousTag 20000 0 3 0 ObjArray (Some HumongousSetName))).
  - set_solver.
  - vm_compute. reflexivity.
  - done.
Defined.

(** ** The two batches (C8, C10) *)

Section Batches.
Context `{VMConfig}.

Lemma evacuation_failed_nonempty efr :
evacuation_failed efr = true <-> regions_failed_evacuation efr <> ∅.
Proof.
unfold evacuation_failed, num_regions_failed_evacuation.
rewrite Nat.ltb_lt. rewrite <- (leibniz_equiv_iff _ ∅), <- size_non_empty_iff. lia.
Qed.

Lemma has_humongous_reclaim_candidates_nonempty h :
has_humongous_reclaim_candidates h = true <-> humongous_reclaim_candidates h <> ∅.
Proof.
unfold has_humongous_reclaim_candidates. rewrite negb_true_iff.
apply bool_decide_eq_false.
Qed.

Lemma task1_new_ok pss efr h :
exists b, G1PostEvacuateCollectionSetCleanupTask1.new pss efr h = Ok b h
  /\ (G1BatchedTask.has_phase RestoreRetainedRegions (all_tasks b)
      = evacuation_failed efr).
Proof.
unfold G1PostEvacuateCollectionSetCleanupTask1.new.
erewrite bind_Ok by reflexivity.
eexists. split; [reflexivity |].
destruct (should_sample_collection_set_candidates h), (evacuation_failed efr); reflexivity.
Qed.

Lemma task2_new_ok pss efr h :
exists b, G1PostEvacuateCollectionSetCleanupTask2.new pss efr h
          = Ok b (upd_eden (fun _ => ∅) h)
  /\ G1BatchedTask.has_phase RestorePreservedMarks (all_tasks b) = evacuation_failed efr
  /\ G1BatchedTask.has_phase ClearRetainedRegionBitmapsPhase (all_tasks b)
     = evacuation_failed efr && negb (in_concurrent_start_gc h)
  /\ G1BatchedTask.has_phase EagerlyReclaimHumongousObjectsPhase
       (G1BatchedTask.serial_tasks b) = has_humongous_reclaim_candidates h
  /\ G1BatchedTask.has_phase EagerlyReclaimHumongousObjectsPhase
       (G1BatchedTask.parallel_tasks b) = false
  /\ length (serial_calls_of EagerlyReclaimHumongousObjectsPhase b)
     = (if has_humongous_reclaim_candidates h then 1 else 0)%nat.
Proof.
unfold G1PostEvacuateCollectionSetCleanupTask2.new.
erewrite bind_Ok by reflexivity.
destruct (evacuation_failed efr) eqn:Hfail;
  [destruct (in_concurrent_start_gc h) eqn:Hcs |].
- erewrite bind_Ok.
  2:{ erewrite bind_Ok by reflexivity. rewrite Hcs. reflexivity. }
  erewrite bind_Ok by reflexivity.
  eexists. split; [reflexivity |].
  destruct COMPILER2_OR_JVMCI, (has_humongous_reclaim_candidates h),
    (UseTLAB && ResizeTLAB); repeat split; reflexivity.
- erewrite bind_Ok.
  2:{ erewrite bind_Ok by reflexivity. rewrite Hcs. cbn [negb].
      erewrite bind_Ok.
      2:{ unfold ClearRetainedRegionBitmapsTask.new.
          erewrite bind_Ok by reflexivity. rewrite Hcs.
          erewrite bind_Ok by apply assert_true. reflexivity. }
      reflexivity. }
  erewrite bind_Ok by reflexivity.
  eexists. split; [reflexivity |].
  destruct COMPILER2_OR_JVMCI, (has_humongous_reclaim_candidates h),
    (UseTLAB && ResizeTLAB); repeat split; reflexivity.
- erewrite bind_Ok by reflexivity.
  erewrite bind_Ok by reflexivity.
  eexists. split; [reflexivity |].
  destruct COMPILER2_OR_JVMCI, (has_humongous_reclaim_candidates h),
    (in_concurrent_start_gc h), (UseTLAB && ResizeTLAB); repeat split; reflexivity.
Qed.

(** C8.  The evacuation-failure recovery subtasks exist only in a pause with
  at least one failed region: batch 1 holds the restore-retained-regions
  subtask, and batch 2 the restore-preserved-marks subtask, exactly when
  the failure set is not empty; batch 2 holds the bitmap-clearing
  subtask exactly when, in addition, the pause is not a concurrent-start
  pause.  With no failure none of the three is created. *)
Theorem recovery_subtasks_only_after_evacuation_failure
  (pss : G1ParScanThreadStateSet) (efr : G1EvacFailureRegions) (h : G1CollectedHeap) :
exists b1 b2 h2,
  G1PostEvacuateCollectionSetCleanupTask1.new pss efr h = Ok b1 h
  /\ G1PostEvacuateCollectionSetCleanupTask2.new pss efr h = Ok b2 h2
  /\ (G1BatchedTask.has_phase RestoreRetainedRegions (all_tasks b1) = true
      <-> regions_failed_evacuation efr <> ∅)
  /\ (G1BatchedTask.has_phase RestorePreservedMarks (all_tasks b2) = true
      <-> regions_failed_evacuation efr <> ∅)
  /\ (G1BatchedTask.has_phase ClearRetainedRegionBitmapsPhase (all_tasks b2) = true
      <-> regions_failed_evacuation efr <> ∅ /\ in_concurrent_start_gc h = false)
  /\ (regions_failed_evacuation efr = ∅ ->
      G1BatchedTask.has_phase RestoreRetainedRegions (all_tasks b1) = false
      /\ G1BatchedTask.has_phase RestorePreservedMarks (all_tasks b2) = false
      /\ G1BatchedTask.has_phase ClearRetainedRegionBitmapsPhase (all_tasks b2) = false).
Proof.
destruct (task1_new_ok pss efr h) as (b1 & Hb1 & Hrrr).
destruct (task2_new_ok pss efr h) as (b2 & Hb2 & Hrpm & Hcrb & _).
exists b1, b2, (upd_eden (fun _ => ∅) h).
split; [done |]. split; [done |].
rewrite Hrrr, Hrpm, Hcrb, andb_true_iff, negb_true_iff.
rewrite !evacuation_failed_nonempty.
split; [done |]. split; [done |]. split; [done |].
intros Hempty.
assert (Hf : evacuation_failed efr = false).
{ apply not_true_is_false. rewrite evacuation_failed_nonempty. tauto. }
by rewrite Hf.
Qed.

(** C10.  Batch 2 holds the humongous reclamation subtask exactly when the
  heap has a reclaim candidate, and then as a serial subtask, never as a
  parallel one: its [do_work] - the whole heap-region scan - is called
  once, and like every serial subtask with worker index 0.  With no
  candidate the batch has no such subtask and makes no such call. *)
Theorem humongous_reclaim_is_serial_and_conditional
  (pss : G1ParScanThreadStateSet) (efr : G1EvacFailureRegions) (h : G1CollectedHeap) :
exists b2 h2,
  G1PostEvacuateCollectionSetCleanupTask2.new pss efr h = Ok b2 h2
  /\ (G1BatchedTask.has_phase EagerlyReclaimHumongousObjectsPhase
        (G1BatchedTask.serial_tasks b2) = true
      <-> humongous_reclaim_candidates h <> ∅)
  /\ G1BatchedTask.has_phase EagerlyReclaimHumongousObjectsPhase
       (G1BatchedTask.parallel_tasks b2) = false
  /\ (forall call, call ∈ G1BatchedTask.serial_do_work_calls b2 -> call.2 = 0%nat)
  /\ (humongous_reclaim_candidates h <> ∅ ->
      length (serial_calls_of EagerlyReclaimHumongousObjectsPhase b2) = 1%nat)
  /\ (humongous_reclaim_candidates h = ∅ ->
      serial_calls_of EagerlyReclaimHumongousObjectsPhase b2 = []
      /\ G1BatchedTask.has_phase EagerlyReclaimHumongousObjectsPhase (all_tasks b2) = false).
Proof.
destruct (task2_new_ok pss efr h) as (b2 & Hb2 & _ & _ & Hser & Hpar & Hcalls).
exists b2, (upd_eden (fun _ => ∅) h). split; [done |].
rewrite Hser, has_humongous_reclaim_candidates_nonempty.
split; [done |]. split; [done |]. split; [| split].
- intros [task w] (task' & [= -> ->] & _)%list_elem_of_fmap. done.
- intros Hne. apply has_humongous_reclaim_candidates_nonempty in Hne.
  by rewrite Hne in Hcalls.
- intros Hempty.
  assert (Hf : has_humongous_reclaim_candidates h = false).
  { apply not_true_is_false. rewrite has_humongous_reclaim_candidates_nonempty. tauto. }
  rewrite Hf in Hcalls, Hser. split.
  + by apply nil_length_inv.
  + unfold all_tasks, G1BatchedTask.has_phase in *.
    by rewrite existsb_app, Hser, Hpar.
Qed.

End Batches.

(** ** Draining the redirty buffers (C9) *)

Section RedirtyDrain.
Context `{VMConfig}.
Import RedirtyLoggedCardsTask.

Lemma split_worker (ws : list worker_state) w x y :
ws !! w = Some x ->
exists l1 l2, ws = l1 ++ x :: l2 /\ <[w := y]> ws = l1 ++ y :: l2 /\ length l1 = w.
Proof.
intros Hw. exists (take w ws), (drop (S w) ws).
pose proof (lookup_lt_Some _ _ _ Hw) as Hlt.
split; [by rewrite take_drop_middle |].
split; [by apply insert_take_drop |].
rewrite length_take. lia.
Qed.

Lemma held_insert (ws : list worker_state) w x y :
ws !! w = Some x ->
exists R, omap held_node ws ≡ₚ option_list (held_node x) ++ R
          /\ omap held_node (<[w := y]> ws) ≡ₚ option_list (held_node y) ++ R.
Proof.
intros Hw. destruct (split_worker ws w x y Hw) as (l1 & l2 & -> & -> & _).
exists (omap held_node l1 ++ omap held_node l2).
rewrite !omap_app. cbn [omap list_omap].
split.
- destruct (held_node x); cbn; [| done]. by rewrite Permutation_middle.
- destruct (held_node y); cbn; [| done]. by rewrite Permutation_middle.
Qed.


Lemma lookup_insert_worker (ws : list worker_state) w w' x y :
ws !! w = Some x ->
<[w := y]> ws !! w' = if decide (w = w') then Some y else ws !! w'.
Proof.
intros Hw. case_decide as Hd.
- subst. apply list_lookup_insert_eq. by eapply lookup_lt_Some.
- by apply list_lookup_insert_ne.
Qed.

Lemma head_pos_le this :
(forall k, nodes this = Some k -> (k < length (rdcqs this))%nat) ->
(head_pos this <= length (rdcqs this))%nat.
Proof.
intros Hk. unfold head_pos. destruct (nodes this) as [k |]; [| done].
specialize (Hk k eq_refl). lia.
Qed.

Lemma held_node_valid bufs st w cl j :
redirty_inv bufs st -> workers st !! w = Some (Claimed cl j) ->
(j < head_pos (task (sh st)))%nat /\ (j < length bufs)%nat.
Proof.
intros [Hrd Hhead Hcl _ _ _] Hw.
assert (Hin : j ∈ claimed_nodes st).
{ unfold claimed_nodes. apply elem_of_app. right.
  apply list_elem_of_omap. exists (Claimed cl j). split; [| done].
  by eapply list_elem_of_lookup_2. }
rewrite Hcl in Hin. apply elem_of_seq in Hin.
pose proof (head_pos_le (task (sh st))) as Hle. rewrite Hrd in Hle.
split; [lia |]. specialize (Hle Hhead). lia.
Qed.

Lemma next_Some this j k :
next this j = Some k <-> k = S j /\ (S j < length (rdcqs this))%nat.
Proof.
unfold next. destruct (S j <? length (rdcqs this))%nat eqn:Hlt.
- apply Nat.ltb_lt in Hlt. split; [intros [= <-]; done | intros [-> _]; done].
- apply Nat.ltb_ge in Hlt. split; [done | lia].
Qed.

Lemma next_None this j :
next this j = None <-> (length (rdcqs this) <= S j)%nat.
Proof.
unfold next. destruct (S j <? length (rdcqs this))%nat eqn:Hlt.
- apply Nat.ltb_lt in Hlt. split; [done | lia].
- apply Nat.ltb_ge in Hlt. done.
Qed.

Lemma par_step_inv bufs st st' :
redirty_inv bufs st -> par_step st st' -> redirty_inv bufs st'.
Proof.
intros Hinv Hstep. destruct Hstep as [st w ws ws' sh' Hw Hnf Hws].
pose proof Hinv as [Hrd Hhead Hcl Hloop Hnone Hwk].
destruct (held_insert (workers st) w ws ws' Hw) as (R & HR & HR').
destruct ws as [| cl [j |] | cl j | cl]; cbn in Hws; try done;
  cbn [held_node option_list app] in HR.
- (* AtLoad *)
  injection Hws as <- <-. cbn [held_node option_list app] in HR'.
  constructor; cbn [sh workers]; try done.
  + unfold claimed_nodes in *. cbn [sh workers]. by rewrite HR', <- HR.
  + intros w' cl' j'. rewrite (lookup_insert_worker _ _ _ _ _ Hw).
    case_decide; [| by apply Hloop]. intros Hx. apply Hhead. congruence.
  + intros w' cl'. rewrite (lookup_insert_worker _ _ _ _ _ Hw).
    case_decide; [| by apply Hnone]. intros [Hx | Hx]; congruence.
  + by rewrite length_insert.
- (* AtLoop (Some j) : cmpxchg *)
  case_bool_decide as Hcas; injection Hws as <- <-.
  + (* success *)
    assert (Hj : (j < length bufs)%nat) by (by apply Hhead).
    assert (Hpos : head_pos (task (sh st)) = j) by (unfold head_pos; by rewrite Hcas).
    assert (Hpos' : head_pos (with_nodes (task (sh st)) (next (task (sh st)) j)) = S j).
    { unfold head_pos. cbn [nodes with_nodes rdcqs].
      destruct (next (task (sh st)) j) as [k |] eqn:Hnext.
      - by apply next_Some in Hnext as [-> _].
      - apply next_None in Hnext. rewrite Hrd in *. lia. }
    constructor; cbn [sh workers task processed]; try done.
    * intros k [-> Hlt]%next_Some. by rewrite Hrd in Hlt.
    * unfold claimed_nodes in *. cbn [sh workers task processed].
      rewrite Hpos', HR'. cbn [held_node option_list].
      rewrite seq_S. cbn. rewrite <- Hpos, <- Hcl, HR. cbn [held_node option_list app].
      rewrite <- Permutation_middle, <- Permutation_cons_append. done.
    * intros w' cl' j'. rewrite (lookup_insert_worker _ _ _ _ _ Hw).
      case_decide; [done | by apply Hloop].
    * intros w' cl'. rewrite (lookup_insert_worker _ _ _ _ _ Hw).
      case_decide; [by intros [[=] | [=]] |].
      intros Hx. apply Hnone in Hx. congruence.
    * by rewrite length_insert.
  + (* failure *)
    cbn [held_node option_list app] in HR'.
    constructor; cbn [sh workers]; try done.
    * unfold claimed_nodes in *. cbn [sh workers]. by rewrite HR', <- HR.
    * intros w' cl' j'. rewrite (lookup_insert_worker _ _ _ _ _ Hw).
      case_decide; [| by apply Hloop]. intros Hx. apply Hhead. congruence.
    * intros w' cl'. rewrite (lookup_insert_worker _ _ _ _ _ Hw).
      case_decide; [| by apply Hnone]. intros [Hx | Hx]; congruence.
    * by rewrite length_insert.
- (* AtLoop None *)
  injection Hws as <- <-.
  assert (Hn : nodes (task (sh st)) = None) by (eapply Hnone; by left).
  cbn [held_node option_list app] in HR'.
  constructor; cbn [sh workers task processed]; try done.
  + unfold claimed_nodes in *. cbn [sh workers task processed].
    rewrite HR', <- HR. done.
  + intros w' cl' j'. rewrite (lookup_insert_worker _ _ _ _ _ Hw).
    case_decide; [done | by apply Hloop].
  + by rewrite length_insert.
- (* Claimed *)
  destruct (held_node_valid bufs st w cl j Hinv Hw) as [Hjpos Hj].
  destruct (lookup_lt_is_Some_2 bufs j Hj) as [buf Hbuf].
  rewrite Hrd, Hbuf in Hws. injection Hws as <- <-.
  constructor; cbn [sh workers task processed]; try done.
  + unfold claimed_nodes in *. cbn [sh workers task processed].
    rewrite fmap_app. cbn. rewrite HR'. cbn [held_node option_list app].
    rewrite <- Hcl, HR. cbn [held_node option_list app].
    rewrite <- app_assoc. done.
  + intros w' cl' j'. rewrite (lookup_insert_worker _ _ _ _ _ Hw).
    case_decide; [| by apply Hloop]. intros [= _ [-> Hlt]%next_Some].
    by rewrite Hrd in Hlt.
  + intros w' cl'. rewrite (lookup_insert_worker _ _ _ _ _ Hw).
    case_decide; [| by apply Hnone]. intros [[= _ Hlt%next_None] | [=]].
    rewrite Hrd in Hlt.
    destruct (nodes (task (sh st))) as [k |] eqn:Hk; [| done].
    specialize (Hhead k eq_refl). unfold head_pos in Hjpos. rewrite Hk in Hjpos. lia.
  + rewrite length_insert. apply Forall_app. split; [done |].
    apply Forall_singleton. cbn. by eapply lookup_lt_Some.
Qed.


Lemma omap_held_replicate n : omap held_node (replicate n AtLoad) = [].
Proof. induction n as [| n IH]; [done |]. cbn. exact IH. Qed.

Lemma par_init_inv bufs efr h n :
redirty_inv bufs (par_init (new bufs efr) h n).
Proof.
constructor; cbn.
- done.
- intros k. destruct bufs; cbn; [done |]. intros [= <-]. lia.
- unfold claimed_nodes, head_pos. cbn. rewrite omap_held_replicate.
  destruct bufs; done.
- intros w cl j Hw. apply lookup_replicate in Hw as [? _]. done.
- intros w cl [Hw | Hw]; apply lookup_replicate in Hw as [? _]; done.
- done.
Qed.

Lemma par_steps_inv bufs st st' :
redirty_inv bufs st -> par_steps st st' -> redirty_inv bufs st'.
Proof.
intros Hinv Hsteps. induction Hsteps as [| st1 st2 st3 Hstep _ IH]; [done |].
apply IH. by eapply par_step_inv.
Qed.

Lemma par_step_length st st' :
par_step st st' -> length (workers st') = length (workers st).
Proof. intros []. cbn. apply length_insert. Qed.

Lemma par_steps_length st st' :
par_steps st st' -> length (workers st') = length (workers st).
Proof.
induction 1 as [| st1 st2 st3 Hstep _ IH]; [done |].
rewrite IH. by apply par_step_length.
Qed.

Lemma all_finished_held st :
all_finished st = true -> omap held_node (workers st) = [].
Proof.
unfold all_finished. induction (workers st) as [| ws l IH]; [done |].
cbn. intros [Hf Hl]%andb_true_iff. destruct ws; try done. cbn. by apply IH.
Qed.

Lemma all_finished_head bufs st :
redirty_inv bufs st -> all_finished st = true -> (0 < length (workers st))%nat ->
nodes (task (sh st)) = None.
Proof.
intros Hinv Hfin Hlen.
destruct (workers st) as [| ws l] eqn:Hws; [cbn in Hlen; lia |].
unfold all_finished in Hfin. rewrite Hws in Hfin. cbn in Hfin.
apply andb_true_iff in Hfin as [Hf _]. destruct ws as [| | | cl]; try done.
eapply (ri_none _ _ Hinv 0%nat cl). right. by rewrite Hws.
Qed.

Lemma par_step_progress st :
all_finished st = false -> exists st', par_step st st'.
Proof.
unfold all_finished. intros Hnf.
assert (Hex : exists w ws, workers st !! w = Some ws /\ is_finished ws = false).
{ induction (workers st) as [| ws l IH]; [done |]. cbn in Hnf.
  destruct (is_finished ws) eqn:Hf.
  - destruct (IH Hnf) as (w & ws' & Hw & Hf'). by exists (S w), ws'.
  - by exists 0%nat, ws. }
destruct Hex as (w & ws & Hw & Hf).
destruct (worker_step w ws (sh st)) as [ws' sh'] eqn:Hstep.
eexists. by eapply par_step_worker.
Qed.


Lemma remaining_cost_head head head' ws :
(remaining_cost head' ws <= remaining_cost head ws + 1)%nat.
Proof. destruct ws as [| cl [j |] | |]; cbn; repeat case_bool_decide; lia. Qed.

Lemma sum_remaining_cost_head head head' l :
(sum_list_with (remaining_cost head') l <= sum_list_with (remaining_cost head) l + length l)%nat.
Proof.
induction l as [| ws l IH]; cbn; [lia |].
pose proof (remaining_cost_head head head' ws). lia.
Qed.

Lemma par_step_measure bufs st st' :
redirty_inv bufs st -> par_step st st' ->
(redirty_measure st' < redirty_measure st)%nat.
Proof.
intros Hinv Hstep. destruct Hstep as [st w ws ws' sh' Hw Hnf Hws].
pose proof Hinv as [Hrd Hhead Hcl Hloop Hnone Hwk].
destruct (split_worker (workers st) w ws ws' Hw) as (l1 & l2 & Hl & Hl' & _).
unfold redirty_measure. cbn [sh workers]. rewrite Hl', Hl.
rewrite !length_app. cbn [length]. rewrite !sum_list_with_app. cbn [sum_list_with].
destruct ws as [| cl [j |] | cl j | cl]; cbn in Hws; try done.
- injection Hws as <- <-. cbn [remaining_cost].
  destruct (nodes (task (sh st))); [rewrite bool_decide_eq_true_2 by done |]; lia.
- case_bool_decide as Hcas; injection Hws as <- <-.
  + assert (Hj : (j < length bufs)%nat) by (by apply Hhead).
    assert (Hpos : head_pos (task (sh st)) = j) by (unfold head_pos; by rewrite Hcas).
    assert (Hpos' : head_pos (with_nodes (task (sh st)) (next (task (sh st)) j)) = S j).
    { unfold head_pos. cbn [nodes with_nodes rdcqs].
      destruct (next (task (sh st)) j) as [k |] eqn:Hnext.
      - by apply next_Some in Hnext as [-> _].
      - apply next_None in Hnext. rewrite Hrd in *. lia. }
    cbn [task]. rewrite Hpos', Hpos. cbn [with_nodes rdcqs nodes remaining_cost].
    rewrite Hrd, Hcas. rewrite bool_decide_eq_true_2 by done.
    pose proof (sum_remaining_cost_head (Some j) (next (task (sh st)) j) l1).
    pose proof (sum_remaining_cost_head (Some j) (next (task (sh st)) j) l2).
    destruct (length bufs - j)%nat as [| d] eqn:Hd; [lia |].
    replace (length bufs - S j)%nat with d by lia. nia.
  + cbn [remaining_cost]. rewrite (bool_decide_eq_false_2 (_ = Some j)) by done.
    destruct (nodes (task (sh st))); [rewrite bool_decide_eq_true_2 by done |]; lia.
- injection Hws as <- <-. cbn [task record_work_item rdcqs nodes remaining_cost].
  unfold head_pos. cbn [record_work_item rdcqs nodes]. lia.
- destruct (held_node_valid bufs st w cl j Hinv Hw) as [Hjpos Hj].
  destruct (lookup_lt_is_Some_2 bufs j Hj) as [buf Hbuf].
  rewrite Hrd, Hbuf in Hws. injection Hws as <- <-.
  cbn [task remaining_cost].
  destruct (next (task (sh st)) j); [case_bool_decide |]; lia.
Qed.

Lemma par_step_terminates bufs st :
redirty_inv bufs st -> Acc (fun st2 st1 => par_step st1 st2) st.
Proof.
remember (redirty_measure st) as m eqn:Hm.
revert st Hm. induction m as [m IH] using lt_wf_ind. intros st -> Hinv.
constructor. intros st' Hstep.
eapply IH; [| reflexivity |].
- by eapply par_step_measure.
- by eapply par_step_inv.
Qed.

Lemma redirty_destroy_ok (this : RedirtyLoggedCardsTask.t) h :
exists this' h',
  destroy this h = Ok this' h'
  /\ dirty_card_queue_set h' = dirty_card_queue_set h ++ rdcqs this
  /\ rdcqs this' = []
  /\ card_table h' = card_table h.
Proof.
unfold destroy. erewrite bind_Ok by reflexivity.
erewrite bind_Ok by apply assert_true.
eexists _, _. split; [reflexivity |]. done.
Qed.

(** C9 (amended).  For every pool of at least one worker running [do_work]
  concurrently and every interleaving of their atomic actions: a node is
  claimed by the worker whose compare-and-swap moved the shared head off
  it, so no node is processed twice, and only nodes of the chain are
  processed, each by a worker of the pool; every run ends, and a worker
  that has not finished can always take its next action; when all
  workers have finished the head is null and every node of the chain has
  been processed exactly once.  Teardown then hands the buffers over to
  the shared dirty-card queue set and finds the redirty queue set (the
  working set, not the shared one) empty. *)
Theorem redirty_buffers_drained_exactly_once (bufs : list BufferNode)
  (efr : G1EvacFailureRegions) (h : G1CollectedHeap) (n : nat) (st : par_state) :
(0 < n)%nat ->
par_steps (par_init (new bufs efr) h n) st ->
NoDup (processed (sh st)).*2
/\ Forall (fun e => (e.1 < n)%nat /\ (e.2 < length bufs)%nat) (processed (sh st))
/\ Acc (fun st2 st1 => par_step st1 st2) st
/\ (all_finished st = false -> exists st', par_step st st')
/\ (all_finished st = true ->
    (processed (sh st)).*2 ≡ₚ seq 0 (length bufs)
    /\ nodes (task (sh st)) = None
    /\ exists this' h',
        destroy (task (sh st)) (g1h (sh st)) = Ok this' h'
        /\ dirty_card_queue_set h'
           = dirty_card_queue_set (g1h (sh st)) ++ bufs
        /\ rdcqs this' = []).
Proof.
intros Hn Hsteps.
pose proof (par_steps_inv bufs _ _ (par_init_inv bufs efr h n) Hsteps) as Hinv.
pose proof (par_steps_length _ _ Hsteps) as Hlen. cbn in Hlen.
rewrite length_replicate in Hlen.
pose proof Hinv as [Hrd Hhead Hcl Hloop Hnone Hwk].
assert (Hnd : NoDup (claimed_nodes st)) by (rewrite Hcl; apply NoDup_seq).
split; [| split; [| split; [| split]]].
- unfold claimed_nodes in Hnd. by apply NoDup_app in Hnd as [? _].
- apply Forall_forall. intros [w j] Hin.
  rewrite Forall_forall in Hwk. specialize (Hwk _ Hin). cbn in *.
  split; [lia |].
  assert (Hj : j ∈ claimed_nodes st).
  { unfold claimed_nodes. apply elem_of_app. left.
    by apply (list_elem_of_fmap_2 snd) in Hin. }
  rewrite Hcl in Hj. apply elem_of_seq in Hj.
  pose proof (head_pos_le (task (sh st))) as Hle. rewrite Hrd in Hle.
  specialize (Hle Hhead). lia.
- by eapply par_step_terminates.
- apply par_step_progress.
- intros Hfin.
  assert (Hnone' : nodes (task (sh st)) = None).
  { eapply all_finished_head; [done | done | lia]. }
  split; [| split; [done |]].
  + unfold claimed_nodes in Hcl. rewrite (all_finished_held _ Hfin), app_nil_r in Hcl.
    rewrite Hcl. unfold head_pos. by rewrite Hnone', Hrd.
  + destruct (redirty_destroy_ok (task (sh st)) (g1h (sh st))) as (this' & h' & Hd & Hdcq & Hr & _).
    exists this', h'. by rewrite Hrd in Hdcq.
Qed.


Lemma par_step_fn_steps w st : par_steps st (par_step_fn w st).
Proof.
unfold par_step_fn. destruct (workers st !! w) as [ws |] eqn:Hw; [| constructor].
destruct (is_finished ws) eqn:Hf; [constructor |].
destruct (worker_step w ws (sh st)) as [ws' sh'] eqn:Hstep.
eapply par_steps_step; [| constructor]. by eapply par_step_worker.
Qed.

Lemma par_steps_trans st1 st2 st3 :
par_steps st1 st2 -> par_steps st2 st3 -> par_steps st1 st3.
Proof.
induction 1 as [| s1 s2 s3 Hstep _ IH]; [done |].
intros H23. eapply par_steps_step; [done | by apply IH].
Qed.

Lemma run_schedule_steps schedule st : par_steps st (run_schedule schedule st).
Proof.
revert st. induction schedule as [| w schedule IH]; intros st; [constructor |].
cbn. eapply par_steps_trans; [apply par_step_fn_steps | apply IH].
Qed.

End RedirtyDrain.

(** Two workers, two buffers: worker 1 wins the first node, worker 0 the
    second; at the join both nodes are processed once. *)
Lemma redirty_buffers_drained_exactly_once_witness :
  RedirtyLoggedCardsTask.all_finished redirty_final = true
  /\ RedirtyLoggedCardsTask.processed (RedirtyLoggedCardsTask.sh redirty_final)
     = [(1, 0); (0, 1)]%nat
  /\ (RedirtyLoggedCardsTask.processed (RedirtyLoggedCardsTask.sh redirty_final)).*2
     ≡ₚ seq 0 2.
Proof.
  assert (Hfin : RedirtyLoggedCardsTask.all_finished redirty_final = true)
    by (vm_compute; reflexivity).
  split; [exact Hfin |]. split; [vm_compute; reflexivity |].
  destruct (redirty_buffers_drained_exactly_once (H := cfg_debug)
              [bufferC; bufferD] efrA heapA 2 redirty_final ltac:(lia)
              (run_schedule_steps (H := cfg_debug) redirty_schedule redirty_start))
    as (_ & _ & _ & _ & Hjoin).
  destruct (Hjoin Hfin) as (Hperm & _). exact Hperm.
Defined.

(** After the same run and the teardown, the shared dirty-card queue set
    holds the two buffers: it is the redirty queue set that is empty. *)
Lemma shared_queue_set_not_empty_after_teardown :
  RedirtyLoggedCardsTask.all_finished redirty_final = true
  /\ exists this' h',
      RedirtyLoggedCardsTask.destroy (H := cfg_debug)
        (RedirtyLoggedCardsTask.task (RedirtyLoggedCardsTask.sh redirty_final))
        (RedirtyLoggedCardsTask.g1h (RedirtyLoggedCardsTask.sh redirty_final)) = Ok this' h'
      /\ RedirtyLoggedCardsTask.rdcqs this' = []
      /\ dirty_card_queue_set h' = [bufferC; bufferD]
      /\ dirty_card_queue_set h' <> [].
Proof.
  split; [vm_compute; reflexivity |].
  eexists _, _. split; [vm_compute; reflexivity |].
  split; [reflexivity |]. split; [reflexivity |]. discriminate.
Qed.

(** ** The result of the redirty drain *)

Section RedirtyResult.
Context `{VMConfig}.
Import RedirtyLoggedCardsTask.

Lemma apply_to_buffer_frame cl node worker_id h cl' h' :
  RedirtyLoggedCardTableEntryClosure.apply_to_buffer cl node worker_id h = Ok cl' h' ->
  h' = upd_card_table (fun _ => card_table h') h.
Proof.
  unfold RedirtyLoggedCardTableEntryClosure.apply_to_buffer.
  generalize (logged_cards node) as cards. intros cards.
  revert cl h. induction cards as [| c cards IH]; intros cl h Hrun.
  - apply mret_Ok_inv in Hrun as [_ <-]. by destruct h.
  - cbn [foldM] in Hrun. apply bind_Ok_inv in Hrun as (cl1 & h1 & Hc & Hrun).
    apply IH in Hrun. etrans; [exact Hrun |]. clear Hrun.
    unfold RedirtyLoggedCardTableEntryClosure.do_card_ptr in Hc.
    apply bind_Ok_inv in Hc as (free & h0 & Hg & Hc).
    unfold gets in Hg. injection Hg as <- <-.
    destruct (negb _).
    + apply bind_Ok_inv in Hc as (? & h2 & Hm & Hc).
      apply mret_Ok_inv in Hc as [_ <-].
      unfold modify in Hm. injection Hm as _ <-. reflexivity.
    + apply mret_Ok_inv in Hc as [_ <-]. reflexivity.
Qed.

Lemma processed_dirtied_snoc efr h bufs done e :
  processed_dirtied efr h bufs (done ++ [e])
  = processed_dirtied efr h bufs done ++ node_dirtied efr h bufs e.2.
Proof.
  unfold processed_dirtied. rewrite fmap_app, join_app. cbn. by rewrite app_nil_r.
Qed.

Lemma worker_dirtied_snoc efr h bufs done e w :
  worker_dirtied efr h bufs (done ++ [e]) w
  = (worker_dirtied efr h bufs done w
     + if bool_decide (e.1 = w) then length (node_dirtied efr h bufs e.2) else 0)%nat.
Proof.
  unfold worker_dirtied. rewrite sum_list_with_app. cbn. lia.
Qed.

Lemma par_init_result_inv bufs efr h n :
  redirty_result_inv bufs efr h (par_init (new bufs efr) h n).
Proof.
  constructor; cbn.
  - done.
  - by destruct h.
  - intros c. by rewrite bool_decide_eq_false_2 by apply not_elem_of_nil.
  - done.
  - intros w ws cl [-> _]%lookup_replicate. done.
  - intros w cl [? _]%lookup_replicate. done.
Qed.

Lemma wrap_size_t_range z : 0 <= wrap_size_t z < 2 ^ 64.
Proof. unfold wrap_size_t, size_t_bits. apply Z.mod_pos_bound. lia. Qed.

Lemma par_step_result_inv bufs efr h st st' :
  redirty_inv bufs st -> redirty_result_inv bufs efr h st ->
  par_step st st' -> redirty_result_inv bufs efr h st'.
Proof.
  intros Hinv Hres Hstep. destruct Hstep as [st w ws ws' sh' Hw Hnf Hws].
  pose proof Hinv as [Hrd Hhead Hcl Hloop Hnone Hwk].
  pose proof Hres as [Hefr Hframe Hcards Hfresh Hclos Hitems].
  destruct ws as [| cl [j |] | cl j | cl]; cbn in Hws; try done.
  - (* AtLoad *)
    injection Hws as <- <-. constructor; cbn; try done.
    + intros w' Hw'. rewrite (lookup_insert_worker _ _ _ _ _ Hw) in Hw'.
      case_decide; [done | by apply Hfresh].
    + intros w' ws0 cl0 Hw' Hcl0. rewrite (lookup_insert_worker _ _ _ _ _ Hw) in Hw'.
      case_decide as Hd.
      * injection Hw' as <-. cbn in Hcl0. injection Hcl0 as <-. subst w'.
        cbn. split; [done |]. by rewrite (Hfresh w Hw).
      * by eapply Hclos.
    + intros w' cl0 Hw'. rewrite (lookup_insert_worker _ _ _ _ _ Hw) in Hw'.
      case_decide; [done | by apply Hitems].
  - (* AtLoop, Some j *)
    case_bool_decide as Hhd; injection Hws as <- <-; constructor; cbn; try done.
    + intros w' Hw'. rewrite (lookup_insert_worker _ _ _ _ _ Hw) in Hw'.
      case_decide; [done | by apply Hfresh].
    + intros w' ws0 cl0 Hw' Hcl0. rewrite (lookup_insert_worker _ _ _ _ _ Hw) in Hw'.
      case_decide as Hd.
      * injection Hw' as <-. cbn in Hcl0. injection Hcl0 as <-. subst w'.
        by apply (Hclos w _ cl Hw).
      * by eapply Hclos.
    + intros w' cl0 Hw'. rewrite (lookup_insert_worker _ _ _ _ _ Hw) in Hw'.
      case_decide; [done | by apply Hitems].
    + intros w' Hw'. rewrite (lookup_insert_worker _ _ _ _ _ Hw) in Hw'.
      case_decide; [done | by apply Hfresh].
    + intros w' ws0 cl0 Hw' Hcl0. rewrite (lookup_insert_worker _ _ _ _ _ Hw) in Hw'.
      case_decide as Hd.
      * injection Hw' as <-. cbn in Hcl0. injection Hcl0 as <-. subst w'.
        by apply (Hclos w _ cl Hw).
      * by eapply Hclos.
    + intros w' cl0 Hw'. rewrite (lookup_insert_worker _ _ _ _ _ Hw) in Hw'.
      case_decide; [done | by apply Hitems].
  - (* AtLoop, None *)
    injection Hws as <- <-. constructor; cbn; try done.
    + intros w' Hw'. rewrite (lookup_insert_worker _ _ _ _ _ Hw) in Hw'.
      case_decide; [done | by apply Hfresh].
    + intros w' ws0 cl0 Hw' Hcl0. rewrite (lookup_insert_worker _ _ _ _ _ Hw) in Hw'.
      case_decide as Hd.
      * injection Hw' as <-. cbn in Hcl0. injection Hcl0 as <-. subst w'.
        by apply (Hclos w _ cl Hw).
      * by eapply Hclos.
    + intros w' cl0 Hw'. rewrite (lookup_insert_worker _ _ _ _ _ Hw) in Hw'.
      case_decide as Hd.
      * injection Hw' as <-. subst w'. by rewrite lookup_insert_eq.
      * rewrite lookup_insert_ne by done. by apply Hitems.
  - (* Claimed *)
    destruct (held_node_valid bufs st w cl j Hinv Hw) as [_ Hj].
    destruct (lookup_lt_is_Some_2 bufs j Hj) as [buf Hbuf].
    rewrite Hrd, Hbuf in Hws.
    destruct (Hclos w _ cl Hw eq_refl) as [Hcefr Hcnum].
    destruct (apply_to_buffer_counts cl buf w (g1h (sh st)))
      as (cl' & h' & Hrun & Hnum & Hefr' & Hcs & Hct).
    { rewrite Hcnum. apply wrap_size_t_range. }
    pose proof (apply_to_buffer_frame _ _ _ _ _ _ Hrun) as Hfr.
    rewrite Hrun in Hws. cbn in Hws. injection Hws as <- <-.
    assert (Hdc : dirtied_cards (RedirtyLoggedCardTableEntryClosure.evac_failure_regions cl)
                    (g1h (sh st)) (logged_cards buf)
                  = node_dirtied efr h bufs j).
    { unfold node_dirtied. rewrite Hbuf, Hcefr. apply dirtied_cards_stable.
      by rewrite Hframe. }
    rewrite Hdc in Hnum, Hct.
    constructor; cbn [sh g1h processed task workers final_state].
    + done.
    + rewrite Hfr, Hframe. reflexivity.
    + intros c. rewrite Hct, Hcards, processed_dirtied_snoc. cbn [snd].
      destruct (decide (c ∈ node_dirtied efr h bufs j)) as [Hin | Hin].
      * rewrite !bool_decide_eq_true_2; [done | apply elem_of_app; by right | done].
      * rewrite (bool_decide_eq_false_2 (c ∈ node_dirtied efr h bufs j)) by done.
        rewrite (bool_decide_ext (c ∈ _ ++ _)
                   (c ∈ processed_dirtied efr h bufs (processed (sh st)))); [done |].
        rewrite elem_of_app. tauto.
    + intros w' Hw'. rewrite (lookup_insert_worker _ _ _ _ _ Hw) in Hw'.
      case_decide as Hd; [done |].
      rewrite worker_dirtied_snoc. cbn. rewrite bool_decide_eq_false_2 by done.
      rewrite (Hfresh w' Hw'). done.
    + intros w' ws0 cl0 Hw' Hcl0. rewrite (lookup_insert_worker _ _ _ _ _ Hw) in Hw'.
      rewrite worker_dirtied_snoc. cbn.
      case_decide as Hd.
      * injection Hw' as <-. cbn in Hcl0. injection Hcl0 as <-. subst w'.
        rewrite bool_decide_eq_true_2 by done.
        split; [congruence |].
        rewrite Hnum, Hcnum, wrap_size_t_add_l. f_equal. lia.
      * rewrite bool_decide_eq_false_2 by done. rewrite Nat.add_0_r. by eapply Hclos.
    + intros w' cl0 Hw'. rewrite (lookup_insert_worker _ _ _ _ _ Hw) in Hw'.
      case_decide; [done | by apply Hitems].
Qed.

Lemma par_steps_result_inv bufs efr h st st' :
  redirty_inv bufs st -> redirty_result_inv bufs efr h st ->
  par_steps st st' -> redirty_result_inv bufs efr h st'.
Proof.
  intros Hinv Hres Hsteps. induction Hsteps as [| s1 s2 s3 Hstep _ IH]; [done |].
  apply IH; [by eapply par_step_inv | by eapply par_step_result_inv].
Qed.

Lemma all_finished_processed bufs st :
  redirty_inv bufs st -> all_finished st = true -> (0 < length (workers st))%nat ->
  (processed (sh st)).*2 ≡ₚ seq 0 (length bufs).
Proof.
  intros Hinv Hfin Hn. pose proof Hinv as [Hrd _ Hcl _ _ _].
  unfold claimed_nodes in Hcl. rewrite (all_finished_held _ Hfin), app_nil_r in Hcl.
  rewrite Hcl. unfold head_pos.
  by rewrite (all_finished_head bufs st Hinv Hfin Hn), Hrd.
Qed.

Lemma elem_of_node_dirtied efr h bufs j c :
  c ∈ node_dirtied efr h bufs j
  <-> exists buf, bufs !! j = Some buf /\ c ∈ dirtied_cards efr h (logged_cards buf).
Proof.
  unfold node_dirtied. destruct (bufs !! j) as [buf |].
  - split; [by exists buf | by intros (? & [= <-] & ?)].
  - split; [by intros ?%elem_of_nil | by intros (? & ? & _)].
Qed.

Lemma elem_of_dirtied_all efr h bufs c :
  c ∈ dirtied_cards efr h (all_logged_cards bufs)
  <-> exists j, (j < length bufs)%nat /\ c ∈ node_dirtied efr h bufs j.
Proof.
  unfold dirtied_cards, all_logged_cards.
  rewrite list_elem_of_filter, list_elem_of_join. split.
  - intros (Hret & l & Hc & (buf & -> & Hbuf)%list_elem_of_fmap).
    apply list_elem_of_lookup in Hbuf as [j Hj]. exists j.
    split; [by eapply lookup_lt_Some |].
    apply elem_of_node_dirtied. exists buf. split; [done |].
    unfold dirtied_cards. by apply list_elem_of_filter.
  - intros (j & _ & (buf & Hj & Hc)%elem_of_node_dirtied).
    unfold dirtied_cards in Hc. apply list_elem_of_filter in Hc as [Hret Hc].
    split; [done |]. exists (logged_cards buf). split; [done |].
    apply list_elem_of_fmap. exists buf. split; [done |].
    by eapply list_elem_of_lookup_2.
Qed.

Lemma elem_of_processed_dirtied efr h bufs done c :
  done.*2 ≡ₚ seq 0 (length bufs) ->
  c ∈ processed_dirtied efr h bufs done
  <-> c ∈ dirtied_cards efr h (all_logged_cards bufs).
Proof.
  intros Hperm. rewrite elem_of_dirtied_all. unfold processed_dirtied.
  rewrite list_elem_of_join. split.
  - intros (l & Hc & (e & -> & He)%list_elem_of_fmap).
    exists e.2. split; [| done].
    assert (Hin : e.2 ∈ done.*2) by (by apply list_elem_of_fmap_2).
    rewrite Hperm in Hin. apply elem_of_seq in Hin. lia.
  - intros (j & Hj & Hc).
    assert (Hin : j ∈ done.*2) by (rewrite Hperm; apply elem_of_seq; lia).
    apply list_elem_of_fmap in Hin as (e & -> & He).
    exists (node_dirtied efr h bufs e.2). split; [done |].
    apply list_elem_of_fmap. by exists e.
Qed.

Lemma sum_list_with_add {A} (f g : A -> nat) l :
  sum_list_with (fun x => f x + g x)%nat l = (sum_list_with f l + sum_list_with g l)%nat.
Proof. induction l as [| x l IH]; [done |]. cbn. lia. Qed.

Lemma sum_list_with_indicator (x : nat) (v : nat) l :
  NoDup l -> x ∈ l ->
  sum_list_with (fun w => if bool_decide (x = w) then v else 0%nat) l = v.
Proof.
  induction l as [| y l IH]; intros Hnd Hin; [by apply elem_of_nil in Hin |].
  apply NoDup_cons in Hnd as [Hy Hnd]. cbn.
  apply elem_of_cons in Hin as [-> | Hin].
  - rewrite bool_decide_eq_true_2 by done.
    assert (sum_list_with (fun w => if bool_decide (y = w) then v else 0%nat) l = 0%nat)
      as ->; [| lia].
    clear IH Hnd. induction l as [| z l IH]; [done |].
    apply not_elem_of_cons in Hy as [Hne Hy]. cbn.
    rewrite bool_decide_eq_false_2 by done. by rewrite IH.
  - rewrite bool_decide_eq_false_2 by (intros ->; done). by rewrite IH.
Qed.

Lemma sum_worker_dirtied efr h bufs done n :
  Forall (fun e => (e.1 < n)%nat) done ->
  sum_list_with (worker_dirtied efr h bufs done) (seq 0 n)
  = sum_list_with (fun j => length (node_dirtied efr h bufs j)) (done.*2).
Proof.
  induction done as [| e done IH]; intros Hall.
  - cbn. induction (seq 0 n) as [| w l IHl]; [done |]. cbn. by rewrite IHl.
  - apply Forall_cons in Hall as [He Hall].
    change (worker_dirtied efr h bufs (e :: done))
      with (fun w => ((if bool_decide (e.1 = w)
                       then length (node_dirtied efr h bufs e.2) else 0)
                      + worker_dirtied efr h bufs done w)%nat).
    rewrite sum_list_with_add, IH by done.
    rewrite sum_list_with_indicator; [done | apply NoDup_seq | apply elem_of_seq; lia].
Qed.

Lemma sum_list_with_fmap {A B} (f : B -> nat) (g : A -> B) l :
  sum_list_with f (g <$> l) = sum_list_with (fun x => f (g x)) l.
Proof. induction l as [| x l IH]; [done |]. cbn. by rewrite IH. Qed.

Lemma sum_node_dirtied efr h bufs :
  sum_list_with (fun j => length (node_dirtied efr h bufs j)) (seq 0 (length bufs))
  = length (dirtied_cards efr h (all_logged_cards bufs)).
Proof.
  induction bufs as [| buf bufs IH]; [done |].
  cbn [length seq]. rewrite <- fmap_S_seq.
  change (sum_list_with ?f (0%nat :: ?l)) with (f 0%nat + sum_list_with f l)%nat.
  rewrite sum_list_with_fmap.
  change (fun x => length (node_dirtied efr h (buf :: bufs) (S x)))
    with (fun x => length (node_dirtied efr h bufs x)).
  rewrite IH.
  change (node_dirtied efr h (buf :: bufs) 0) with (dirtied_cards efr h (logged_cards buf)).
  change (all_logged_cards (buf :: bufs)) with (logged_cards buf ++ all_logged_cards bufs).
  unfold dirtied_cards. by rewrite filter_app, length_app.
Qed.

(** X1.  The card table the drain leaves behind does not depend on the
    interleaving nor on the number of workers: once all workers have
    finished, the heap differs from the heap before the drain in the card
    table only, and there a card is dirty exactly when it is logged in some
    buffer of the chain and lies in a retained region; every other card
    has the value it had. *)
Theorem redirty_result_independent_of_schedule (bufs : list BufferNode)
    (efr : G1EvacFailureRegions) (h : G1CollectedHeap) (n : nat) (st : par_state) :
  (0 < n)%nat ->
  par_steps (par_init (new bufs efr) h n) st ->
  all_finished st = true ->
  g1h (sh st) = upd_card_table (fun _ => card_table (g1h (sh st))) h
  /\ (forall c,
        card_table (g1h (sh st)) !! c
        = if bool_decide (c ∈ dirtied_cards efr h (all_logged_cards bufs))
          then Some dirty_card_val else card_table h !! c)
  /\ (forall m st2, (0 < m)%nat ->
        par_steps (par_init (new bufs efr) h m) st2 ->
        all_finished st2 = true ->
        g1h (sh st2) = g1h (sh st)).
Proof.
  assert (Hone : forall k s, (0 < k)%nat ->
            par_steps (par_init (new bufs efr) h k) s -> all_finished s = true ->
            g1h (sh s) = upd_card_table (fun _ => card_table (g1h (sh s))) h
            /\ forall c, card_table (g1h (sh s)) !! c
                 = if bool_decide (c ∈ dirtied_cards efr h (all_logged_cards bufs))
                   then Some dirty_card_val else card_table h !! c).
  { intros k s Hk Hsteps Hfin.
    pose proof (par_steps_inv bufs _ _ (par_init_inv bufs efr h k) Hsteps) as Hinv.
    pose proof (par_steps_result_inv bufs efr h _ _ (par_init_inv bufs efr h k)
                  (par_init_result_inv bufs efr h k) Hsteps) as [_ Hframe Hcards _ _ _].
    pose proof (par_steps_length _ _ Hsteps) as Hlen. cbn in Hlen.
    rewrite length_replicate in Hlen.
    split; [done |]. intros c. rewrite Hcards.
    apply (f_equal (fun b : bool => if b then _ else _)).
    apply bool_decide_ext, elem_of_processed_dirtied.
    apply all_finished_processed; [done | done | lia]. }
  intros Hn Hsteps Hfin.
  destruct (Hone n st Hn Hsteps Hfin) as [Hframe Hcards].
  split; [done |]. split; [done |].
  intros m st2 Hm Hsteps2 Hfin2.
  destruct (Hone m st2 Hm Hsteps2 Hfin2) as [Hframe2 Hcards2].
  rewrite Hframe, Hframe2. f_equal.
  assert (card_table (g1h (sh st2)) = card_table (g1h (sh st))) as ->; [| done].
  apply map_eq. intros c. by rewrite Hcards, Hcards2.
Qed.

(** X2.  The work items the workers record add up to the log: once all
    workers have finished, worker [w] has recorded (as a [size_t]) the
    number of log entries it dirtied itself, and over the pool these
    numbers add up to the number of logged entries that lie in retained
    regions - every entry counted once, by the worker that claimed its
    buffer. *)
Theorem redirty_work_items_add_up (bufs : list BufferNode)
    (efr : G1EvacFailureRegions) (h : G1CollectedHeap) (n : nat) (st : par_state) :
  (0 < n)%nat ->
  par_steps (par_init (new bufs efr) h n) st ->
  all_finished st = true ->
  (forall w, (w < n)%nat ->
     work_items (task (sh st)) !! w
     = Some (wrap_size_t
               (Z.of_nat (worker_dirtied efr h bufs (processed (sh st)) w))))
  /\ sum_list_with (worker_dirtied efr h bufs (processed (sh st))) (seq 0 n)
     = length (dirtied_cards efr h (all_logged_cards bufs)).
Proof.
  intros Hn Hsteps Hfin.
  pose proof (par_steps_inv bufs _ _ (par_init_inv bufs efr h n) Hsteps) as Hinv.
  pose proof (par_steps_result_inv bufs efr h _ _ (par_init_inv bufs efr h n)
                (par_init_result_inv bufs efr h n) Hsteps) as [_ _ _ _ Hclos Hitems].
  pose proof (par_steps_length _ _ Hsteps) as Hlen. cbn in Hlen.
  rewrite length_replicate in Hlen.
  split.
  - intros w Hw.
    destruct (lookup_lt_is_Some_2 (workers st) w) as [ws Hws]; [lia |].
    unfold all_finished in Hfin. rewrite forallb_forall in Hfin.
    assert (Hf : is_finished ws = true).
    { apply Hfin. apply list_elem_of_In. by eapply list_elem_of_lookup_2. }
    destruct ws as [| | | cl]; try done.
    rewrite (Hitems w cl Hws). f_equal. by apply (Hclos w _ cl Hws).
  - pose proof Hinv as [_ _ _ _ _ Hwk].
    rewrite sum_worker_dirtied.
    + rewrite (all_finished_processed bufs st Hinv Hfin) by lia.
      apply sum_node_dirtied.
    + eapply Forall_impl; [exact Hwk |]. intros e He. cbn in He. lia.
Qed.

End RedirtyResult.

(** Scenario C, two workers: after the run card 3 (region 0) and card 130
    (region 2) are dirty, card 70 (region 1, to be freed) is not. *)
Lemma redirty_result_independent_of_schedule_witness :
  RedirtyLoggedCardsTask.all_finished redirty_final = true
  /\ card_table (RedirtyLoggedCardsTask.g1h (RedirtyLoggedCardsTask.sh redirty_final)) !! 3%nat
     = Some (dirty_card_val (VMConfig := cfg_debug))
  /\ card_table (RedirtyLoggedCardsTask.g1h (RedirtyLoggedCardsTask.sh redirty_final)) !! 70%nat
     = None.
Proof.
  assert (Hfin : RedirtyLoggedCardsTask.all_finished redirty_final = true)
    by (vm_compute; reflexivity).
  split; [exact Hfin |].
  destruct (redirty_result_independent_of_schedule (H := cfg_debug)
              [bufferC; bufferD] efrA heapA 2 redirty_final ltac:(lia)
              (run_schedule_steps (H := cfg_debug)
                 redirty_schedule redirty_start) Hfin)
    as (_ & Hcards & _).
  split.
  - rewrite Hcards. vm_compute. reflexivity.
  - rewrite Hcards. vm_compute. reflexivity.
Defined.

(** The same run: the two workers' items add up to the three entries
    of the log that lie in retained regions (cards 3, 130 and 5). *)
Lemma redirty_work_items_add_up_witness :
  RedirtyLoggedCardsTask.all_finished redirty_final = true
  /\ sum_list_with
       (worker_dirtied (H := cfg_debug) efrA heapA [bufferC; bufferD]
          (RedirtyLoggedCardsTask.processed (RedirtyLoggedCardsTask.sh redirty_final)))
       (seq 0 2)
     = 3%nat.
Proof.
  assert (Hfin : RedirtyLoggedCardsTask.all_finished redirty_final = true)
    by (vm_compute; reflexivity).
  split; [exact Hfin |].
  destruct (redirty_work_items_add_up (H := cfg_debug)
              [bufferC; bufferD] efrA heapA 2 redirty_final ltac:(lia)
              (run_schedule_steps (H := cfg_debug)
                 redirty_schedule redirty_start) Hfin)
    as (_ & Hsum).
  rewrite Hsum. vm_compute. reflexivity.
Defined.

(** ** The assertions of the freeing pass *)

Section FreeCSetChecks.
Context `{VMConfig}.
Import FreeCSetStats.

Ltac run_monad := unfold mbind, M_bind, mret, M_ret, gets, modify; cbv beta iota.

Lemma assert_fails {St} (s : St) : ASSERT = true -> assert_ false s = Fatal AssertFailed s.
Proof. intros Ha. unfold assert_. by rewrite Ha. Qed.

Lemma assert_outcome {St} (b : bool) (s : St) :
  (assert_ b s = Ok tt s /\ (ASSERT = true -> b = true))
  \/ (assert_ b s = Fatal AssertFailed s /\ ASSERT = true /\ b = false).
Proof.
  unfold assert_. destruct ASSERT, b; cbn; auto.
Qed.

Lemma is_Ok_bind_false {St A B} (c : M St A) (k : A -> M St B) s :
  is_Ok (c s) = false -> is_Ok ((c ≫= k) s) = false.
Proof. unfold mbind, M_bind. by destruct (c s). Qed.

Lemma handle_failed_region_returns cl r h hr :
  regions h !! r = Some hr ->
  (ASSERT = true -> r ∈ collection_set h) ->
  exists cl' h',
    FreeCSetClosure.handle_failed_region cl r h = Ok cl' h'
    /\ master_free_list h' = master_free_list h.
Proof.
  intros Hr Hin.
  unfold FreeCSetClosure.handle_failed_region, handle_evacuation_failure,
    OldSets_lock_acquire, OldSets_lock_release, old_set_add, set_containing_set,
    account_failed_region.
  run_monad.
  rewrite (region_at_Some _ _ _ Hr). cbv beta iota.
  rewrite assert_guarded
    by (intros Ha; unfold is_in_cset; by rewrite bool_decide_eq_true_2 by auto).
  cbv beta iota.
  rewrite (region_at_Some _ _ _ Hr). cbv beta iota.
  cbn [OldSets_lock_held upd_OldSets_lock_held].
  rewrite assert_true. cbv beta iota.
  erewrite region_at_Some by (cbn; rewrite lookup_alter_eq, Hr; reflexivity).
  cbv beta iota. eexists _, _. split; [reflexivity | reflexivity].
Qed.

Lemma handle_evacuated_region_returns cl r h hr :
  regions h !! r = Some hr ->
  (ASSERT = true -> 0 < hr_used hr) ->
  exists cl' h',
    FreeCSetClosure.handle_evacuated_region cl r h = Ok cl' h'
    /\ master_free_list h' = master_free_list h.
Proof.
  intros Hr Hu.
  unfold FreeCSetClosure.handle_evacuated_region, account_evacuated_region, free_region.
  run_monad.
  rewrite (region_at_Some _ _ _ Hr). cbv beta iota.
  rewrite assert_guarded.
  2:{ intros Ha. unfold is_empty. apply negb_true_iff, Z.eqb_neq. specialize (Hu Ha). lia. }
  cbv beta iota.
  rewrite (region_at_Some _ _ _ Hr). cbv beta iota.
  rewrite assert_guarded by (intros Ha; apply Z.ltb_lt; auto).
  cbv beta iota.
  rewrite (region_at_Some _ _ _ Hr). cbv beta iota.
  eexists _, _. split; [reflexivity | reflexivity].
Qed.

Lemma handle_evacuated_region_aborts cl r h hr :
  regions h !! r = Some hr -> ASSERT = true -> ~ 0 < hr_used hr ->
  is_Ok (FreeCSetClosure.handle_evacuated_region cl r h) = false.
Proof.
  intros Hr Ha Hu.
  unfold FreeCSetClosure.handle_evacuated_region, account_evacuated_region.
  run_monad.
  rewrite (region_at_Some _ _ _ Hr). cbv beta iota.
  destruct (assert_outcome (negb (is_empty hr)) h) as [[-> _] | [-> _]]; [| done].
  cbv beta iota.
  rewrite (region_at_Some _ _ _ Hr). cbv beta iota.
  replace (0 <? hr_used hr) with false by (symmetry; apply Z.ltb_ge; lia).
  by rewrite (assert_fails h Ha).
Qed.

(** The young-region part of [do_heap_region]. *)
Lemma record_surviving_words_returns cl r h hr :
  regions h !! r = Some hr ->
  is_Some (FreeCSetClosure.surviving_young_words cl !! hr_young_index_in_cset hr) ->
  (ASSERT = true ->
   hr_young_index_in_cset hr <> 0%nat
   /\ (hr_young_index_in_cset hr <= cset_young_region_length h)%nat) ->
  exists h',
    (FreeCSetClosure.assert_tracks_surviving_words r;;
     words ← deref (FreeCSetClosure.surviving_young_words cl
                      !! hr_young_index_in_cset hr);
     record_surv_words_in_group r words) h = Ok tt h'
    /\ regions h' = regions h /\ collection_set h' = collection_set h
    /\ master_free_list h' = master_free_list h.
Proof.
  intros Hr [w Hw] Hidx.
  unfold FreeCSetClosure.assert_tracks_surviving_words, record_surv_words_in_group.
  run_monad.
  rewrite (region_at_Some _ _ _ Hr). cbv beta iota.
  rewrite assert_guarded.
  2:{ intros Ha. destruct (Hidx Ha) as [Hnz Hle]. apply andb_true_iff. split.
      - by apply negb_true_iff, Nat.eqb_neq.
      - by apply Nat.leb_le. }
  cbv beta iota. rewrite Hw. cbn [deref]. unfold mret, M_ret.
  eexists. split; [reflexivity |]. done.
Qed.

Lemma record_surviving_words_aborts cl r h hr :
  regions h !! r = Some hr -> ASSERT = true ->
  ~ (hr_young_index_in_cset hr <> 0%nat
     /\ (hr_young_index_in_cset hr <= cset_young_region_length h)%nat) ->
  is_Ok ((FreeCSetClosure.assert_tracks_surviving_words r;;
          words ← deref (FreeCSetClosure.surviving_young_words cl
                           !! hr_young_index_in_cset hr);
          record_surv_words_in_group r words) h) = false.
Proof.
  intros Hr Ha Hidx.
  unfold FreeCSetClosure.assert_tracks_surviving_words. run_monad.
  rewrite (region_at_Some _ _ _ Hr). cbv beta iota.
  destruct (assert_outcome
              (negb (hr_young_index_in_cset hr =? 0)%nat
               && (hr_young_index_in_cset hr <=? cset_young_region_length h)%nat) h)
    as [[_ Hb] | [-> _]]; [| done].
  exfalso. apply Hidx. specialize (Hb Ha). apply andb_true_iff in Hb as [Hnz Hle].
  split; [by apply negb_true_iff, Nat.eqb_neq in Hnz | by apply Nat.leb_le].
Qed.

(** X3.  The assertions of [do_heap_region] and of the functions it calls
    are exactly the conditions [free_cset_checks]: for a region of the
    table (with its slot in [surviving_young_words] when it is young) the
    visit returns normally if and only if the build has no assertions or
    the region is in the collection set, has a valid young index when it
    is young, is not empty when it was evacuated, and is not on the master
    free list.  A product build visits (and frees or retains) the region
    whether or not these hold. *)
Theorem do_heap_region_returns_iff_checks (cl : FreeCSetClosure.t) (r : nat)
    (h : G1CollectedHeap) (hr : HeapRegion) :
  regions h !! r = Some hr ->
  (is_young hr = true ->
   is_Some (FreeCSetClosure.surviving_young_words cl !! hr_young_index_in_cset hr)) ->
  is_Ok (FreeCSetClosure.do_heap_region cl r h) = true
  <-> (ASSERT = true -> free_cset_checks h (FreeCSetClosure.evac_failure_regions cl) r hr).
Proof.
  intros Hr Hslot. unfold FreeCSetClosure.do_heap_region, free_cset_checks.
  erewrite bind_Ok by reflexivity.
  destruct (assert_outcome (is_in_cset h r) h) as [[Has Hin] | [Has [Ha Hin]]].
  2:{ erewrite bind_Fatal by exact Has. cbn. split; [done |].
      intros Hc. destruct (Hc Ha) as [Hcs _].
      unfold is_in_cset in Hin. by rewrite bool_decide_eq_true_2 in Hin by done. }
  erewrite bind_Ok by exact Has.
  assert (Hin' : ASSERT = true -> r ∈ collection_set h).
  { intros Ha. specialize (Hin Ha). by apply bool_decide_eq_true in Hin. }
  erewrite bind_Ok.
  2:{ unfold account_rs_length. rewrite (bind_Ok _ _ _ _ _ (region_at_Some _ _ _ Hr)).
      reflexivity. }
  rewrite (bind_Ok _ _ _ _ _ (region_at_Some _ _ _ Hr)).
  set (cl1 := FreeCSetClosure.with_stats cl _).
  (* the rest of the visit, from any heap that agrees with [h] *)
  assert (Htail : forall h1,
            regions h1 = regions h -> collection_set h1 = collection_set h ->
            master_free_list h1 = master_free_list h ->
            is_Ok ((cl2 ← (if contains (FreeCSetClosure.evac_failure_regions cl1) r
                           then FreeCSetClosure.handle_failed_region cl1 r
                           else FreeCSetClosure.handle_evacuated_region cl1 r);
                    on_free_list ← gets (fun h => is_on_master_free_list h r);
                    assert_ (negb on_free_list);;
                    mret (cl2, false)) h1) = true
            <-> (ASSERT = true ->
                 (r ∉ regions_failed_evacuation (FreeCSetClosure.evac_failure_regions cl)
                  -> 0 < hr_used hr)
                 /\ r ∉ master_free_list h)).
  { intros h1 Hreg Hcs Hmfl.
    assert (Hr1 : regions h1 !! r = Some hr) by (by rewrite Hreg).
    assert (Hend : forall (cl2 : FreeCSetClosure.t) h2,
              master_free_list h2 = master_free_list h ->
              is_Ok ((on_free_list ← gets (fun h => is_on_master_free_list h r);
                      assert_ (negb on_free_list);;
                      mret (cl2, false)) h2) = true
              <-> (ASSERT = true -> r ∉ master_free_list h)).
    { intros cl2 h2 Hm. erewrite bind_Ok by reflexivity.
      unfold is_on_master_free_list. rewrite Hm.
      destruct (assert_outcome (negb (bool_decide (r ∈ master_free_list h))) h2)
        as [[Hx Hb] | [Hx [Ha Hb]]].
      - erewrite bind_Ok by exact Hx. cbn. split; [| done]. intros _ Ha.
        specialize (Hb Ha). apply negb_true_iff in Hb. by apply bool_decide_eq_false in Hb.
      - erewrite bind_Fatal by exact Hx. cbn. split; [done |]. intros Hc.
        apply negb_false_iff, bool_decide_eq_true in Hb. by destruct (Hc Ha). }
    change (FreeCSetClosure.evac_failure_regions cl1)
      with (FreeCSetClosure.evac_failure_regions cl).
    unfold contains. case_bool_decide as Hc.
    - destruct (handle_failed_region_returns cl1 r h1 hr Hr1) as (cl2 & h2 & Hrun & Hm).
      { intros Ha. rewrite Hcs. auto. }
      rewrite (bind_Ok _ _ _ _ _ Hrun), Hend by (by rewrite Hm).
      split; [intros Hx Ha; split; [done | auto] | intros Hx Ha; by destruct (Hx Ha)].
    - destruct (decide (ASSERT = true /\ ~ 0 < hr_used hr)) as [[Ha Hu] | Hok].
      + pose proof (handle_evacuated_region_aborts cl1 r h1 hr Hr1 Ha Hu) as Hab.
        destruct (FreeCSetClosure.handle_evacuated_region cl1 r h1) as [? ? | why hx] eqn:Hrun;
          [done |].
        erewrite bind_Fatal by exact Hrun. cbn. split; [done |].
        intros Hx. destruct (Hx Ha) as [Hu' _]. exfalso. apply Hu. by apply Hu'.
      + destruct (handle_evacuated_region_returns cl1 r h1 hr Hr1) as (cl2 & h2 & Hrun & Hm).
        { intros Ha. destruct (decide (0 < hr_used hr)); [done |]. exfalso. auto. }
        rewrite (bind_Ok _ _ _ _ _ Hrun), Hend by (by rewrite Hm).
        split; [| intros Hx Ha; by destruct (Hx Ha)].
        intros Hx Ha. split; [| auto]. intros _.
        destruct (decide (0 < hr_used hr)); [done |]. exfalso. auto. }
  destruct (is_young hr) eqn:Hy.
  - destruct (decide (ASSERT = true
                      /\ ~ (hr_young_index_in_cset hr <> 0%nat
                            /\ (hr_young_index_in_cset hr <= cset_young_region_length h)%nat)))
      as [[Ha Hidx] | Hok].
    + rewrite (is_Ok_bind_false _ _ _ (record_surviving_words_aborts cl1 r h hr Hr Ha Hidx)).
      split; [done |]. intros Hc. destruct (Hc Ha) as (_ & Hyi & _).
      exfalso. apply Hidx. by apply Hyi.
    + assert (Hyi : ASSERT = true ->
                hr_young_index_in_cset hr <> 0%nat
                /\ (hr_young_index_in_cset hr <= cset_young_region_length h)%nat).
      { intros Ha.
        destruct (decide (hr_young_index_in_cset hr <> 0%nat
                          /\ (hr_young_index_in_cset hr
                              <= cset_young_region_length h)%nat)); [done |].
        exfalso. auto. }
      destruct (record_surviving_words_returns cl1 r h hr Hr (Hslot eq_refl) Hyi)
        as (h1 & Hrun & Hreg & Hcs & Hm).
      rewrite (bind_Ok _ _ _ _ _ Hrun), (Htail h1 Hreg Hcs Hm).
      split.
      * intros Hx Ha. destruct (Hx Ha) as [Hu Hnf].
        split; [auto |]. split; [intros _; auto |]. by split.
      * intros Hx Ha. by destruct (Hx Ha) as (_ & _ & ? & ?).
  - erewrite (bind_Ok (mret tt)) by reflexivity.
    rewrite (Htail h eq_refl eq_refl eq_refl).
    split.
    + intros Hx Ha. destruct (Hx Ha) as [Hu Hnf].
      split; [auto |]. split; [done |]. by split.
    + intros Hx Ha. by destruct (Hx Ha) as (_ & _ & ? & ?).
Qed.

End FreeCSetChecks.

(** Scenario A, debug build: the visit of region 1 returns; on the same
    heap with region 1 on the master free list it would not. *)
Lemma do_heap_region_returns_iff_checks_witness :
  is_Ok (FreeCSetClosure.do_heap_region (H := cfg_debug)
           (FreeCSetClosure.new [0; 100; 200] 0 FreeCSetStats.new efrA) 1 heapA) = true
  /\ is_Ok (FreeCSetClosure.do_heap_region (H := cfg_debug)
              (FreeCSetClosure.new [0; 100; 200] 0 FreeCSetStats.new efrA) 1
              (upd_master_free_list (fun _ => {[ 1%nat ]}) heapA)) = false.
Proof.
  split.
  - apply (do_heap_region_returns_iff_checks (H := cfg_debug)
             (FreeCSetClosure.new [0; 100; 200] 0 FreeCSetStats.new efrA) 1 heapA
             (mk_region EdenTag 4096 0 5 1 Instance None)).
    + vm_compute. reflexivity.
    + intros _. by eexists.
    + intros _. split; [set_solver |]. split; [cbn; lia |].
      split; [cbn; lia | set_solver].
  - apply not_true_is_false. intros Hok.
    destruct (proj1 (do_heap_region_returns_iff_checks (H := cfg_debug)
               (FreeCSetClosure.new [0; 100; 200] 0 FreeCSetStats.new efrA) 1
               (upd_master_free_list (fun _ => {[ 1%nat ]}) heapA)
               (mk_region EdenTag 4096 0 5 1 Instance None)
               ltac:(vm_compute; reflexivity) ltac:(intros _; by eexists)) Hok eq_refl)
      as (_ & _ & _ & Hfree).
    apply Hfree. cbn. set_solver.
Defined.

(** ** The statistics and the result of the freeing pass *)

Section StatsAlgebra.
Context `{VMConfig}.
Import FreeCSetStats.

Lemma wrap_size_t_sub_sub u a b :
  wrap_size_t (wrap_size_t (u - a) - b) = wrap_size_t (u - wrap_size_t (a + b)).
Proof.
  unfold wrap_size_t, size_t_bits.
  rewrite Zminus_mod_idemp_l, Zminus_mod_idemp_r. f_equal. lia.
Qed.

Lemma total_stats_perm ws ws' :
  ws ≡ₚ ws' -> total_stats ws = total_stats ws'.
Proof.
  intros Hperm. unfold total_stats. generalize FreeCSetStats.new.
  induction Hperm as [| x l l' _ IH | x y l | l l' l'' _ IH1 _ IH2]; intros acc; cbn.
  - done.
  - apply IH.
  - f_equal. rewrite !merge_stats_assoc. f_equal. apply merge_stats_comm.
  - by rewrite IH1.
Qed.

(** X4.  Reporting adds into the heap-wide counters and overwrites the
    per-pause figures: for the used bytes, the failure words, the bytes
    allocated into old and the after-collection usage, reporting the merge
    of two statistics is the same as reporting one after the other; the
    regions freed, the used-before figure and the remembered-set length,
    however, are set, not added - a second report replaces them by its own
    values - and every report notifies the policy once more.  So the
    per-worker statistics have to be merged before the one report. *)
Theorem report_merged_vs_one_by_one (a b : FreeCSetStats.t) (h : G1CollectedHeap) :
  let h1 := final_state (report (merge_stats a b) h) in
  let h2 := final_state ((report a;; report b) h) in
  is_Ok (report (merge_stats a b) h) = true
  /\ is_Ok ((report a;; report b) h) = true
  /\ summary_bytes_used h1 = summary_bytes_used h2
  /\ old_failure_used_words h1 = old_failure_used_words h2
  /\ old_failure_waste_words h1 = old_failure_waste_words h2
  /\ old_gen_allocated_bytes_since_last_gc (policy h1)
     = old_gen_allocated_bytes_since_last_gc (policy h2)
  /\ ei_collection_set_used_after (evacuation_info h1)
     = ei_collection_set_used_after (evacuation_info h2)
  /\ ei_regions_freed (evacuation_info h1) = wrap_uint (regions_freed a + regions_freed b)
  /\ ei_regions_freed (evacuation_info h2) = regions_freed b
  /\ recorded_rs_length (policy h1) = wrap_size_t (rs_length a + rs_length b)
  /\ recorded_rs_length (policy h2) = rs_length b
  /\ ei_collection_set_used_before (evacuation_info h2)
     = wrap_size_t (before_used_bytes b + after_used_bytes b)
  /\ cset_regions_freed_calls (policy h1) = S (cset_regions_freed_calls (policy h))
  /\ cset_regions_freed_calls (policy h2) = S (S (cset_regions_freed_calls (policy h))).
Proof.
  unfold report, decrement_summary_bytes. unfold_monad. cbn.
  repeat split.
  - symmetry. apply wrap_size_t_sub_sub.
  - by rewrite wrap_size_t_add_l, wrap_size_t_add_r, Z.add_assoc.
  - by rewrite wrap_size_t_add_l, wrap_size_t_add_r, Z.add_assoc.
  - by rewrite wrap_size_t_add_l, wrap_size_t_add_r, Z.add_assoc.
  - by rewrite wrap_size_t_add_l, wrap_size_t_add_r, Z.add_assoc.
Qed.

(** X5.  The merge of [report_statistics] does not depend on which worker
    filled which slot: [merge_stats] is associative and commutative (the
    counters wrap), so two tasks whose slots are a permutation of each
    other merge to the same total. *)
Theorem merged_stats_independent_of_slot_order (this this' : FreeCollectionSetTask.t)
    (h : G1CollectedHeap) :
  length (FreeCollectionSetTask.worker_stats this) = FreeCollectionSetTask.active_workers this ->
  length (FreeCollectionSetTask.worker_stats this')
  = FreeCollectionSetTask.active_workers this' ->
  FreeCollectionSetTask.worker_stats this ≡ₚ FreeCollectionSetTask.worker_stats this' ->
  (forall x y z, merge_stats (merge_stats x y) z = merge_stats x (merge_stats y z))
  /\ (forall x y, merge_stats x y = merge_stats y x)
  /\ exists total,
       FreeCollectionSetTask.merged_stats this h = Ok total h
       /\ FreeCollectionSetTask.merged_stats this' h = Ok total h.
Proof.
  intros Hlen Hlen' Hperm.
  split; [apply merge_stats_assoc |]. split; [apply merge_stats_comm |].
  exists (total_stats (FreeCollectionSetTask.worker_stats this)). split.
  - by apply merged_stats_ok.
  - rewrite (total_stats_perm _ _ Hperm). by apply merged_stats_ok.
Qed.

End StatsAlgebra.

(** Scenario A: swapping the two workers' slots gives the same total. *)
Lemma merged_stats_independent_of_slot_order_witness :
  exists this hp total,
    (task ← FreeCollectionSetTask.new [0; 100; 200] efrA;
     FreeCollectionSetTask.par_do_work (H := cfg_debug)
       (FreeCollectionSetTask.set_max_workers task 2) scheduleA) heapA = Ok this hp
    /\ FreeCollectionSetTask.merged_stats this hp = Ok total hp
    /\ FreeCollectionSetTask.merged_stats
         {| FreeCollectionSetTask.worker_stats :=
              reverse (FreeCollectionSetTask.worker_stats this);
            FreeCollectionSetTask.surviving_young_words :=
              FreeCollectionSetTask.surviving_young_words this;
            FreeCollectionSetTask.active_workers :=
              FreeCollectionSetTask.active_workers this;
            FreeCollectionSetTask.evac_failure_regions :=
              FreeCollectionSetTask.evac_failure_regions this |} hp = Ok total hp.
Proof.
  eexists _, _. 
  assert (Hrun : (task ← FreeCollectionSetTask.new [0; 100; 200] efrA;
     FreeCollectionSetTask.par_do_work (H := cfg_debug)
       (FreeCollectionSetTask.set_max_workers task 2) scheduleA) heapA = _)
    by (vm_compute; reflexivity).
  match type of Hrun with _ = Ok ?t ?h =>
    destruct (merged_stats_independent_of_slot_order t
      {| FreeCollectionSetTask.worker_stats :=
              reverse (FreeCollectionSetTask.worker_stats t);
            FreeCollectionSetTask.surviving_young_words :=
              FreeCollectionSetTask.surviving_young_words t;
            FreeCollectionSetTask.active_workers :=
              FreeCollectionSetTask.active_workers t;
            FreeCollectionSetTask.evac_failure_regions :=
              FreeCollectionSetTask.evac_failure_regions t |} h)
      as (_ & _ & total & Ha & Hb)
  end.
  - reflexivity.
  - reflexivity.
  - cbn [FreeCollectionSetTask.worker_stats]. symmetry. apply reverse_Permutation.
  - exists total. split; [exact Hrun |]. split; [exact Ha | exact Hb].
Defined.

Section WorkerSlots.
Context `{VMConfig}.
Import FreeCSetStats FreeCollectionSetTask.

Lemma claimed_by_cons w w0 r schedule :
  claimed_by w ((w0, r) :: schedule)
  = if decide (w0 = w) then r :: claimed_by w schedule else claimed_by w schedule.
Proof.
  unfold claimed_by. rewrite filter_cons. cbn [fst].
  by destruct (decide (w0 = w)).
Qed.

Lemma claimed_by_subseteq w schedule : claimed_by w schedule ⊆ schedule.*2.
Proof.
  intros r (step & -> & [_ Hin]%list_elem_of_filter)%list_elem_of_fmap.
  by apply list_elem_of_fmap_2.
Qed.

Lemma par_do_work_slots schedule : forall this h,
  schedule_ok this h schedule ->
  Forall stats_wf (worker_stats this) ->
  exists this' h',
    par_do_work this schedule h = Ok this' h'
    /\ forall w slot, worker_stats this !! w = Some slot ->
         worker_stats this' !! w
         = Some (merge_stats slot
                   (cset_stats (evac_failure_regions this) h (claimed_by w schedule))).
Proof.
  induction schedule as [| [w r] schedule IH]; intros this h [Hnd Hall] Hwf.
  - exists this, h. split; [done |]. intros w slot Hslot. rewrite Hslot. f_equal.
    symmetry. by eapply Forall_lookup_1 in Hwf.
  - cbn in Hnd. apply NoDup_cons in Hnd as [Hnin Hnd].
    apply Forall_cons in Hall as [[Hw [hr Hok]] Hall]. cbn in Hw, Hok.
    destruct (lookup_lt_is_Some_2 _ _ Hw) as [slot Hslot].
    assert (Hslot_wf : stats_wf slot) by (by eapply Forall_lookup_1 in Hwf).
    destruct (do_work_single this w r h hr slot Hslot Hslot_wf Hok) as (h1 & Hrun1 & Hvis1).
    set (this1 := with_worker_stats this _) in Hrun1.
    destruct (IH this1 h1) as (this' & h' & Hrun & Hslots).
    { split; [done |]. apply Forall_forall. intros [w' r'] Hin.
      rewrite Forall_forall in Hall. destruct (Hall _ Hin) as [Hw' [hr' Hok']].
      cbn in *. split.
      - by rewrite length_insert.
      - exists hr'. eapply cset_region_ok_frame; [| exact Hvis1 | exact Hok'].
        intros ->. apply Hnin. by apply (list_elem_of_fmap_2 snd) in Hin. }
    { subst this1. cbn. apply Forall_insert; [done | apply merge_stats_wf]. }
    exists this', h'. split.
    { unfold par_do_work in *. cbn [foldM fst snd].
      rewrite (bind_Ok _ _ _ _ _ Hrun1). exact Hrun. }
    intros w' slot' Hslot'.
    assert (Hag : cset_stats (evac_failure_regions this) h1 (claimed_by w' schedule)
                  = cset_stats (evac_failure_regions this) h (claimed_by w' schedule)).
    { apply cset_stats_agree. intros r' Hr'. destruct Hvis1 as [Hreg].
      rewrite Hreg, lookup_insert_ne; [done |]. intros ->.
      by apply claimed_by_subseteq in Hr'. }
    subst this1. cbn [worker_stats with_worker_stats evac_failure_regions] in Hslots.
    rewrite claimed_by_cons. destruct (decide (w = w')) as [<- | Hne].
    + rewrite Hslot in Hslot'. injection Hslot' as <-.
      rewrite (Hslots w _ (list_lookup_insert_eq _ _ _ Hw)), Hag.
      rewrite merge_stats_assoc. do 2 f_equal.
      cbn [cset_stats foldr]. destruct Hok as [Hr _ _ _ _]. by rewrite Hr.
    + rewrite (Hslots w' slot'), Hag; [done |].
      by rewrite list_lookup_insert_ne.
Qed.

(** X6.  Each worker accounts for its own regions only: after the parallel
    phase of a schedule that partitions the collection set, the slot of
    worker [w] holds the statistics of exactly the regions [w] visited,
    classified on the heap as it was before the phase; the slot of a
    worker that claimed no region is still all zero. *)
Theorem worker_slot_holds_own_regions (syw : list Z) (efr : G1EvacFailureRegions)
    (n : nat) (schedule : list (nat * nat)) (h : G1CollectedHeap) :
  cset_ready syw efr n schedule h ->
  exists this hp,
    (task ← new syw efr; par_do_work (set_max_workers task n) schedule) h = Ok this hp
    /\ (forall w, (w < n)%nat ->
          worker_stats this !! w = Some (cset_stats efr h (claimed_by w schedule)))
    /\ (forall w, (w < n)%nat -> claimed_by w schedule = [] ->
          worker_stats this !! w = Some FreeCSetStats.new).
Proof.
  intros Hready.
  rewrite (bind_Ok _ _ _ _ _ (new_ok syw efr h)).
  set (t0 := set_max_workers _ n). set (h0 := upd_eden _ h).
  destruct (par_do_work_slots schedule t0 h0) as (this & hp & Hrun & Hslots).
  { eapply cset_ready_schedule_ok; [exact Hready | done | done |].
    subst t0. cbn. apply length_replicate. }
  { subst t0. cbn. apply Forall_replicate, new_wf. }
  assert (Hw : forall w, (w < n)%nat ->
            worker_stats this !! w = Some (cset_stats efr h (claimed_by w schedule))).
  { intros w Hlt. rewrite (Hslots w FreeCSetStats.new).
    - subst t0. cbn [evac_failure_regions set_max_workers].
      by rewrite merge_stats_new_l by apply cset_stats_wf.
    - subst t0. cbn. by apply lookup_replicate. }
  exists this, hp. split; [exact Hrun |]. split; [exact Hw |].
  intros w Hlt Hnone. by rewrite (Hw w Hlt), Hnone.
Qed.

End WorkerSlots.

(** Scenario A: worker 0 visited region 1, worker 1 region 2. *)
Lemma worker_slot_holds_own_regions_witness :
  exists this hp,
    (task ← FreeCollectionSetTask.new [0; 100; 200] efrA;
     FreeCollectionSetTask.par_do_work (H := cfg_debug)
       (FreeCollectionSetTask.set_max_workers task 2) scheduleA) heapA = Ok this hp
    /\ FreeCollectionSetTask.worker_stats this !! 0%nat
       = Some (cset_stats (H := cfg_debug) efrA heapA [1%nat])
    /\ FreeCollectionSetTask.worker_stats this !! 1%nat
       = Some (cset_stats (H := cfg_debug) efrA heapA [2%nat]).
Proof.
  destruct (worker_slot_holds_own_regions (H := cfg_debug) [0; 100; 200] efrA 2
              scheduleA heapA cset_ready_heapA) as (this & hp & Hrun & Hslots & _).
  exists this, hp. split; [exact Hrun |].
  split; [exact (Hslots 0%nat ltac:(lia)) | exact (Hslots 1%nat ltac:(lia))].
Defined.

Section FreeingResult.
Context `{VMConfig}.
Import FreeCSetStats FreeCollectionSetTask.

Lemma evac_info_eq (a b : G1EvacInfo) :
  ei_regions_freed a = ei_regions_freed b ->
  ei_collection_set_used_before a = ei_collection_set_used_before b ->
  ei_collection_set_used_after a = ei_collection_set_used_after b ->
  a = b.
Proof. destruct a, b. cbn. by intros -> -> ->. Qed.

(** X18.  What the freeing pass leaves behind does not depend on how the
    collection set was shared out, nor on the number of workers: any two
    schedules that partition the collection set end in heaps with the same
    region table, the same old set, master free list, Eden set and (empty)
    collection set, and the same heap-wide counters. *)
Theorem free_cset_result_independent_of_schedule (syw : list Z)
    (efr : G1EvacFailureRegions) (n1 n2 : nat) (schedule1 schedule2 : list (nat * nat))
    (h : G1CollectedHeap) :
  cset_ready syw efr n1 schedule1 h ->
  cset_ready syw efr n2 schedule2 h ->
  exists hf1 hf2,
    run syw efr n1 schedule1 h = Ok tt hf1
    /\ run syw efr n2 schedule2 h = Ok tt hf2
    /\ regions hf1 = regions hf2
    /\ old_set hf1 = old_set hf2
    /\ master_free_list hf1 = master_free_list hf2
    /\ eden hf1 = eden hf2
    /\ collection_set hf1 = collection_set hf2
    /\ reporting_targets hf1 = reporting_targets hf2.
Proof.
  intros Hr1 Hr2.
  destruct (run_ok _ _ _ _ _ Hr1) as (hp1 & hf1 & Hrun1 & Hv1 & Hrep1).
  destruct (run_ok _ _ _ _ _ Hr2) as (hp2 & hf2 & Hrun2 & Hv2 & Hrep2).
  exists hf1, hf2. split; [done |]. split; [done |].
  destruct Hv1 as [Hin1 Hout1 Hold1 Hcs1 _ Hmfl1 Heden1 Hsum1 Hei1 Hfu1 Hfw1 Hpa1 Hprs1 Hpfc1].
  destruct Hv2 as [Hin2 Hout2 Hold2 Hcs2 _ Hmfl2 Heden2 Hsum2 Hei2 Hfu2 Hfw2 Hpa2 Hprs2 Hpfc2].
  destruct Hrep1 as [Rrf1 Rub1 Rua1 Rsum1 Rfu1 Rfw1 Ral1 Rrs1 Rfc1 Rcs1 Reden1 Rreg1 Rold1 Rmfl1].
  destruct Hrep2 as [Rrf2 Rub2 Rua2 Rsum2 Rfu2 Rfw2 Ral2 Rrs2 Rfc2 Rcs2 Reden2 Rreg2 Rold2 Rmfl2].
  split.
  { rewrite Rreg1, Rreg2. apply map_eq. intros r.
    destruct (decide (r ∈ collection_set h)) as [Hin | Hout].
    - by rewrite Hin1, Hin2.
    - by rewrite Hout1, Hout2. }
  split.
  { rewrite Rold1, Rold2. apply set_eq. intros r. by rewrite Hold1, Hold2. }
  split; [congruence |]. split; [congruence |]. split; [congruence |].
  assert (Hei : evacuation_info hf1 = evacuation_info hf2)
    by (apply evac_info_eq; congruence).
  unfold reporting_targets. rewrite Hei.
  repeat (apply (f_equal2 pair)); congruence.
Qed.

End FreeingResult.

(** Scenario A: the two workers sharing the regions, or worker 1 visiting
    both, in the opposite order. *)
Lemma free_cset_result_independent_of_schedule_witness :
  exists hf1 hf2,
    FreeCollectionSetTask.run (H := cfg_debug) [0; 100; 200] efrA 2 scheduleA heapA
    = Ok tt hf1
    /\ FreeCollectionSetTask.run (H := cfg_debug) [0; 100; 200] efrA 2 [(1, 2); (1, 1)]%nat heapA
       = Ok tt hf2
    /\ regions hf1 = regions hf2
    /\ old_set hf1 = old_set hf2.
Proof.
  assert (Hready : cset_ready [0; 100; 200] efrA 2 [(1, 2); (1, 1)]%nat heapA).
  { destruct cset_ready_heapA as [_ Hnd _ Hregs]. constructor.
    - cbn. apply perm_swap.
    - exact Hnd.
    - repeat constructor.
    - exact Hregs. }
  destruct (free_cset_result_independent_of_schedule (H := cfg_debug) [0; 100; 200] efrA
              2 2 scheduleA [(1, 2); (1, 1)]%nat heapA cset_ready_heapA Hready)
    as (hf1 & hf2 & Hrun1 & Hrun2 & Hregs & Hold & _).
  by exists hf1, hf2.
Defined.

(** ** The humongous scan *)

Section HumongousScan.
Context `{VMConfig}.
Import G1FreeHumongousRegionClosure.


Lemma span_from_continues h fuel r j :
  j ∈ humongous_obj_regions_from h fuel r -> j = r \/ continues_in h j.
Proof.
  revert r. induction fuel as [| fuel IH]; intros r; cbn.
  - intros ->%list_elem_of_singleton. by left.
  - intros [-> | Hj]%elem_of_cons; [by left |].
    unfold next_region_in_humongous in Hj.
    destruct (regions h !! S r) as [hr |] eqn:Hr; [| by apply elem_of_nil in Hj].
    destruct (is_continues_humongous hr) eqn:Hc; [| by apply elem_of_nil in Hj].
    destruct (IH _ Hj) as [-> | ?]; [| by right]. right. by exists hr.
Qed.

Lemma span_from_head h fuel r : r ∈ humongous_obj_regions_from h fuel r.
Proof. destruct fuel; cbn; apply elem_of_cons; by left. Qed.

Lemma span_from_agree h hk fuel r :
  (forall j, j ∈ humongous_obj_regions_from h fuel r -> j <> r ->
     regions hk !! j = regions h !! j) ->
  (forall j, continues_in hk j -> continues_in h j) ->
  humongous_obj_regions_from hk fuel r = humongous_obj_regions_from h fuel r.
Proof.
  revert r. induction fuel as [| fuel IH]; intros r Hag Hsub; [done |].
  cbn in *. f_equal. unfold next_region_in_humongous in *.
  destruct (regions h !! S r) as [hr |] eqn:Hr.
  - destruct (is_continues_humongous hr) eqn:Hc.
    + rewrite Hag, Hr, Hc; [| apply elem_of_cons; right; apply span_from_head | lia].
      apply IH; [| done]. intros j Hj Hne. apply Hag; [| ].
      * apply elem_of_cons. by right.
      * destruct (humongous_obj_regions_from_seq h fuel (S r)) as (n & Hn & _).
        rewrite Hn in Hj. apply elem_of_seq in Hj. lia.
    + destruct (regions hk !! S r) as [hr' |] eqn:Hr'; [| done].
      destruct (is_continues_humongous hr') eqn:Hc'; [| done].
      destruct (Hsub (S r)) as (hr2 & Hr2 & Hc2); [by exists hr' |]. congruence.
  - destruct (regions hk !! S r) as [hr' |] eqn:Hr'; [| done].
    destruct (is_continues_humongous hr') eqn:Hc'; [| done].
    destruct (Hsub (S r)) as (hr2 & Hr2 & Hc2); [by exists hr' |]. congruence.
Qed.

Lemma starts_not_continues h c :
  reclaimable_object h c -> ~ continues_in h c.
Proof.
  intros (hr & Hr & Hty & _) (hr' & Hr' & Hc). rewrite Hr in Hr'. injection Hr' as <-.
  unfold is_continues_humongous in Hc. by rewrite Hty in Hc.
Qed.

Lemma span_disjoint h i c j :
  reclaimable_object h i -> reclaimable_object h c -> i <> c ->
  j ∈ humongous_obj_regions h i -> j ∈ humongous_obj_regions h c -> False.
Proof.
  intros Hi Hc Hne Hji Hjc. unfold humongous_obj_regions in *.
  destruct (humongous_obj_regions_from_seq h (size (regions h)) i) as (a & Ha & _).
  destruct (humongous_obj_regions_from_seq h (size (regions h)) c) as (b & Hb & _).
  pose proof Hji as Hji'. pose proof Hjc as Hjc'.
  rewrite Ha in Hji'. rewrite Hb in Hjc'.
  apply elem_of_seq in Hji'. apply elem_of_seq in Hjc'.
  destruct (decide (i < c)%nat).
  - assert (Hin : c ∈ humongous_obj_regions_from h (size (regions h)) i).
    { rewrite Ha. apply elem_of_seq. lia. }
    apply span_from_continues in Hin as [-> | Hcont]; [done |].
    by apply (starts_not_continues h c).
  - assert (Hin : i ∈ humongous_obj_regions_from h (size (regions h)) c).
    { rewrite Hb. apply elem_of_seq. lia. }
    apply span_from_continues in Hin as [-> | Hcont]; [done |].
    by apply (starts_not_continues h i).
Qed.

Lemma elem_of_spans_of h starts r :
  r ∈ spans_of h starts <-> exists c, c ∈ starts /\ r ∈ humongous_obj_regions h c.
Proof.
  unfold spans_of. rewrite list_elem_of_join. split.
  - intros (l & Hr & (c & -> & Hc)%list_elem_of_fmap). by exists c.
  - intros (c & Hc & Hr). exists (humongous_obj_regions h c). split; [done |].
    by apply list_elem_of_fmap_2.
Qed.

Lemma spans_of_app h l1 l2 : spans_of h (l1 ++ l2) = spans_of h l1 ++ spans_of h l2.
Proof. unfold spans_of. by rewrite fmap_app, join_app. Qed.

Lemma used_bytes_of_app h l1 l2 :
  used_bytes_of h (l1 ++ l2) = used_bytes_of h l1 + used_bytes_of h l2.
Proof.
  unfold used_bytes_of. induction l1 as [| r l1 IH]; [done |]. cbn.
  rewrite IH. destruct (regions h !! r); lia.
Qed.

Lemma region_at_inv r h hr h' :
  region_at r h = Ok hr h' -> regions h !! r = Some hr /\ h' = h.
Proof.
  unfold region_at, deref. destruct (regions h !! r); [| done].
  by intros [-> <-]%mret_Ok_inv.
Qed.

Lemma free_humongous_region_fn_frame cl r h cl' h' :
  free_humongous_region_fn cl r h = Ok cl' h' ->
  h' = upd_regions (fun _ => regions h') h.
Proof.
  unfold free_humongous_region_fn, set_containing_set, free_humongous_region, free_region.
  intros Hrun.
  apply bind_Ok_inv in Hrun as (hr & h1 & [_ ->]%region_at_inv & Hrun).
  apply bind_Ok_inv in Hrun as (? & h2 & Hset & Hrun).
  apply bind_Ok_inv in Hset as (? & h3 & [_ ->]%region_at_inv & Hset).
  unfold modify in Hset. injection Hset as _ <-.
  apply bind_Ok_inv in Hrun as (? & h4 & Hfree & Hrun).
  apply bind_Ok_inv in Hfree as (? & h5 & [_ ->]%region_at_inv & Hfree).
  apply bind_Ok_inv in Hfree as (? & h6 & Hmod & Hfree).
  unfold modify in Hmod. injection Hmod as _ <-.
  apply mret_Ok_inv in Hfree as [_ <-].
  apply mret_Ok_inv in Hrun as [_ <-]. reflexivity.
Qed.

Lemma reclaim_fold_frame span : forall cl h cl' h',
  foldM free_humongous_region_fn span cl h = Ok cl' h' ->
  h' = upd_regions (fun _ => regions h') h.
Proof.
  induction span as [| r span IH]; intros cl h cl' h' Hrun.
  - apply mret_Ok_inv in Hrun as [_ <-]. by destruct h.
  - cbn [foldM] in Hrun. apply bind_Ok_inv in Hrun as (cl1 & h1 & Hstep & Hrun).
    apply IH in Hrun. apply free_humongous_region_fn_frame in Hstep.
    etrans; [exact Hrun |]. rewrite Hstep. reflexivity.
Qed.

Lemma size_regions_agree (m1 m2 : gmap nat HeapRegion) :
  (forall r, is_Some (m1 !! r) <-> is_Some (m2 !! r)) -> size m1 = size m2.
Proof.
  intros Hdom. rewrite <- !size_dom. f_equal. apply set_eq. intros r.
  by rewrite !elem_of_dom.
Qed.

(** One visit of the scan at a flagged region, from a heap of the scan. *)
Lemma do_heap_region_index_scan h hk P cl i :
  (forall c, c ∈ humongous_reclaim_candidates h -> reclaimable_object h c) ->
  (ASSERT = true -> forall c, c ∈ humongous_reclaim_candidates h -> c ∉ cm_mark_bitmap h) ->
  (forall c, c ∈ P -> c ∈ humongous_reclaim_candidates h) ->
  scan_inv h hk P -> i ∈ humongous_reclaim_candidates h -> i ∉ P ->
  exists cl' h',
    do_heap_region_index cl i hk = Ok (cl', false) h'
    /\ scan_inv h h' (P ++ [i])
    /\ humongous_regions_reclaimed cl'
       = wrap_uint (humongous_regions_reclaimed cl
                    + Z.of_nat (length (humongous_obj_regions h i)))
    /\ freed_bytes cl'
       = wrap_size_t (freed_bytes cl + used_bytes_of h (humongous_obj_regions h i))
    /\ humongous_objects_reclaimed cl' = wrap_uint (humongous_objects_reclaimed cl + 1).
Proof.
  intros Hobjs Hmarks HP [Hframe Hin Hout Hnot] Hi HiP.
  destruct (Hobjs i Hi) as (hr & Hr & Hty & Hobj).
  assert (Hdisj : forall r, r ∈ humongous_obj_regions h i -> r ∉ spans_of h P).
  { intros r Hri (c & Hc & Hrc)%elem_of_spans_of.
    eapply (span_disjoint h i c r); eauto. intros ->. done. }
  assert (Hrk : regions hk !! i = Some hr).
  { rewrite Hout, Hr; [done |]. apply Hdisj.
    by destruct (humongous_obj_regions_spec h i hr Hr) as [? _]. }
  assert (Hsub : forall j, continues_in hk j -> continues_in h j).
  { intros j (hr' & Hj & Hc). destruct (decide (j ∈ spans_of h P)) as [Hjp | Hjp].
    - rewrite (Hin j Hjp) in Hj. destruct (regions h !! j) as [hr0 |]; [| done].
      injection Hj as <-. done.
    - rewrite (Hout j Hjp) in Hj. by exists hr'. }
  assert (Hspan : humongous_obj_regions hk i = humongous_obj_regions h i).
  { unfold humongous_obj_regions.
    rewrite (size_regions_agree (regions hk) (regions h)).
    - apply span_from_agree; [| done]. intros j Hj _. apply Hout. by apply Hdisj.
    - intros r. destruct (decide (r ∈ spans_of h P)) as [Hrp | Hrp].
      + rewrite (Hin r Hrp). by rewrite fmap_is_Some.
      + by rewrite (Hout r Hrp). }
  set (span := humongous_obj_regions h i) in *.
  destruct (humongous_obj_regions_spec hk i hr Hrk) as (Hidx & Hnd & Hex).
  rewrite Hspan in Hidx, Hnd, Hex.
  set (h1 := upd_cm_eagerly_reclaimed (fun l => l ++ [i]) hk).
  set (cl1 := {| humongous_objects_reclaimed := wrap_uint (humongous_objects_reclaimed cl + 1);
                 humongous_regions_reclaimed := humongous_regions_reclaimed cl;
                 freed_bytes := freed_bytes cl |}).
  assert (Hcons : exists r0 rest, span = r0 :: rest).
  { destruct span as [| r0 rest]; [by apply elem_of_nil in Hidx | by eexists _, _]. }
  destruct Hcons as (r0 & rest & Hcons).
  destruct (reclaim_fold rest r0 cl1 h1) as (cl' & h' & Hrun & Hfb & Hrr & Hor & Hrec & Hcm).
  { by rewrite <- Hcons. }
  { intros r' Hr'. rewrite <- Hcons in Hr'. by apply Hex. }
  pose proof (reclaim_fold_frame _ _ _ _ _ Hrun) as Hfr.
  rewrite <- Hcons in *.
  assert (Hcand_k : humongous_reclaim_candidates hk = humongous_reclaim_candidates h)
    by (by rewrite Hframe).
  assert (Hmark_k : cm_mark_bitmap hk = cm_mark_bitmap h) by (by rewrite Hframe).
  exists cl', h'. split; [| split; [| split; [| split]]].
  - unfold do_heap_region_index.
    erewrite bind_Ok by reflexivity.
    rewrite (proj2 (is_reclaimable_candidate hk i)) by (by rewrite Hcand_k).
    cbn [negb].
    rewrite (bind_Ok _ _ _ _ _ (region_at_Some _ _ _ Hrk)).
    rewrite Hobj. cbn [is_typeArray guarantee].
    erewrite bind_Ok by reflexivity.
    erewrite bind_Ok by reflexivity.
    erewrite bind_Ok by reflexivity.
    erewrite bind_Ok.
    2:{ apply assert_guarded. intros Ha. unfold is_marked_in_bitmap. cbn.
        rewrite bool_decide_eq_false_2; [done |]. rewrite Hmark_k. by apply Hmarks. }
    erewrite bind_Ok.
    2:{ unfold humongous_obj_regions_iterate. erewrite bind_Ok by reflexivity.
        rewrite (humongous_obj_regions_agree hk) by reflexivity.
        rewrite Hspan. exact Hrun. }
    reflexivity.
  - destruct Hrec as [Hin' Hout' _ _ _ _]. constructor.
    + rewrite Hfr. subst h1. rewrite Hframe. reflexivity.
    + intros r. rewrite spans_of_app. intros [Hrp | Hri]%elem_of_app.
      * rewrite Hout'; [by apply Hin |]. intros Hri. by apply (Hdisj r).
      * assert (Hri' : r ∈ span).
        { apply elem_of_spans_of in Hri as (c & ->%list_elem_of_singleton & ?). done. }
        rewrite Hin' by done. subst h1. cbn. rewrite Hout; [done |]. by apply Hdisj.
    + intros r. rewrite spans_of_app. intros [Hrp Hri]%not_elem_of_app.
      rewrite Hout'; [by apply Hout |].
      intros Hri'. apply Hri. apply elem_of_spans_of. exists i.
      split; [by apply list_elem_of_singleton | done].
    + rewrite Hcm. subst h1. cbn. by rewrite Hnot, <- app_assoc.
  - rewrite Hrr. reflexivity.
  - rewrite Hfb. subst cl1. cbn [freed_bytes]. f_equal. f_equal.
    apply used_bytes_of_agree. intros r Hr'. subst h1. cbn. apply Hout. by apply Hdisj.
  - rewrite Hor. reflexivity.
Qed.

Lemma heap_region_iterate_over_scan h :
  (forall c, c ∈ humongous_reclaim_candidates h -> reclaimable_object h c) ->
  (ASSERT = true -> forall c, c ∈ humongous_reclaim_candidates h -> c ∉ cm_mark_bitmap h) ->
  forall indices P cl hk,
    NoDup indices -> (forall i, i ∈ indices -> i ∉ P) ->
    (forall c, c ∈ P -> c ∈ humongous_reclaim_candidates h) ->
    scan_inv h hk P ->
    wrap_uint (humongous_regions_reclaimed cl) = humongous_regions_reclaimed cl ->
    wrap_size_t (freed_bytes cl) = freed_bytes cl ->
    wrap_uint (humongous_objects_reclaimed cl) = humongous_objects_reclaimed cl ->
    let todo := filter (fun i => i ∈ humongous_reclaim_candidates h) indices in
    exists cl' h',
      heap_region_iterate_over cl indices hk = Ok cl' h'
      /\ scan_inv h h' (P ++ todo)
      /\ humongous_regions_reclaimed cl'
         = wrap_uint (humongous_regions_reclaimed cl + Z.of_nat (length (spans_of h todo)))
      /\ freed_bytes cl'
         = wrap_size_t (freed_bytes cl + used_bytes_of h (spans_of h todo))
      /\ humongous_objects_reclaimed cl'
         = wrap_uint (humongous_objects_reclaimed cl + Z.of_nat (length todo)).
Proof.
  intros Hobjs Hmarks indices.
  induction indices as [| i indices IH]; intros P cl hk Hnd HiP HP Hinv Hw1 Hw2 Hw3;
    cbn zeta.
  - exists cl, hk. rewrite app_nil_r. split; [done |]. split; [done |].
    cbn. by rewrite !Z.add_0_r, Hw1, Hw2, Hw3.
  - apply NoDup_cons in Hnd as [Hni Hnd].
    rewrite filter_cons. cbn [heap_region_iterate_over].
    destruct (decide (i ∈ humongous_reclaim_candidates h)) as [Hi | Hi].
    + destruct (do_heap_region_index_scan h hk P cl i Hobjs Hmarks HP Hinv Hi)
        as (cl1 & h1 & Hrun & Hinv1 & Hrr & Hfb & Hor).
      { apply HiP. apply elem_of_cons. by left. }
      destruct (IH (P ++ [i]) cl1 h1 Hnd) as (cl' & h' & Hrun' & Hinv' & Hrr' & Hfb' & Hor').
      { intros i' Hi' [Hp | ->%list_elem_of_singleton]%elem_of_app; [| done].
        apply (HiP i'); [apply elem_of_cons; by right | done]. }
      { intros c [Hc | ->%list_elem_of_singleton]%elem_of_app; [by apply HP | done]. }
      { done. }
      { rewrite Hrr. apply wrap_uint_idem. }
      { rewrite Hfb. apply wrap_size_t_idem. }
      { rewrite Hor. apply wrap_uint_idem. }
      exists cl', h'. split; [by rewrite (bind_Ok _ _ _ _ _ Hrun) |].
      split; [by rewrite <- app_assoc in Hinv' |].
      change (spans_of h (i :: ?l)) with (humongous_obj_regions h i ++ spans_of h l).
      split; [| split].
      * rewrite Hrr', Hrr, wrap_uint_add_l, length_app. f_equal. lia.
      * rewrite Hfb', Hfb, wrap_size_t_add_l, used_bytes_of_app. f_equal. lia.
      * rewrite Hor', Hor, wrap_uint_add_l. f_equal. cbn [length]. lia.
    + assert (Hcand_k : humongous_reclaim_candidates hk = humongous_reclaim_candidates h).
      { destruct Hinv as [Hframe _ _ _]. by rewrite Hframe. }
      rewrite (bind_Ok _ _ _ _ _ (do_heap_region_index_not_candidate cl i hk
                                    ltac:(by rewrite Hcand_k))).
      apply IH; try done. intros i' Hi'. apply HiP. apply elem_of_cons. by right.
Qed.

Lemma region_indices_perm h : region_indices h ≡ₚ elements (dom (regions h)).
Proof. apply merge_sort_Permutation. Qed.

Lemma NoDup_region_indices h : NoDup (region_indices h).
Proof. rewrite region_indices_perm. apply NoDup_elements. Qed.

Lemma elem_of_region_indices h i : i ∈ region_indices h <-> is_Some (regions h !! i).
Proof. by rewrite region_indices_perm, elem_of_elements, elem_of_dom. Qed.

Lemma StronglySorted_filter_lt (P : nat -> Prop) `{forall x, Decision (P x)} l :
  StronglySorted le l -> NoDup l -> StronglySorted lt (filter P l).
Proof.
  induction 1 as [| x l Hl IH Hx]; intros Hnd; [constructor |].
  apply NoDup_cons in Hnd as [Hni Hnd]. rewrite filter_cons.
  destruct (decide (P x)); [| by apply IH].
  constructor; [by apply IH |].
  apply Forall_forall. intros y [_ Hy]%list_elem_of_filter.
  rewrite Forall_forall in Hx. specialize (Hx y Hy).
  assert (x <> y) by (by intros ->). lia.
Qed.

Lemma region_indices_filter_sorted h (P : nat -> Prop) `{forall x, Decision (P x)} :
  StronglySorted lt (filter P (region_indices h)).
Proof.
  apply StronglySorted_filter_lt; [| apply NoDup_region_indices].
  apply StronglySorted_merge_sort; apply _.
Qed.

Lemma scan_inv_start h : scan_inv h h [].
Proof.
  constructor.
  - by destruct h.
  - intros r Hr. by apply elem_of_nil in Hr.
  - done.
  - by rewrite app_nil_r.
Qed.

(** X7.  The whole humongous scan.  When every flagged region is the start
    region of a humongous type array (and, for the debug assertion, none of
    them is marked), the serial subtask reclaims every flagged object and
    nothing else: each region spanned by a flagged object is freed and
    detached from its set, every other region is as it was; concurrent
    mark is notified once per flagged object, in the order of the scan,
    that is by ascending index of the start regions; the subtask counts
    the regions and bytes of all these objects, and its teardown takes
    them off the humongous set length and the heap-wide used bytes. *)
Theorem eager_reclaim_frees_flagged_objects_only
    (this : EagerlyReclaimHumongousObjectsTask.t) (worker_id : nat)
    (h : G1CollectedHeap) :
  (forall c, c ∈ humongous_reclaim_candidates h -> reclaimable_object h c) ->
  (ASSERT = true -> forall c, c ∈ humongous_reclaim_candidates h -> c ∉ cm_mark_bitmap h) ->
  exists this' h' hf,
    EagerlyReclaimHumongousObjectsTask.do_work this worker_id h = Ok this' h'
    /\ (forall r, r ∈ candidate_regions h ->
          regions h' !! r = reclaimed_region <$> regions h !! r)
    /\ (forall r, r ∉ candidate_regions h -> regions h' !! r = regions h !! r)
    /\ cm_eagerly_reclaimed h' = cm_eagerly_reclaimed h ++ reclaim_order h
    /\ StronglySorted lt (reclaim_order h)
    /\ (forall c, c ∈ reclaim_order h <-> c ∈ humongous_reclaim_candidates h)
    /\ EagerlyReclaimHumongousObjectsTask.humongous_regions_reclaimed this'
       = wrap_uint (Z.of_nat (length (candidate_regions h)))
    /\ EagerlyReclaimHumongousObjectsTask.bytes_freed this'
       = wrap_size_t (used_bytes_of h (candidate_regions h))
    /\ EagerlyReclaimHumongousObjectsTask.destroy this' h' = Ok tt hf
    /\ regions hf = regions h'
    /\ humongous_set_length hf
       = wrap_uint (humongous_set_length h - Z.of_nat (length (candidate_regions h)))
    /\ summary_bytes_used hf
       = wrap_size_t (summary_bytes_used h - used_bytes_of h (candidate_regions h)).
Proof.
  intros Hobjs Hmarks.
  destruct (heap_region_iterate_over_scan h Hobjs Hmarks (region_indices h)
              [] G1FreeHumongousRegionClosure.new h)
    as (cl' & h' & Hrun & [Hframe Hin Hout Hnot] & Hrr & Hfb & _); try done.
  { apply NoDup_region_indices. }
  { intros i _ Hi. by apply elem_of_nil in Hi. }
  { intros c Hc. by apply elem_of_nil in Hc. }
  { apply scan_inv_start. }
  fold (reclaim_order h) in Hin, Hout, Hnot, Hrr, Hfb.
  fold (candidate_regions h) in Hin, Hout, Hrr, Hfb.
  cbn [app] in Hnot, Hin, Hout.
  eexists _, h', _. split.
  { unfold EagerlyReclaimHumongousObjectsTask.do_work, heap_region_iterate.
    erewrite bind_Ok.
    2:{ erewrite bind_Ok by reflexivity. exact Hrun. }
    reflexivity. }
  split; [exact Hin |]. split; [exact Hout |]. split; [exact Hnot |].
  split; [apply region_indices_filter_sorted |].
  split.
  { intros c. unfold reclaim_order. rewrite list_elem_of_filter, elem_of_region_indices.
    split; [by intros [Hc _] | intros Hc]. split; [done |].
    destruct (Hobjs c Hc) as (hr & Hr & _). by exists hr. }
  cbn [EagerlyReclaimHumongousObjectsTask.humongous_regions_reclaimed
       EagerlyReclaimHumongousObjectsTask.bytes_freed].
  split; [by rewrite Hrr |]. split; [by rewrite Hfb |].
  split; [reflexivity |]. split; [reflexivity |].
  cbn. rewrite Hrr, Hfb. cbn [G1FreeHumongousRegionClosure.new
    humongous_regions_reclaimed freed_bytes]. rewrite !Z.add_0_l.
  rewrite Hframe. cbn. split.
  - unfold wrap_uint, uint_bits. by rewrite Zminus_mod_idemp_r.
  - unfold wrap_size_t, size_t_bits. by rewrite Zminus_mod_idemp_r.
Qed.

End HumongousScan.

(** Two flagged objects, in regions 3-4 and 6: both are reclaimed, and
    concurrent mark hears of the object of region 3 first. *)
Lemma eager_reclaim_frees_flagged_objects_only_witness :
  reclaim_order heapB_two = [3; 6]%nat
  /\ candidate_regions heapB_two = [3; 4; 6]%nat
  /\ exists this' h',
      EagerlyReclaimHumongousObjectsTask.do_work (H := cfg_debug)
        EagerlyReclaimHumongousObjectsTask.new 0 heapB_two = Ok this' h'
      /\ cm_eagerly_reclaimed h' = [3; 6]%nat
      /\ regions h' !! 4%nat = reclaimed_region <$> regions heapB_two !! 4%nat
      /\ regions h' !! 6%nat = reclaimed_region <$> regions heapB_two !! 6%nat
      /\ EagerlyReclaimHumongousObjectsTask.bytes_freed this' = 53768.
Proof.
  assert (Ho : reclaim_order heapB_two = [3; 6]%nat) by (vm_compute; reflexivity).
  assert (Hc : candidate_regions heapB_two = [3; 4; 6]%nat) by (vm_compute; reflexivity).
  split; [exact Ho |]. split; [exact Hc |].
  destruct (eager_reclaim_frees_flagged_objects_only (H := cfg_debug)
              EagerlyReclaimHumongousObjectsTask.new 0 heapB_two)
    as (this' & h' & hf & Hrun & Hin & Hout & Hnot & _ & _ & _ & Hbytes & _).
  - intros c Hcand. cbn in Hcand.
    apply elem_of_union in Hcand as [->%elem_of_singleton | ->%elem_of_singleton];
      (eexists; split; [vm_compute; reflexivity |]; by split).
  - intros _ c _. cbn. set_solver.
  - exists this', h'. split; [exact Hrun |].
    split; [by rewrite Hnot, Ho |].
    split; [apply Hin; rewrite Hc; set_solver |].
    split; [apply Hin; rewrite Hc; set_solver |].
    rewrite Hbytes, Hc. vm_compute. reflexivity.
Defined.

(** ** The shape of the two batches *)

Section BatchShape.
Context `{VMConfig}.

(** X8.  The constructor of the bitmap-clearing subtask asserts that the
    pause is not a concurrent-start pause: built during one it aborts a
    debug build (and goes through in a product build).  The batch never
    does that: its constructor returns normally in every build and on
    every heap, changes nothing but the Eden set, and holds the subtask
    exactly when evacuation failed outside a concurrent-start pause. *)
Theorem clear_bitmaps_subtask_not_built_in_concurrent_start
    (pss : G1ParScanThreadStateSet) (efr : G1EvacFailureRegions) (h : G1CollectedHeap) :
  (ASSERT = true -> in_concurrent_start_gc h = true ->
   ClearRetainedRegionBitmapsTask.new efr h = Fatal AssertFailed h)
  /\ (ASSERT = false \/ in_concurrent_start_gc h = false ->
      ClearRetainedRegionBitmapsTask.new efr h = Ok (ClearRetainedRegionBitmaps efr) h)
  /\ exists b,
       G1PostEvacuateCollectionSetCleanupTask2.new pss efr h = Ok b (upd_eden (fun _ => ∅) h)
       /\ (ClearRetainedRegionBitmaps efr ∈ G1BatchedTask.parallel_tasks b
           <-> evacuation_failed efr = true /\ in_concurrent_start_gc h = false)
       /\ (in_concurrent_start_gc h = true ->
           G1BatchedTask.has_phase ClearRetainedRegionBitmapsPhase (all_tasks b) = false).
Proof.
  split; [| split].
  - intros Ha Hcs. unfold ClearRetainedRegionBitmapsTask.new.
    erewrite bind_Ok by reflexivity. rewrite Hcs.
    erewrite bind_Fatal; [reflexivity |]. unfold assert_. by rewrite Ha.
  - intros Hor. unfold ClearRetainedRegionBitmapsTask.new.
    erewrite bind_Ok by reflexivity.
    erewrite bind_Ok; [reflexivity |].
    apply assert_guarded. intros Ha. destruct Hor as [Hf | ->]; [congruence | done].
  - destruct (task2_new_ok pss efr h) as (b & Hb & _ & Hcrb & _).
    exists b. split; [exact Hb |]. split.
    + revert Hb. unfold G1PostEvacuateCollectionSetCleanupTask2.new.
      erewrite bind_Ok by reflexivity.
      destruct (evacuation_failed efr) eqn:Hfail;
        [destruct (in_concurrent_start_gc h) eqn:Hcs |].
      * erewrite bind_Ok.
        2:{ erewrite bind_Ok by reflexivity. rewrite Hcs. reflexivity. }
        erewrite bind_Ok by reflexivity.
        intros [= <-]. cbn.
        destruct COMPILER2_OR_JVMCI, (has_humongous_reclaim_candidates h),
          (UseTLAB && ResizeTLAB); cbn;
          rewrite ?elem_of_cons, ?elem_of_nil; naive_solver congruence.
      * erewrite bind_Ok.
        2:{ erewrite bind_Ok by reflexivity. rewrite Hcs. cbn [negb].
            erewrite bind_Ok.
            2:{ unfold ClearRetainedRegionBitmapsTask.new.
                erewrite bind_Ok by reflexivity. rewrite Hcs.
                erewrite bind_Ok by apply assert_true. reflexivity. }
            reflexivity. }
        erewrite bind_Ok by reflexivity.
        intros [= <-]. cbn.
        destruct COMPILER2_OR_JVMCI, (has_humongous_reclaim_candidates h),
          (UseTLAB && ResizeTLAB); cbn;
          rewrite ?elem_of_cons, ?elem_of_nil; naive_solver congruence.
      * erewrite bind_Ok by reflexivity.
        erewrite bind_Ok by reflexivity.
        intros [= <-]. cbn.
        destruct COMPILER2_OR_JVMCI, (has_humongous_reclaim_candidates h),
          (UseTLAB && ResizeTLAB); cbn;
          rewrite ?elem_of_cons, ?elem_of_nil; naive_solver congruence.
    + intros Hcs. rewrite Hcrb, Hcs. apply andb_false_r.
Qed.

Lemma task1_shape pss efr h :
  G1PostEvacuateCollectionSetCleanupTask1.new pss efr h
  = Ok {| G1BatchedTask.serial_tasks :=
            [MergePssTask; RecalculateUsedTask (evacuation_failed efr)]
            ++ (if should_sample_collection_set_candidates h
                then [SampleCollectionSetCandidatesTask] else []);
          G1BatchedTask.parallel_tasks :=
            CleanupAfterScanHeapRootsTask
            :: (if evacuation_failed efr then [RestoreRetainedRegionsTask efr] else []) |}
       h.
Proof.
  unfold G1PostEvacuateCollectionSetCleanupTask1.new.
  erewrite bind_Ok by reflexivity.
  by destruct (should_sample_collection_set_candidates h), (evacuation_failed efr).
Qed.

Lemma task2_shape pss efr h :
  G1PostEvacuateCollectionSetCleanupTask2.new pss efr h
  = Ok {| G1BatchedTask.serial_tasks :=
            (if COMPILER2_OR_JVMCI then [UpdateDerivedPointersTask] else [])
            ++ (if has_humongous_reclaim_candidates h
                then [EagerlyReclaimHumongousObjects EagerlyReclaimHumongousObjectsTask.new]
                else []);
          G1BatchedTask.parallel_tasks :=
            (if evacuation_failed efr
             then RestorePreservedMarksTask (pss_preserved_marks_num pss)
                  :: (if in_concurrent_start_gc h then []
                      else [ClearRetainedRegionBitmaps efr])
             else [])
            ++ [RedirtyLoggedCards
                  (RedirtyLoggedCardsTask.new (pss_rdcqs pss) efr)]
            ++ (if UseTLAB && ResizeTLAB then [ResizeTLABsTask] else [])
            ++ [FreeCollectionSet
                  {| FreeCollectionSetTask.worker_stats := [];
                     FreeCollectionSetTask.surviving_young_words :=
                       pss_surviving_young_words pss;
                     FreeCollectionSetTask.active_workers := 0%nat;
                     FreeCollectionSetTask.evac_failure_regions := efr |}] |}
       (upd_eden (fun _ => ∅) h).
Proof.
  unfold G1PostEvacuateCollectionSetCleanupTask2.new.
  erewrite bind_Ok by reflexivity.
  destruct (evacuation_failed efr) eqn:Hfail;
    [destruct (in_concurrent_start_gc h) eqn:Hcs |].
  - erewrite bind_Ok.
    2:{ erewrite bind_Ok by reflexivity. rewrite Hcs. reflexivity. }
    erewrite bind_Ok by reflexivity.
    by destruct COMPILER2_OR_JVMCI, (has_humongous_reclaim_candidates h),
      (UseTLAB && ResizeTLAB).
  - erewrite bind_Ok.
    2:{ erewrite bind_Ok by reflexivity. rewrite Hcs. cbn [negb].
        erewrite bind_Ok.
        2:{ unfold ClearRetainedRegionBitmapsTask.new.
            erewrite bind_Ok by reflexivity. rewrite Hcs.
            erewrite bind_Ok by apply assert_true. reflexivity. }
        reflexivity. }
    erewrite bind_Ok by reflexivity.
    by destruct COMPILER2_OR_JVMCI, (has_humongous_reclaim_candidates h),
      (UseTLAB && ResizeTLAB).
  - erewrite bind_Ok by reflexivity.
    erewrite bind_Ok by reflexivity.
    by destruct COMPILER2_OR_JVMCI, (has_humongous_reclaim_candidates h),
      (in_concurrent_start_gc h), (UseTLAB && ResizeTLAB).
Qed.

(** X9.  What the two batches hold whatever the pause was like, and what
    depends on flags only.  Batch 1 starts its serial list with the merge
    of the per-thread states and the used-bytes recalculation, told
    whether evacuation failed, samples the candidates exactly when the
    heap asks for it, and always cleans up after the heap-root scan.
    Batch 2 always redirties the logged cards and frees the collection
    set, which it registers last; it updates derived pointers (first)
    exactly when a C2 or JVMCI compiler is built in, and resizes TLABs
    exactly when both TLAB flags are on.  No batch holds two subtasks of
    the same phase. *)
Theorem cleanup_batches_fixed_and_flag_subtasks
    (pss : G1ParScanThreadStateSet) (efr : G1EvacFailureRegions) (h : G1CollectedHeap) :
  exists b1 b2 h2,
    G1PostEvacuateCollectionSetCleanupTask1.new pss efr h = Ok b1 h
    /\ G1PostEvacuateCollectionSetCleanupTask2.new pss efr h = Ok b2 h2
    /\ take 2 (G1BatchedTask.serial_tasks b1)
       = [MergePssTask; RecalculateUsedTask (evacuation_failed efr)]
    /\ (G1BatchedTask.has_phase SampleCollectionSetCandidates (all_tasks b1)
        = should_sample_collection_set_candidates h)
    /\ head (G1BatchedTask.parallel_tasks b1) = Some CleanupAfterScanHeapRootsTask
    /\ G1BatchedTask.has_phase RedirtyCards (G1BatchedTask.parallel_tasks b2) = true
    /\ (exists task, last (G1BatchedTask.parallel_tasks b2) = Some (FreeCollectionSet task))
    /\ (G1BatchedTask.has_phase UpdateDerivedPointers (all_tasks b2) = COMPILER2_OR_JVMCI)
    /\ (COMPILER2_OR_JVMCI = true ->
        head (G1BatchedTask.serial_tasks b2) = Some UpdateDerivedPointersTask)
    /\ (G1BatchedTask.has_phase ResizeThreadLABs (all_tasks b2) = UseTLAB && ResizeTLAB)
    /\ NoDup (phase <$> all_tasks b1)
    /\ NoDup (phase <$> all_tasks b2).
Proof.
  eexists _, _, _. split; [apply task1_shape |]. split; [apply task2_shape |].
  unfold all_tasks. cbn [G1BatchedTask.serial_tasks G1BatchedTask.parallel_tasks].
  split; [done |].
  split; [by destruct (should_sample_collection_set_candidates h), (evacuation_failed efr) |].
  split; [done |].
  split; [by destruct (evacuation_failed efr), (in_concurrent_start_gc h),
             (UseTLAB && ResizeTLAB) |].
  split; [eexists; by destruct (evacuation_failed efr), (in_concurrent_start_gc h),
                       (UseTLAB && ResizeTLAB) |].
  split; [by destruct COMPILER2_OR_JVMCI, (has_humongous_reclaim_candidates h),
             (evacuation_failed efr), (in_concurrent_start_gc h),
             (UseTLAB && ResizeTLAB) |].
  split; [by intros -> |].
  split; [by destruct COMPILER2_OR_JVMCI, (has_humongous_reclaim_candidates h),
             (evacuation_failed efr), (in_concurrent_start_gc h),
             (UseTLAB && ResizeTLAB) |].
  split.
  - destruct (should_sample_collection_set_candidates h), (evacuation_failed efr);
      cbn; by_compute.
  - destruct COMPILER2_OR_JVMCI, (has_humongous_reclaim_candidates h),
      (evacuation_failed efr), (in_concurrent_start_gc h), (UseTLAB && ResizeTLAB);
      cbn; by_compute.
Qed.

End BatchShape.

(** ** The natives of the attach library *)

Section AttachNatives.
Import Java_sun_tools_attach_VirtualMachineImpl.

Lemma thrown_app l1 l2 : thrown (l1 ++ l2) = thrown l1 ++ thrown l2.
Proof. unfold thrown. apply omap_app. Qed.

Lemma releases_app l1 l2 : releases (l1 ++ l2) = (releases l1 + releases l2)%nat.
Proof. unfold releases. by rewrite omap_app, length_app. Qed.

Lemma land_pow2_testbit x n :
  0 <= n -> (Z.land x (2 ^ n) =? 0) = negb (Z.testbit x n).
Proof.
  intros Hn. destruct (Z.testbit x n) eqn:Hb; cbn.
  - apply Z.eqb_neq. intros Hz.
    assert (Z.testbit (Z.land x (2 ^ n)) n = true).
    { by rewrite Z.land_spec, Hb, Z.pow2_bits_true. }
    rewrite Hz, Z.bits_0 in H. done.
  - apply Z.eqb_eq. apply Z.bits_inj'. intros m Hm.
    rewrite Z.land_spec, Z.bits_0.
    destruct (decide (n = m)) as [<- | Hne].
    + by rewrite Hb.
    + rewrite Z.pow2_bits_false by done. apply andb_false_r.
Qed.

Lemma land_group_other_rw mode :
  Z.land mode (Z.lor (Z.lor (Z.lor S_IRGRP S_IWGRP) S_IROTH) S_IWOTH) = 0
  <-> Forall (fun i => Z.testbit mode i = false) [5; 4; 2; 1].
Proof.
  change (Z.lor (Z.lor (Z.lor S_IRGRP S_IWGRP) S_IROTH) S_IWOTH) with 54.
  split.
  - intros Hz. repeat constructor.
    + pose proof (f_equal (fun z => Z.testbit z 5) Hz) as Hb. cbn beta in Hb.
      rewrite Z.land_spec, Z.bits_0 in Hb. change (Z.testbit 54 5) with true in Hb.
      by rewrite andb_true_r in Hb.
    + pose proof (f_equal (fun z => Z.testbit z 4) Hz) as Hb. cbn beta in Hb.
      rewrite Z.land_spec, Z.bits_0 in Hb. change (Z.testbit 54 4) with true in Hb.
      by rewrite andb_true_r in Hb.
    + pose proof (f_equal (fun z => Z.testbit z 2) Hz) as Hb. cbn beta in Hb.
      rewrite Z.land_spec, Z.bits_0 in Hb. change (Z.testbit 54 2) with true in Hb.
      by rewrite andb_true_r in Hb.
    + pose proof (f_equal (fun z => Z.testbit z 1) Hz) as Hb. cbn beta in Hb.
      rewrite Z.land_spec, Z.bits_0 in Hb. change (Z.testbit 54 1) with true in Hb.
      by rewrite andb_true_r in Hb.
  - intros Hall. apply Forall_cons in Hall as [H5 Hall].
    apply Forall_cons in Hall as [H4 Hall]. apply Forall_cons in Hall as [H2 Hall].
    apply Forall_cons in Hall as [H1 _].
    apply Z.bits_inj'. intros m Hm. rewrite Z.land_spec, Z.bits_0.
    destruct (decide (m = 0)) as [-> | ?]; [apply andb_false_r |].
    destruct (decide (m = 1)) as [-> | ?]; [by rewrite H1 |].
    destruct (decide (m = 2)) as [-> | ?]; [by rewrite H2 |].
    destruct (decide (m = 3)) as [-> | ?]; [apply andb_false_r |].
    destruct (decide (m = 4)) as [-> | ?]; [by rewrite H4 |].
    destruct (decide (m = 5)) as [-> | ?]; [by rewrite H5 |].
    rewrite (Z.bits_above_log2 54 m); [apply andb_false_r | lia |].
    change (Z.log2 54) with 5. lia.
Qed.

Context {R : Type} `{SysResult R}.

(** X10.  [checkPermissions] throws exactly when the file may not be used.
    When [stat] fails the exception carries its [errno].  Otherwise no
    exception is thrown if and only if the caller is root or owns the file
    and shares its group, and the mode gives neither group nor others read
    or write access; root skips the two ownership tests but not the mode
    test, and the execute and special bits play no role. *)
Theorem checkPermissions_throws_iff_not_permitted (uid gid : Z)
    (os_stat : cstring -> stat_result) (p : cstring) (isCopy : bool) (w : World R) :
  let res := if negb (stat_ret (os_stat p) =? 0)
             then stat_errno (os_stat p) else stat_ret (os_stat p) in
  exists w' new,
    checkPermissions uid gid os_stat (Some p) isCopy w = Ok tt w'
    /\ trace w' = trace w ++ new
    /\ (res <> 0 -> thrown new = [IOException (StrError res)])
    /\ (res = 0 ->
        (thrown new = [] <-> permitted uid gid (stat_sb (os_stat p)))
        /\ (~ permitted uid gid (stat_sb (os_stat p)) ->
            exists why, thrown new = [IOException (NotSecure p why)])).
Proof.
  intros res.
  assert (Hmode : (Z.land (st_mode (stat_sb (os_stat p)))
                     (Z.lor (Z.lor (Z.lor S_IRGRP S_IWGRP) S_IROTH) S_IWOTH) =? 0) = true
                  <-> Forall (fun i => Z.testbit (st_mode (stat_sb (os_stat p))) i = false)
                        [5; 4; 2; 1]).
  { rewrite Z.eqb_eq. apply land_group_other_rw. }
  unfold permitted.
  destruct isCopy; unfold checkPermissions, JNU_Throw, emit; unfold_monad; cbn; fold res;
    (destruct (res =? 0) eqn:Hres;
     [ apply Z.eqb_eq in Hres;
       destruct (st_uid (stat_sb (os_stat p)) =? uid) eqn:Hu;
       destruct (uid =? ROOT_UID) eqn:Hr;
       destruct (st_gid (stat_sb (os_stat p)) =? gid) eqn:Hg;
       destruct (Z.land (st_mode (stat_sb (os_stat p)))
                   (Z.lor (Z.lor (Z.lor S_IRGRP S_IWGRP) S_IROTH) S_IWOTH) =? 0) eqn:Hm;
       cbn
     | apply Z.eqb_neq in Hres ]);
    (eexists _, _; split; [reflexivity |]; cbn;
     split; [by rewrite <- ?app_assoc |];
     split; [intros Hne; try done |]; intros Hz; try done);
    rewrite ?Z.eqb_eq, ?Z.eqb_neq in *; cbn;
    try (split; [split; [intros _ | done] | intros Hn]);
    try (split; [split; [done | intros [Ho Hb]] | intros _; by eexists]);
    try (split; [by auto | by apply Hmode]);
    try (exfalso; apply Hn; split; [by auto | by apply Hmode]);
    try (apply Hmode in Hb; congruence);
    try (destruct Ho as [? | [? ?]]; congruence).
Qed.

Lemma sigmask_SIGQUIT_bit x :
  negb (Z.land x (sigmask SIGQUIT) =? 0) = Z.testbit x 2.
Proof.
  change (sigmask SIGQUIT) with (2 ^ 2).
  rewrite land_pow2_testbit by lia. apply negb_involutive.
Qed.

(** X11.  [checkCatchesAndSendQuitTo] signals only a process that is ready
    for it: [kill(pid, SIGQUIT)] is called if and only if [sysctl] gave
    the process record and the process catches [SIGQUIT] and does not
    ignore it, and no other signal or process is ever signalled.  The
    native returns true exactly when the signal was sent and [kill]
    returned 0, and then throws nothing; it returns false without an
    exception exactly when the process is not ready and the caller asked
    not to be told. *)
Theorem quit_sent_only_to_a_process_that_catches_it
    (os_sysctl : Z -> option kinfo_proc) (os_kill : Z -> Z -> Z)
    (pid : Z) (throwIfNotReady : bool) (w : World R) :
  exists b w' new,
    checkCatchesAndSendQuitTo os_sysctl os_kill pid throwIfNotReady w = Ok b w'
    /\ trace w' = trace w ++ new
    /\ (Kill pid SIGQUIT ∈ new
        <-> exists k, os_sysctl pid = Some k /\ catches_quit k)
    /\ (forall pid' sig, Kill pid' sig ∈ new -> pid' = pid /\ sig = SIGQUIT)
    /\ (b = true <-> Kill pid SIGQUIT ∈ new /\ os_kill pid SIGQUIT = 0)
    /\ (b = true -> thrown new = [])
    /\ (b = false /\ thrown new = []
        <-> (exists k, os_sysctl pid = Some k /\ ~ catches_quit k)
            /\ throwIfNotReady = false).
Proof.
  unfold checkCatchesAndSendQuitTo, JNU_Throw, emit, catches_quit. unfold_monad.
  cbn [trace script sent].
  destruct (os_sysctl pid) as [k |] eqn:Hk.
  2:{ eexists _, _, _. split; [reflexivity |]. cbn [trace].
      split; [by rewrite <- ?app_assoc |]. cbn [app thrown omap list_omap].
      rewrite !elem_of_cons, elem_of_nil.
      split; [naive_solver |]. split.
      { intros pid' sig. rewrite !elem_of_cons, elem_of_nil. naive_solver. }
      naive_solver. }
  rewrite !sigmask_SIGQUIT_bit.
  destruct (Z.testbit (p_sigcatch k) 2) eqn:Hc;
    destruct (Z.testbit (p_sigignore k) 2) eqn:Hi; cbn [andb negb];
    try destruct (os_kill pid SIGQUIT =? 0) eqn:Hkill; cbn [negb];
    try destruct throwIfNotReady;
    rewrite ?Z.eqb_eq, ?Z.eqb_neq in *;
    (eexists _, _, _; split; [reflexivity |]; cbn [trace];
     split; [by rewrite <- ?app_assoc |]; cbn [app thrown omap list_omap]).
  all: rewrite ?elem_of_cons, ?elem_of_nil.
  all: split; [naive_solver congruence |].
  all: split; [intros pid' sig; rewrite ?elem_of_cons, ?elem_of_nil;
               naive_solver congruence |].
  all: naive_solver congruence.
Qed.

(** X12.  [connect] connects to the first [sizeof(sun_path) - 1] = 103
    bytes of the path: a longer path is cut without notice, so two paths
    with the same first 103 bytes reach the same socket.  [ENOENT] is
    reported as [FileNotFoundException], any other error as an
    [IOException] with the error's text, and success (or a null path)
    throws nothing. *)
Theorem connect_truncates_path_and_maps_errno (os_connect : Z -> cstring -> option Z)
    (fd : Z) (p : cstring) (isCopy : bool) (w : World R) :
  let sun_path := take (sun_path_size - 1) p in
  connect os_connect fd (Some p) isCopy w = connect os_connect fd (Some sun_path) isCopy w
  /\ (length sun_path < sun_path_size)%nat
  /\ (forall q, take (sun_path_size - 1) q = sun_path ->
        connect os_connect fd (Some q) isCopy w = connect os_connect fd (Some p) isCopy w)
  /\ connect os_connect fd None isCopy w = Ok tt w
  /\ exists w' new,
       connect os_connect fd (Some p) isCopy w = Ok tt w'
       /\ trace w' = trace w ++ Connect fd sun_path :: new
       /\ (forall fd' q, Connect fd' q ∉ new)
       /\ thrown new
          = match os_connect fd sun_path with
            | None => []
            | Some err =>
                if err =? 0 then []
                else if err =? ENOENT then [FileNotFoundException]
                     else [IOException (StrError err)]
            end.
Proof.
  intros sun_path.
  assert (Htake : take (sun_path_size - 1) sun_path = sun_path).
  { subst sun_path. by rewrite take_take, Nat.min_id. }
  split; [| split; [| split; [| split]]].
  - unfold connect. by rewrite Htake.
  - subst sun_path. rewrite length_take. unfold sun_path_size. lia.
  - intros q Hq. unfold connect. fold sun_path. by rewrite Hq.
  - reflexivity.
  - unfold connect, JNU_Throw, emit. unfold_monad. fold sun_path. cbn [trace script sent].
    destruct (os_connect fd sun_path) as [err |] eqn:Herr;
      [destruct (err =? 0) eqn:Hz; [| destruct (err =? ENOENT) eqn:He] |];
      destruct isCopy; cbn [negb];
      (eexists _, _; split; [reflexivity |]; cbn [trace];
       split; [by rewrite <- ?app_assoc |]; cbn [app thrown omap list_omap];
       split; [| done]; intros fd' q;
       rewrite ?elem_of_cons, ?elem_of_nil; naive_solver congruence).
Qed.

(** ** [RESTARTABLE] *)

Lemma RESTARTABLE_from_spec (call : event) (pending : list R) (tr : list event) :
  exists k rest,
    RESTARTABLE_from call pending tr
    = (first_result pending, (rest, tr ++ replicate (S k) call))
    /\ (length rest <= length pending)%nat
    /\ (pending <> [] -> (length rest < length pending)%nat)
    /\ is_EINTR (first_result pending) = false.
Proof.
  revert tr. induction pending as [| r pending IH]; intros tr; cbn.
  - exists 0%nat, []. split; [done |]. split; [done |]. split; [done |].
    apply failed_EIO_not_EINTR.
  - destruct (is_EINTR r) eqn:Hr.
    + destruct (IH (tr ++ [call])) as (k & rest & Hrun & Hle & _ & Hne).
      exists (S k), rest. split.
      { rewrite Hrun. by rewrite <- app_assoc. }
      split; [lia |]. split; [intros _; lia | done].
    + exists 0%nat, pending. split; [done |]. split; [lia |]. split; [intros _; lia | done].
Qed.

Lemma RESTARTABLE_spec (call : event) (w : World R) :
  exists k rest,
    RESTARTABLE call w
    = Ok (first_result (script w))
         {| script := rest; trace := trace w ++ replicate (S k) call; sent := sent w |}
    /\ (length rest <= length (script w))%nat
    /\ (script w <> [] -> (length rest < length (script w))%nat)
    /\ is_EINTR (first_result (script w)) = false.
Proof.
  destruct (RESTARTABLE_from_spec call (script w) (trace w)) as (k & rest & Hrun & Hrest).
  exists k, rest. split; [| exact Hrest]. unfold RESTARTABLE. by rewrite Hrun.
Qed.

Lemma thrown_replicate n call :
  (forall t, call <> Throw t) -> thrown (replicate n call) = [].
Proof.
  intros Hc. induction n as [| n IH]; [done |]. cbn.
  destruct call; try done. by destruct (Hc t).
Qed.

Lemma releases_replicate n call :
  call <> ReleaseStringPlatformChars -> releases (replicate n call) = 0%nat.
Proof.
  intros Hc. unfold releases. induction n as [| n IH]; [done |]. cbn.
  destruct call; try done.
Qed.

Lemma closed_replicate n call :
  (forall fd, call <> Close fd) -> closed (replicate n call) = [].
Proof.
  intros Hc. induction n as [| n IH]; [done |]. cbn.
  destruct call; try done. by destruct (Hc fd).
Qed.

Lemma closed_app l1 l2 : closed (l1 ++ l2) = closed l1 ++ closed l2.
Proof. unfold closed. apply omap_app. Qed.

End AttachNatives.

Section AttachFile.
Import Java_sun_tools_attach_VirtualMachineImpl.

(** X13.  [createAttachFile0] never leaks the descriptor and never fails
    on [chown]: with a null path it throws without a system call;
    otherwise the file is opened with [O_CREAT | O_EXCL] and mode 0600,
    again for as long as [open] is interrupted; when [open] fails an
    [IOException] is thrown and nothing is closed or chowned; when it
    gives a descriptor the file is chowned to the effective user and
    group, that very descriptor is closed, once, and nothing is thrown,
    whatever [chown] returned. *)
Theorem createAttachFile0_closes_what_it_opens (geteuid getegid : Z)
    (path : option cstring) (isCopy : bool) (w : World int_result) :
  exists w' new,
    createAttachFile0 geteuid getegid path isCopy w = Ok tt w'
    /\ trace w' = trace w ++ new
    /\ (path = None -> new = [Throw (IOException MustSpecifyPath)])
    /\ (forall _path, path = Some _path ->
        (forall q flags mode, Open q flags mode ∈ new ->
           q = _path /\ flags = 2560 /\ mode = 384)
        /\ Open _path 2560 384 ∈ new
        /\ match opened (first_result (script w)) with
           | Some fd =>
               thrown new = [] /\ closed new = [fd]
               /\ Chown _path geteuid getegid ∈ new
           | None =>
               thrown new = [IOExceptionWithLastError sys_open] /\ closed new = []
               /\ forall q uid gid, Chown q uid gid ∉ new
           end).
Proof.
  destruct path as [_path |].
  2:{ eexists _, _. split; [reflexivity |]. split; [reflexivity |]. split; [done |]. done. }
  unfold createAttachFile0.
  destruct (RESTARTABLE_spec (Open _path (Z.lor O_CREAT O_EXCL) (Z.lor S_IWUSR S_IRUSR)) w)
    as (k & rest & Hopen & _ & _ & _).
  rewrite (bind_Ok _ _ _ _ _ Hopen).
  set (w1 := {| script := rest |}).
  assert (Hopens : forall q flags mode (l : list event),
            (forall q' f' m', Open q' f' m' ∉ l) ->
            Open q flags mode
              ∈ replicate (S k) (Open _path (Z.lor O_CREAT O_EXCL) (Z.lor S_IWUSR S_IRUSR))
                ++ l ->
            q = _path /\ flags = 2560 /\ mode = 384).
  { intros q flags mode l Hl [Hin | Hin]%elem_of_app; [| by apply Hl in Hin].
    apply elem_of_replicate in Hin as [[= -> -> ->] _]. done. }
  assert (Hopen1 : forall l : list event,
            Open _path 2560 384
              ∈ replicate (S k) (Open _path (Z.lor O_CREAT O_EXCL) (Z.lor S_IWUSR S_IRUSR))
                ++ l).
  { intros l. apply elem_of_app. left. cbn. apply elem_of_cons. by left. }
  unfold opened.
  destruct (first_result (script w)) as [| errno | fd] eqn:Hfirst;
    [| | destruct (fd =? -1) eqn:Hfd].
  4:{ (* open gave a descriptor *)
      destruct (RESTARTABLE_spec (Chown _path geteuid getegid) w1)
        as (k2 & rest2 & Hchown & _ & _ & _).
      rewrite (bind_Ok _ _ _ _ _ Hchown).
      unfold JNU_Throw, emit. unfold_monad. subst w1. cbn [trace script sent].
      destruct isCopy;
        (eexists _, _; split; [reflexivity |]; cbn [trace];
         split; [by rewrite <- !app_assoc |]; split; [done |];
         intros ? [= <-]; split; [| split; [| split; [| split]]]).
      all: try apply Hopen1.
      all: try (intros q flags mode; apply Hopens; intros q' f' m';
                rewrite !elem_of_app, ?elem_of_cons, ?elem_of_nil, ?elem_of_replicate;
                naive_solver congruence).
      all: rewrite ?thrown_app, ?closed_app, ?thrown_replicate, ?closed_replicate by done;
        try done.
      all: rewrite !elem_of_app; right; left; cbn; apply elem_of_cons; by left. }
  all: unfold JNU_Throw, emit; unfold_monad; subst w1; cbn [trace script sent];
    destruct isCopy;
    (eexists _, _; split; [reflexivity |]; cbn [trace];
     split; [by rewrite <- ?app_assoc |]; split; [done |];
     intros ? [= <-]; split; [| split; [| split; [| split]]]).
  all: try apply Hopen1.
  all: try (intros q flags mode; apply Hopens; intros q' f' m';
            rewrite ?elem_of_app, ?elem_of_cons, ?elem_of_nil; naive_solver congruence).
  all: rewrite ?thrown_app, ?closed_app, ?thrown_replicate, ?closed_replicate by done;
    try done.
  all: intros q uid gid; rewrite ?elem_of_app, ?elem_of_cons, ?elem_of_nil,
         ?elem_of_replicate; naive_solver congruence.
Qed.

End AttachFile.

Section AttachIO.
Import Java_sun_tools_attach_VirtualMachineImpl.

Lemma wrap_jint_small z : - 2 ^ 31 <= z < 2 ^ 31 -> wrap_jint z = z.
Proof. intros Hz. unfold wrap_jint. rewrite Z.mod_small; lia. Qed.

(** X14.  [read] asks for at most 128 bytes and never for more than the
    room left in the array, again for as long as it is interrupted.  Data
    is copied into the array at [off] and its count returned, the rest of
    the array is untouched; an error throws and returns -1; and -1 is also
    returned, without an exception, at end of file - and when the array
    has no room left, since a read of zero bytes returns zero. *)
Theorem read_copies_at_most_128_bytes (fd : Z) (ba : list byte) (off baLen : Z)
    (w : World read_result) :
  0 <= off <= baLen -> baLen <= Z.of_nat (length ba) -> baLen < 2 ^ 31 ->
  let len := Z.min 128 (baLen - off) in
  exists n ba' w' k new,
    read fd ba off baLen w = Ok (n, ba') w'
    /\ trace w' = trace w ++ replicate (S k) (Read fd len) ++ new
    /\ length ba' = length ba
    /\ match first_result (script w) with
       | ReadData data =>
           let got := take (Z.to_nat len) data in
           new = []
           /\ (got = [] -> n = -1 /\ ba' = ba)
           /\ (got <> [] ->
               n = Z.of_nat (length got) /\ 0 < n <= len
               /\ ba' = take (Z.to_nat off) ba ++ got ++ drop (Z.to_nat (off + n)) ba)
       | _ => n = -1 /\ ba' = ba /\ new = [Throw (IOExceptionWithLastError sys_read)]
       end
    /\ (off = baLen -> n = -1).
Proof.
  intros Hoff Hlen Hmax len. unfold read.
  rewrite (wrap_jint_small (baLen - off)) by lia.
  rewrite (wrap_size_t_small (baLen - off)) by lia.
  replace (if baLen - off <? 128 then baLen - off else 128) with len.
  2:{ subst len. destruct (baLen - off <? 128) eqn:Hlt; [apply Z.ltb_lt in Hlt | apply Z.ltb_ge in Hlt]; lia. }
  destruct (RESTARTABLE_spec (Read fd len) w) as (k & rest & Hread & _ & _ & Hne).
  rewrite (bind_Ok _ _ _ _ _ Hread).
  destruct (first_result (script w)) as [| errno | data] eqn:Hfirst; [done | |].
  - unfold JNU_Throw, emit. unfold_monad. cbn [trace script sent].
    eexists _, _, _, k, _. split; [reflexivity |]. cbn [trace].
    split; [by rewrite <- app_assoc |]. done.
  - set (got := take (Z.to_nat len) data).
    assert (Hgot : (length got <= Z.to_nat len)%nat).
    { subst got. rewrite length_take. lia. }
    destruct (Z.of_nat (length got) =? 0) eqn:Hz.
    + apply Z.eqb_eq in Hz. assert (got = []) as Hnil by (apply nil_length_inv; lia).
      eexists _, _, _, k, []. split; [reflexivity |]. cbn [trace].
      split; [by rewrite app_nil_r |]. split; [done |].
      split; [| done].
      split; [done |]. split; [done |]. intros Hx. by rewrite Hnil in Hx.
    + apply Z.eqb_neq in Hz.
      rewrite (wrap_jint_small (Z.of_nat (length got))) by lia.
      unfold SetByteArrayRegion.
      replace ((0 <=? off) && (0 <=? Z.of_nat (length got))
               && (off + Z.of_nat (length got) <=? Z.of_nat (length ba))) with true.
      2:{ symmetry. rewrite !andb_true_iff, !Z.leb_le. lia. }
      unfold_monad.
      eexists _, _, _, k, []. split; [reflexivity |]. cbn [trace].
      split; [by rewrite app_nil_r |].
      rewrite Nat2Z.id, (take_ge got) by lia.
      split; [| split].
      * rewrite !length_app, length_take, length_drop. lia.
      * split; [done |]. split; [intros Hx; rewrite Hx in Hz; done |].
        intros _. split; [done |]. split; [lia | done].
      * intros ->. subst len. rewrite Z.sub_diag in Hgot. cbn in Hgot.
        assert (length got = 0%nat) by lia. lia.
Qed.

Lemma write_restartable_spec (fd : Z) (buf : list byte) (w : World write_result) :
  exists k rest,
    let accepted := match first_result (script w) with
                    | WriteAccepts a => Some (take a buf)
                    | _ => None
                    end in
    write_restartable fd buf w
    = Ok (match accepted with Some bytes => Z.of_nat (length bytes) | None => -1 end)
         {| script := rest;
            trace := trace w ++ replicate (S k) (Write fd buf);
            sent := sent w ++ default [] accepted |}
    /\ (length rest <= length (script w))%nat
    /\ (script w <> [] -> (length rest < length (script w))%nat)
    /\ (script w = [] -> accepted = None).
Proof.
  destruct (RESTARTABLE_spec (Write fd buf) w) as (k & rest & Hrun & Hle & Hlt & _).
  exists k, rest. cbn zeta. unfold write_restartable.
  rewrite (bind_Ok _ _ _ _ _ Hrun).
  split; [| split; [done | split; [done |]]].
  - destruct (first_result (script w)); unfold_monad; cbn [script trace sent default];
      by rewrite ?app_nil_r.
  - intros ->. done.
Qed.

Lemma Forall_write_call_replicate fd buf n :
  (length buf <= 128)%nat -> Forall (write_call fd) (replicate n (Write fd buf)).
Proof. intros Hb. apply Forall_replicate. by split. Qed.

(** The loop of [write], from the state in which [k] of the [total] bytes
    have been taken by the socket. *)
Lemma write_loop_spec uninit fd ba off0 total : forall n k w,
  (length (script w) <= n)%nat ->
  0 <= off0 -> off0 + total <= Z.of_nat (length ba) ->
  Z.of_nat (length ba) < 2 ^ 31 ->
  0 <= k < total ->
  exists w' k' new,
    (forall fuel, (length (script w) < fuel)%nat ->
       write_loop uninit fuel fd ba (off0 + k) (total - k) w = Ok tt w')
    /\ k <= k' <= total
    /\ sent w' = sent w ++ take (Z.to_nat (k' - k)) (drop (Z.to_nat (off0 + k)) ba)
    /\ trace w' = trace w ++ new
    /\ Forall (write_call fd) new
    /\ ((thrown new = [] /\ k' = total)
        \/ thrown new = [IOExceptionWithLastError sys_write]).
Proof.
  induction n as [| n IH]; intros k w Hscript Hoff Hlen Hmax Hk.
  all: set (len := if total - k <? 128 then total - k else 128).
  all: assert (Hlen1 : 0 < len <= 128 /\ len <= total - k)
    by (subst len; destruct (total - k <? 128) eqn:Hlt;
        [apply Z.ltb_lt in Hlt | apply Z.ltb_ge in Hlt]; lia).
  all: set (region := take (Z.to_nat len) (drop (Z.to_nat (off0 + k)) ba)).
  all: assert (Hregion : length region = Z.to_nat len)
    by (subst region; rewrite length_take, length_drop; lia).
  all: assert (Hround : forall fuel,
         write_loop uninit (S fuel) fd ba (off0 + k) (total - k) w
         = (n ← write_restartable fd region;
            if 0 <? n then
              if 0 <? wrap_size_t (total - k - n)
              then write_loop uninit fuel fd ba (wrap_jint (off0 + k + n))
                     (wrap_size_t (total - k - n))
              else mret tt
            else JNU_Throw (IOExceptionWithLastError sys_write)) w).
  1, 3: intros fuel; cbn [write_loop]; fold len; unfold GetByteArrayRegion;
    replace ((0 <=? off0 + k) && (0 <=? len)
             && (off0 + k + len <=? Z.of_nat (length ba))) with true
      by (symmetry; rewrite !andb_true_iff, !Z.leb_le; lia);
    erewrite bind_Ok by reflexivity;
    by rewrite take_app_length' by done.
  all: destruct (write_restartable_spec fd region w) as (j & rest & Hrun & Hle & Hlt & Hnil).
  all: cbn zeta in Hrun, Hnil.
  all: assert (Hcalls : Forall (write_call fd) (replicate (S j) (Write fd region)))
    by (apply Forall_write_call_replicate; lia).
  all: assert (Hfail : forall w1 : World write_result,
         sent w1 = sent w -> trace w1 = trace w ++ replicate (S j) (Write fd region) ->
         exists w' k' new,
           JNU_Throw (IOExceptionWithLastError sys_write) w1 = Ok tt w'
           /\ k <= k' <= total
           /\ sent w' = sent w ++ take (Z.to_nat (k' - k)) (drop (Z.to_nat (off0 + k)) ba)
           /\ trace w' = trace w ++ new
           /\ Forall (write_call fd) new
           /\ ((thrown new = [] /\ k' = total)
               \/ thrown new = [IOExceptionWithLastError sys_write])).
  1, 3: intros w1 Hs1 Ht1; eexists _, k, _; split; [reflexivity |];
    split; [lia |]; cbn [sent trace]; rewrite Hs1, Ht1;
    split; [by rewrite Z.sub_diag, app_nil_r |];
    split; [by rewrite <- app_assoc |];
    split; [apply Forall_app; split; [done | by repeat constructor] |];
    right; by rewrite thrown_app, thrown_replicate.
  - (* the script is empty: the call fails *)
    assert (script w = []) as Hempty by (apply nil_length_inv; lia).
    rewrite (Hnil Hempty) in Hrun. cbn [default from_option] in Hrun; unfold id in Hrun.
    destruct (Hfail {| script := rest; trace := trace w ++ replicate (S j) (Write fd region);
                       sent := sent w ++ [] |})
      as (w' & k' & new & Hthrow & Hrest); [by rewrite app_nil_r | done |].
    exists w', k', new. split; [| exact Hrest].
    intros [| fuel] Hfuel; [lia |]. by rewrite Hround, (bind_Ok _ _ _ _ _ Hrun).
  - destruct (first_result (script w)) as [| errno | a] eqn:Hfirst.
    + cbn [default from_option] in Hrun; unfold id in Hrun.
      destruct (Hfail {| script := rest; trace := trace w ++ replicate (S j) (Write fd region);
                         sent := sent w ++ [] |})
        as (w' & k' & new & Hthrow & Hrest); [by rewrite app_nil_r | done |].
      exists w', k', new. split; [| exact Hrest].
      intros [| fuel] Hfuel; [lia |]. by rewrite Hround, (bind_Ok _ _ _ _ _ Hrun).
    + cbn [default from_option] in Hrun; unfold id in Hrun.
      destruct (Hfail {| script := rest; trace := trace w ++ replicate (S j) (Write fd region);
                         sent := sent w ++ [] |})
        as (w' & k' & new & Hthrow & Hrest); [by rewrite app_nil_r | done |].
      exists w', k', new. split; [| exact Hrest].
      intros [| fuel] Hfuel; [lia |]. by rewrite Hround, (bind_Ok _ _ _ _ _ Hrun).
    + cbn [default from_option] in Hrun; unfold id in Hrun.
      set (bytes := take a region) in *.
      assert (Hbytes : (length bytes <= Z.to_nat len)%nat).
      { subst bytes. rewrite length_take. lia. }
      set (w1 := {| script := rest |}) in Hrun.
      destruct (0 <? Z.of_nat (length bytes)) eqn:Hn.
      2:{ pose proof Hn as Hn0. apply Z.ltb_ge in Hn0.
          assert (bytes = []) as Hb by (apply nil_length_inv; lia).
          destruct (Hfail w1) as (w' & k' & new & Hthrow & Hrest);
            [subst w1; cbn; by rewrite Hb, app_nil_r | done |].
          exists w', k', new. split; [| exact Hrest].
          intros [| fuel] Hfuel; [lia |].
          by rewrite Hround, (bind_Ok _ _ _ _ _ Hrun); cbv beta; rewrite Hn. }
      pose proof Hn as Hn'. apply Z.ltb_lt in Hn'.
      set (m := Z.of_nat (length bytes)) in *.
      assert (Hsent : bytes = take (Z.to_nat m) (drop (Z.to_nat (off0 + k)) ba)).
      { subst m. rewrite Nat2Z.id. subst bytes region. rewrite !take_take, length_take.
        set (X := drop (Z.to_nat (off0 + k)) ba).
        destruct (decide (a `min` Z.to_nat len <= length X)%nat).
        - f_equal. lia.
        - rewrite !take_ge; [done | lia | lia]. }
      assert (Hne : script w <> []) by (intros Hx; by specialize (Hnil Hx)).
      specialize (Hlt Hne).
      destruct (0 <? total - k - m) eqn:Hrem.
      * pose proof Hrem as Hrem'. apply Z.ltb_lt in Hrem'.
        destruct (IH (k + m) w1) as (w' & k' & new & Hrun' & Hk' & Hs & Htr & Hall & Hth);
          try done; [subst w1; cbn [script]; lia | lia |].
        exists w', k', (replicate (S j) (Write fd region) ++ new).
        split; [| split; [lia |]; split; [| split; [| split]]].
        -- intros [| fuel] Hfuel; [lia |].
           rewrite Hround, (bind_Ok _ _ _ _ _ Hrun); cbv beta; rewrite Hn.
           rewrite (wrap_jint_small (off0 + k + m)) by lia.
           rewrite (wrap_size_t_small (total - k - m)) by lia.
           rewrite Hrem.
           replace (off0 + k + m) with (off0 + (k + m)) by lia.
           replace (total - k - m) with (total - (k + m)) by lia.
           apply Hrun'. subst w1. cbn [script]. lia.
        -- rewrite Hs. subst w1. cbn [sent]. rewrite <- app_assoc. f_equal.
           rewrite Hsent.
           replace (Z.to_nat (off0 + (k + m)))
             with (Z.to_nat (off0 + k) + Z.to_nat m)%nat by lia.
           rewrite <- drop_drop, take_take_drop. f_equal. lia.
        -- rewrite Htr. subst w1. cbn [trace]. by rewrite <- app_assoc.
        -- by apply Forall_app.
        -- rewrite thrown_app, thrown_replicate by done. exact Hth.
      * pose proof Hrem as Hrem'. apply Z.ltb_ge in Hrem'.
        exists w1, (k + m), (replicate (S j) (Write fd region)).
        split; [| split; [lia |]; split; [| split; [| split]]].
        -- intros [| fuel] Hfuel; [lia |].
           rewrite Hround, (bind_Ok _ _ _ _ _ Hrun); cbv beta; rewrite Hn.
           rewrite (wrap_size_t_small (total - k - m)) by lia.
           by rewrite Hrem.
        -- subst w1. cbn [sent]. f_equal. rewrite Hsent. f_equal. lia.
        -- reflexivity.
        -- done.
        -- left. split; [by apply thrown_replicate | lia].
Qed.

(** X15.  [write] resumes after a partial write where the socket left
    off: when it returns without an exception the socket has taken
    exactly the bytes [off .. off + bufLen) of the array, in order,
    however the writes were cut or interrupted; when it throws, what the
    socket has taken is a prefix of them.  No call offers more than 128
    bytes, and the only exception is the [IOException] of a [write] that
    failed or took nothing. *)
Theorem write_sends_the_whole_range (uninit : list byte) (fd : Z) (ba : list byte)
    (off bufLen : Z) (w : World write_result) :
  0 <= off -> 0 < bufLen -> off + bufLen <= Z.of_nat (length ba) ->
  Z.of_nat (length ba) < 2 ^ 31 ->
  exists w' k new,
    write uninit fd ba off bufLen w = Ok tt w'
    /\ 0 <= k <= bufLen
    /\ sent w' = sent w ++ take (Z.to_nat k) (drop (Z.to_nat off) ba)
    /\ trace w' = trace w ++ new
    /\ Forall (write_call fd) new
    /\ ((thrown new = [] /\ k = bufLen)
        \/ thrown new = [IOExceptionWithLastError sys_write])
    /\ (thrown new = [] ->
        sent w' = sent w ++ take (Z.to_nat bufLen) (drop (Z.to_nat off) ba))
    /\ (forall fuel, (length (script w) < fuel)%nat ->
        write_loop uninit fuel fd ba off (wrap_size_t bufLen) w = Ok tt w').
Proof.
  intros Hoff Hpos Hlen Hmax.
  assert (Hwrap : wrap_size_t bufLen = bufLen) by (apply wrap_size_t_small; lia).
  destruct (write_loop_spec uninit fd ba off bufLen (length (script w)) 0 w)
    as (w' & k & new & Hrun & Hk & Hs & Htr & Hall & Hth); try done; try lia.
  rewrite Z.sub_0_r in Hs.
  assert (Hrun' : forall fuel, (length (script w) < fuel)%nat ->
            write_loop uninit fuel fd ba off (wrap_size_t bufLen) w = Ok tt w').
  { intros fuel Hfuel. specialize (Hrun fuel Hfuel).
    by rewrite Z.add_0_r, Z.sub_0_r in Hrun; rewrite Hwrap. }
  rewrite Z.add_0_r in Hs.
  exists w', k, new. unfold write.
  split; [apply Hrun'; lia |]. split; [lia |]. split; [done |]. split; [done |].
  split; [done |]. split; [done |]. split; [| done].
  intros Hnone. destruct Hth as [[_ ->] | Hth]; [done |]. by rewrite Hth in Hnone.
Qed.

(** X16.  A [write] of no bytes throws: the loop body runs once, offers
    the socket zero bytes, and a [write] that takes nothing is treated as
    a failure, so zero-length requests end in an [IOException] with
    nothing sent. *)
Theorem write_of_no_bytes_throws (uninit : list byte) (fd : Z) (ba : list byte)
    (off : Z) (w : World write_result) :
  exists w' new,
    write uninit fd ba off 0 w = Ok tt w'
    /\ trace w' = trace w ++ new
    /\ sent w' = sent w
    /\ Write fd [] ∈ new
    /\ (forall fd' buf, Write fd' buf ∈ new -> fd' = fd /\ buf = [])
    /\ last (thrown new) = Some (IOExceptionWithLastError sys_write)
    /\ (0 <= off <= Z.of_nat (length ba) ->
        thrown new = [IOExceptionWithLastError sys_write]).
Proof.
  unfold write. change (wrap_size_t 0) with 0. cbn [write_loop].
  change (if 0 <? 128 then 0 else 128) with 0.
  assert (Hround : forall w1 : World write_result,
            exists w' k,
              (n ← write_restartable fd [];
               if 0 <? n then
                 if 0 <? wrap_size_t (0 - n)
                 then write_loop uninit (length (script w)) fd ba (wrap_jint (off + n))
                        (wrap_size_t (0 - n))
                 else mret tt
               else JNU_Throw (IOExceptionWithLastError sys_write)) w1 = Ok tt w'
              /\ trace w' = trace w1 ++ replicate (S k) (Write fd [])
                             ++ [Throw (IOExceptionWithLastError sys_write)]
              /\ sent w' = sent w1).
  { intros w1.
    destruct (write_restartable_spec fd [] w1) as (k & rest & Hrun & _).
    cbn zeta in Hrun. rewrite (bind_Ok _ _ _ _ _ Hrun). cbv beta.
    unfold JNU_Throw, emit.
    destruct (first_result (script w1)) as [| | a]; rewrite ?take_nil;
      unfold_monad; cbn [trace script sent length Z.of_nat Z.ltb Z.compare default
                         from_option id];
      (eexists _, k; split; [reflexivity |]; cbn [trace sent];
       split; [by rewrite <- app_assoc | by rewrite app_nil_r]). }
  unfold GetByteArrayRegion.
  destruct ((0 <=? off) && (0 <=? 0) && (off + 0 <=? Z.of_nat (length ba))) eqn:Hb.
  - erewrite bind_Ok by reflexivity. rewrite take_0.
    destruct (Hround w) as (w' & k & Hrun & Htr & Hs).
    exists w', (replicate (S k) (Write fd []) ++ [Throw (IOExceptionWithLastError sys_write)]).
    split; [exact Hrun |]. split; [done |]. split; [done |].
    split; [apply elem_of_app; left; cbn; apply elem_of_cons; by left |].
    split.
    { intros fd' buf [Hin | Hin]%elem_of_app.
      - by apply elem_of_replicate in Hin as [[= -> ->] _].
      - apply list_elem_of_singleton in Hin. done. }
    rewrite thrown_app, thrown_replicate by done. done.
  - erewrite bind_Ok.
    2:{ unfold JNU_Throw, emit. unfold_monad. reflexivity. }
    rewrite take_0.
    destruct (Hround {| script := script w;
                        trace := trace w ++ [Throw ArrayIndexOutOfBoundsException];
                        sent := sent w |}) as (w' & k & Hrun & Htr & Hs).
    exists w', ([Throw ArrayIndexOutOfBoundsException]
                ++ replicate (S k) (Write fd [])
                ++ [Throw (IOExceptionWithLastError sys_write)]).
    split; [exact Hrun |]. split; [by rewrite Htr; cbn [trace]; rewrite <- ?app_assoc |].
    split; [done |].
    split; [apply elem_of_app; right; apply elem_of_app; left; cbn; apply elem_of_cons;
            by left |].
    split.
    { intros fd' buf [Hin | [Hin | Hin]%elem_of_app]%elem_of_app.
      - apply list_elem_of_singleton in Hin. done.
      - by apply elem_of_replicate in Hin as [[= -> ->] _].
      - apply list_elem_of_singleton in Hin. done. }
    rewrite !thrown_app, thrown_replicate by done. split; [done |].
    intros Hoff. exfalso.
    rewrite !andb_false_iff, !Z.leb_gt in Hb. lia.
Qed.

End AttachIO.

Section AttachStrings.
Import Java_sun_tools_attach_VirtualMachineImpl.
Context {R : Type} `{SysResult R}.

Lemma after_throw_replicate n call l :
  (forall t, call <> Throw t) -> after_throw (replicate n call ++ l) = after_throw l.
Proof.
  intros Hc. induction n as [| n IH]; [done |]. cbn.
  destruct call; try done. by destruct (Hc t).
Qed.

(** X17.  The natives that take a path release the platform string
    exactly once when [GetStringPlatformChars] made a copy, and never
    otherwise (nor for a null string).  [connect] and
    [createAttachFile0] release it before they throw: nothing is released
    once an exception is pending.  [checkPermissions] does it the other
    way round: when it throws, the release comes after the throw. *)
Theorem platform_string_released_once (p : option cstring) (isCopy : bool) :
  (forall os_connect fd (w : World R),
     exists w' new,
       connect os_connect fd p isCopy w = Ok tt w'
       /\ trace w' = trace w ++ new
       /\ releases new = releases_due p isCopy
       /\ releases (after_throw new) = 0%nat)
  /\ (forall geteuid getegid (w : World int_result),
       exists w' new,
         createAttachFile0 geteuid getegid p isCopy w = Ok tt w'
         /\ trace w' = trace w ++ new
         /\ releases new = releases_due p isCopy
         /\ releases (after_throw new) = 0%nat)
  /\ (forall uid gid os_stat (w : World R),
       exists w' new,
         checkPermissions uid gid os_stat p isCopy w = Ok tt w'
         /\ trace w' = trace w ++ new
         /\ releases new = releases_due p isCopy
         /\ (thrown new <> [] -> releases (after_throw new) = releases_due p isCopy)).
Proof.
  split; [| split].
  - intros os_connect fd w. destruct p as [q |]; [| by exists w, []; rewrite app_nil_r].
    unfold connect, JNU_Throw, emit. unfold_monad. cbn [trace script sent].
    destruct (os_connect fd (take (sun_path_size - 1) q)) as [err |];
      [destruct (err =? 0); [| destruct (err =? ENOENT)] |];
      destruct isCopy; cbn [negb];
      (eexists _, _; split; [reflexivity |]; cbn [trace];
       split; [by rewrite <- ?app_assoc |]; done).
  - intros geteuid getegid w. destruct p as [q |].
    2:{ eexists _, _. split; [reflexivity |]. split; [reflexivity |]. done. }
    unfold createAttachFile0.
    destruct (RESTARTABLE_spec (Open q (Z.lor O_CREAT O_EXCL) (Z.lor S_IWUSR S_IRUSR)) w)
      as (k & rest & Hopen & _ & _ & _).
    rewrite (bind_Ok _ _ _ _ _ Hopen). cbv beta.
    set (w1 := {| script := rest |}).
    destruct (match first_result (script w) with IntReturned n => n | _ => -1 end =? -1).
    + unfold JNU_Throw, emit. unfold_monad. subst w1. cbn [trace script sent].
      destruct isCopy;
        (eexists _, _; split; [reflexivity |]; cbn [trace];
         split; [by rewrite <- ?app_assoc |];
         rewrite ?releases_app, ?after_throw_replicate, ?releases_replicate by done;
         done).
    + destruct (RESTARTABLE_spec (Chown q geteuid getegid) w1)
        as (k2 & rest2 & Hchown & _ & _ & _).
      rewrite (bind_Ok _ _ _ _ _ Hchown). cbv beta.
      unfold JNU_Throw, emit. unfold_monad. subst w1. cbn [trace script sent].
      destruct isCopy;
        (eexists _, _; split; [reflexivity |]; cbn [trace];
         split; [by rewrite <- ?app_assoc |];
         rewrite ?releases_app, ?after_throw_replicate, ?releases_replicate by done;
         done).
  - intros uid gid os_stat w. destruct p as [q |]; [| by exists w, []; rewrite app_nil_r].
    unfold checkPermissions, JNU_Throw, emit. unfold_monad. cbn [trace script sent].
    destruct (_ =? 0);
      [destruct (negb _ && negb _); [| destruct (negb _ && negb _);
                                       [| destruct (negb (Z.land _ _ =? 0))]] |];
      destruct isCopy;
      (eexists _, _; split; [reflexivity |]; cbn [trace];
       split; [by rewrite <- ?app_assoc |]; done).
Qed.

End AttachStrings.

(** A read into the last two bytes of a four-byte array, interrupted once,
    with three bytes waiting in the socket: two bytes are asked for, twice,
    and copied. *)
Lemma read_copies_at_most_128_bytes_witness :
  exists w' k,
    Java_sun_tools_attach_VirtualMachineImpl.read 7 ["a"; "b"; "c"; "d"]%byte 2 4
      {| script := [ReadInterrupted; ReadData ["x"; "y"; "z"]%byte]; trace := []; sent := [] |}
    = Ok (2, ["a"; "b"; "x"; "y"]%byte) w'
    /\ trace w' = replicate (S k) (Read 7 2).
Proof.
  destruct (read_copies_at_most_128_bytes 7 ["a"; "b"; "c"; "d"]%byte 2 4
              {| script := [ReadInterrupted; ReadData ["x"; "y"; "z"]%byte];
                 trace := []; sent := [] |}
              ltac:(lia) ltac:(cbn; lia) ltac:(lia))
    as (n & ba' & w' & k & new & Hrun & Htr & _ & Hres & _).
  cbn in Hres. destruct Hres as (-> & _ & Hgot).
  destruct Hgot as (-> & _ & ->); [done |].
  exists w', k. split; [exact Hrun |].
  rewrite Htr. cbn [trace app]. by rewrite app_nil_r.
Defined.

(** Five bytes from offset 1, taken by the socket in pieces of two, then
    (after an interruption) one, then the rest. *)
Lemma write_sends_the_whole_range_witness :
  exists w',
    Java_sun_tools_attach_VirtualMachineImpl.write [] 7
      ["a"; "b"; "c"; "d"; "e"; "f"; "g"]%byte 1 5
      {| script := [WriteAccepts 2; WriteInterrupted; WriteAccepts 1; WriteAccepts 9];
         trace := []; sent := [] |}
    = Ok tt w'
    /\ exists k, sent w' = take k ["b"; "c"; "d"; "e"; "f"; "g"]%byte.
Proof.
  destruct (write_sends_the_whole_range [] 7 ["a"; "b"; "c"; "d"; "e"; "f"; "g"]%byte 1 5
              {| script := [WriteAccepts 2; WriteInterrupted; WriteAccepts 1; WriteAccepts 9];
                 trace := []; sent := [] |}
              ltac:(lia) ltac:(lia) ltac:(cbn; lia) ltac:(cbn; lia))
    as (w' & k & new & Hrun & _ & Hsent & _).
  exists w'. split; [exact Hrun |]. exists (Z.to_nat k). exact Hsent.
Defined.
